(** * MCP chat backend: budget manager, tool namespacing, connection
      registry and turn loop of [server.ts], embedded and verified.

    The development follows the TypeScript source function by function.

    - Strings.  JavaScript strings are sequences of UTF-16 code units;
      they are modelled by Rocq strings, one character per code unit,
      so that [String.length] is [str.length].  The two characters of
      the string literals of the source outside the 8-bit range, U+2026
      in the truncation marker and U+2011 in an error text, are
      represented by the single characters [ellipsis] and [nb_hyphen];
      no function of the source (nor JSON.stringify) treats them
      specially.
    - Numbers.  Token counts are integers far below 2^53 and are
      modelled in [Z]; [maxTurns] is the number of iterations the turn
      loop admits.
    - Values.  Message contents, tool arguments and schemas are JSON
      trees; an [option] is a field that may be [undefined].
    - Effects.  A handler is a computation over a world (the registry
      and the trace of what the server did to the outside) that ends
      with a value or with an exception.  The MCP client library,
      JSON.parse and the model service are parameters ([Env]).
    - Objects.  [pruneConversation] is given twice: on message values
      ([Budget]), and on a store of objects and arrays handled by
      reference ([Store]); the second is proved to compute the first and
      to write nothing that existed before the call.

    - Other files.  The chat store and the routes of the agent backend
      (chatStore.ts, mcpService.ts, index.ts) and the catalogue search
      (mcp-server-utils.ts) are embedded in [ChatStore], [Agent],
      [Catalogue] and [AgentCatalogue]; [uuidv4()] and the answer of the
      model to a recommendation prompt are parameters.

    Layout: the embedding of the code ([JS] ... [AgentCatalogue]), the
    vocabulary of the statements and the data of the examples
    ([Notions] ... [CatalogueNotions]), then the properties, one module
    per component. *)

From Stdlib Require Import String Ascii List ZArith Lia Bool DecimalString DecimalNat.
From stdpp Require Import base list strings gmap.
From Equations Require Import Equations.

Set Warnings "-register-all".
Open Scope Z_scope.

(* ================================================================== *)
(** * JavaScript values and primitives used by the server *)
(* ================================================================== *)

Module JS.

(** [s.startsWith(p)] *)
Definition startsWith (s p : string) : bool := String.prefix p s.

(** [s.slice(0, n)] for [0 <= n] *)
Fixpoint slice_to (s : string) (n : nat) {struct s} : string :=
  match n, s with
  | O, _ => EmptyString
  | S _, EmptyString => EmptyString
  | S n', String c s' => String c (slice_to s' n')
  end.

(** [s.slice(n)] for [0 <= n] *)
Fixpoint slice_from (s : string) (n : nat) {struct n} : string :=
  match n, s with
  | O, _ => s
  | S _, EmptyString => EmptyString
  | S n', String _ s' => slice_from s' n'
  end.

(** [s.split(sep)] for a separator of one character; the result is never
    empty: splitting the empty string gives one empty piece. *)
Fixpoint split (sep : ascii) (s : string) : list string :=
  match s with
  | EmptyString => [EmptyString]
  | String c s' =>
      if Ascii.eqb c sep then EmptyString :: split sep s'
      else match split sep s' with
           | [] => [String c EmptyString]
           | w :: ws => String c w :: ws
           end
  end.

(** [parts.join(sep)] *)
Fixpoint join (sep : string) (parts : list string) : string :=
  match parts with
  | [] => EmptyString
  | [x] => x
  | x :: rest => x +:+ sep +:+ join sep rest
  end.

(** A value that arrived as JSON.  A number is kept as the text that
    JSON.stringify prints for it. *)
Inductive json : Type :=
| JNull
| JBool (b : bool)
| JNum (repr : string)
| JStr (s : string)
| JArr (items : list json)
| JObj (fields : list (string * json)).

Definition dquote : ascii := ascii_of_nat 34.
Definition backslash : ascii := ascii_of_nat 92.

Definition hex_digit (n : nat) : ascii :=
  if (n <? 10)%nat then ascii_of_nat (48 + n) else ascii_of_nat (87 + n).

(** The escape JSON.stringify writes for one code unit of a string. *)
Definition escape_unit (c : ascii) : string :=
  let n := nat_of_ascii c in
  if Ascii.eqb c dquote then String backslash (String dquote EmptyString)
  else if Ascii.eqb c backslash then String backslash (String backslash EmptyString)
  else if (n =? 8)%nat then String backslash "b"
  else if (n =? 9)%nat then String backslash "t"
  else if (n =? 10)%nat then String backslash "n"
  else if (n =? 12)%nat then String backslash "f"
  else if (n =? 13)%nat then String backslash "r"
  else if (n <? 32)%nat then
    String backslash ("u00" +:+ String (hex_digit (n / 16)) (String (hex_digit (n mod 16)) EmptyString))
  else String c EmptyString.

Fixpoint escape (s : string) : string :=
  match s with
  | EmptyString => EmptyString
  | String c s' => escape_unit c +:+ escape s'
  end.

Definition quote (s : string) : string :=
  String dquote (escape s +:+ String dquote EmptyString).

(** [JSON.stringify(j)] for a value [j] that is not [undefined]. *)
Fixpoint JSON_stringify (j : json) : string :=
  match j with
  | JNull => "null"
  | JBool true => "true"
  | JBool false => "false"
  | JNum repr => repr
  | JStr s => quote s
  | JArr items => "[" +:+ join "," (map JSON_stringify items) +:+ "]"
  | JObj fields =>
      "{" +:+ join "," (map (fun kv => quote (fst kv) +:+ ":" +:+ JSON_stringify (snd kv)) fields) +:+ "}"
  end.

(** JavaScript truthiness of a JSON value ([x || dflt], [if (x)]). *)
Definition truthy (j : json) : bool :=
  match j with
  | JNull => false
  | JBool b => b
  | JNum repr => negb (String.eqb repr "0" || String.eqb repr "-0")
  | JStr s => negb (String.eqb s EmptyString)
  | JArr _ | JObj _ => true
  end.

End JS.

(* ================================================================== *)
(** * Context budget manager *)
(* ================================================================== *)

Module Budget.
Import JS.

(** One tool call of an assistant message. [function] may be absent. *)
Record FunctionCall := { fn_name : string; fn_arguments : option json }.
Record ToolCall := { call_id : string; call_function : option FunctionCall }.

(** ChatCompletionMessageParam: the fields the server reads or writes.
    [content = None] is a message whose content is [undefined]. *)
Record Message := {
  role : string;
  content : option json;
  tool_calls : option (list ToolCall);
  tool_call_id : option string
}.

Definition set_content (m : Message) (c : option json) : Message :=
  {| role := role m; content := c; tool_calls := tool_calls m; tool_call_id := tool_call_id m |}.

Definition MAX_CONTEXT_TOKENS : Z := 120000.
Definition BYTES_PER_TOKEN : Z := 3.
Definition MAX_SINGLE_MSG_TOKENS : Z := 8000.

(** [Math.ceil(a / b)] for [0 <= a], [0 < b] *)
Definition ceil_div (a b : Z) : Z := (a + b - 1) / b.

Definition strTokens (str : string) : Z :=
  let len := Z.min (Z.of_nat (String.length str)) 1000000 in
  ceil_div len BYTES_PER_TOKEN.

(** U+2026, one code unit. *)
Definition ellipsis : ascii := ascii_of_nat 133.
Definition truncation_marker : string := String ellipsis "[truncated]".

(** [clipMessage] assigns [msg.content]; the model returns the message
    after the assignment. *)
Definition clipMessage (msg : Message) : Message :=
  match content msg with
  | Some (JStr s) =>
      if MAX_SINGLE_MSG_TOKENS <? strTokens s then
        let keep := MAX_SINGLE_MSG_TOKENS * BYTES_PER_TOKEN in
        set_content msg (Some (JStr (slice_to s (Z.to_nat keep) +:+ truncation_marker)))
      else msg
  | _ => msg
  end.

(** The message of the TypeError raised by reading [length] of
    [undefined]. *)
Definition undefined_length : string :=
  "Cannot read properties of undefined (reading 'length')".

(** [msgTokens]; [None] is the TypeError raised when the content is
    [undefined] (JSON.stringify returns [undefined], whose [length]
    cannot be read). *)
Definition msgTokens (msg : Message) : option Z :=
  match content msg with
  | None => None
  | Some JNull => Some 4
  | Some (JStr s) => Some (strTokens s)
  | Some j => Some (strTokens (JSON_stringify j))
  end.

(** [messages.reduce((sum, m) => sum + msgTokens(m), 0)] *)
Definition totalTokens (messages : list Message) : option Z :=
  fold_left (fun acc m =>
               match acc, msgTokens m with
               | Some sum, Some t => Some (sum + t)
               | _, _ => None
               end) messages (Some 0).

Definition non_system (m : Message) : bool := negb (String.eqb (role m) "system").

(** [arr.findIndex(p)]; [None] stands for -1. *)
Fixpoint findIndex {A} (p : A -> bool) (arr : list A) : option nat :=
  match arr with
  | [] => None
  | x :: rest => if p x then Some O else option_map S (findIndex p rest)
  end.

(** [arr.splice(idx, 1)] *)
Fixpoint splice1 {A} (idx : nat) (arr : list A) : list A :=
  match idx, arr with
  | _, [] => []
  | O, _ :: rest => rest
  | S i, x :: rest => x :: splice1 i rest
  end.

Definition inspect {A} (a : A) : {b : A | a = b} := exist _ a eq_refl.

(** The [while] loop of [pruneConversation], on the array [pruned]. *)
Equations? prune_loop (pruned : list Message) : option (list Message)
  by wf (length pruned) lt :=
  prune_loop pruned with totalTokens pruned => {
    | None => None
    | Some total with (MAX_CONTEXT_TOKENS <? total) && (1 <? length pruned)%nat => {
        | false => Some pruned
        | true with inspect (findIndex non_system pruned) => {
            | exist _ None _ => Some pruned
            | exist _ (Some idx) Hidx => prune_loop (splice1 idx pruned) } } }.
Proof.
  assert (Hshorter : forall (arr : list Message) (i : nat),
             findIndex non_system arr = Some i ->
             (length (splice1 i arr) < length arr)%nat).
  { induction arr as [|x rest IH]; intros i; simpl; [discriminate|].
    destruct (non_system x).
    - intros [= <-]. simpl. lia.
    - destruct (findIndex non_system rest) as [j|]; simpl; [|discriminate].
      intros [= <-]. specialize (IH j eq_refl). simpl. lia. }
  apply Hshorter, Hidx.
Qed.

(** [pruneConversation]: clone and clip every message, then drop the
    oldest non-system messages while over budget. *)
Definition pruneConversation (messages : list Message) : option (list Message) :=
  prune_loop (map clipMessage messages).

End Budget.

(* ================================================================== *)
(** * Effects: exceptions over a mutable world *)
(* ================================================================== *)

Module Eff.

(** The result of running a piece of the server: a value, or an
    exception carrying [e.message]. *)
Inductive Outcome (A : Type) : Type :=
| Done (a : A)
| Thrown (message : string).
Arguments Done {A} a.
Arguments Thrown {A} message.

(** A computation over a world of type [W]; the world reached is kept
    also when an exception is thrown. *)
Definition Run (W A : Type) : Type := W -> Outcome A * W.

Definition ret {W A} (a : A) : Run W A := fun w => (Done a, w).

Definition bind {W A B} (m : Run W A) (k : A -> Run W B) : Run W B :=
  fun w => match m w with
           | (Done a, w') => k a w'
           | (Thrown e, w') => (Thrown e, w')
           end.

Definition throw {W A} (e : string) : Run W A := fun w => (Thrown e, w).

(** [try { m } catch (e) { handler(e.message) }] *)
Definition try_catch {W A} (m : Run W A) (handler : string -> Run W A) : Run W A :=
  fun w => match m w with
           | (Done a, w') => (Done a, w')
           | (Thrown e, w') => handler e w'
           end.

Definition get {W} : Run W W := fun w => (Done w, w).
Definition modify {W} (f : W -> W) : Run W unit := fun w => (Done tt, f w).

Definition lift {W A} (o : Outcome A) : Run W A := fun w => (o, w).

Declare Scope run_scope.
Delimit Scope run_scope with run.
Notation "x <- m ;; k" := (bind m (fun x => k))
  (at level 20, m at level 99, k at level 200, only parsing) : run_scope.

End Eff.

(* ================================================================== *)
(** * Tool namespacing *)
(* ================================================================== *)

Module Naming.
Import JS.

(** The name under which a tool is offered to the model:
    [`${serverId}_${t.name}`]. *)
Definition encode (serverId toolName : string) : string :=
  serverId +:+ "_" +:+ toolName.

(** [const [serverId, ...fnParts] = fullName.split('_')] and
    [fnParts.join('_')].  [split] never returns the empty array; that
    case stands for the [undefined] a destructuring would bind. *)
Definition decode (fullName : string) : string * string :=
  match split "_" fullName with
  | serverId :: fnParts => (serverId, join "_" fnParts)
  | [] => ("undefined", EmptyString)
  end.

End Naming.

(* ================================================================== *)
(** * The server: connection registry and REST endpoints *)
(* ================================================================== *)

Module Server.
Import JS Budget Eff Naming.
Local Open Scope run_scope.

(** A connected MCP client, by identity. *)
Definition Client : Type := nat.

(** U+2011, the hyphen of the text "mis-configured" in the source; one
    code unit. *)
Definition nb_hyphen : ascii := ascii_of_nat 173.

(** [activeMCPConnections], a JavaScript [Map]: entries in insertion
    order, one per key. *)
Definition ConnMap : Type := list (string * Client).

Fixpoint Map_get (m : ConnMap) (key : string) : option Client :=
  match m with
  | [] => None
  | (k, c) :: rest => if String.eqb k key then Some c else Map_get rest key
  end.

Definition Map_has (m : ConnMap) (key : string) : bool :=
  match Map_get m key with Some _ => true | None => false end.

Fixpoint Map_set (m : ConnMap) (key : string) (c : Client) : ConnMap :=
  match m with
  | [] => [(key, c)]
  | (k, c0) :: rest =>
      if String.eqb k key then (k, c) :: rest else (k, c0) :: Map_set rest key c
  end.

Definition Map_delete (m : ConnMap) (key : string) : ConnMap :=
  List.filter (fun kv => negb (String.eqb (fst kv) key)) m.

Definition Map_keys (m : ConnMap) : list string := map fst m.

(** The registry key [`${sessionId}-${id}`]. *)
Definition keyOf (sessionId id : string) : string := sessionId +:+ "-" +:+ id.

(** A template literal prints [undefined] as the text "undefined". *)
Definition template (id : option string) : string := default "undefined" id.

Record MCPServerConfig := {
  cfg_id : string;
  cfg_command : string;
  cfg_args : list string
}.

Record ToolDescriptor := {
  td_name : string;
  td_description : option string;
  td_inputSchema : option json
}.

(** An entry of the [tools] parameter sent to the model. *)
Record ChatTool := {
  ct_name : string;
  ct_description : string;
  ct_parameters : json
}.

(** An entry of the answer of /api/mcp/tools. *)
Record ListedTool := {
  lt_serverId : string;
  lt_name : string;
  lt_description : option string;
  lt_inputSchema : json
}.

(** [completion.choices[0].message] *)
Record Assistant := {
  a_content : option json;
  a_tool_calls : option (list ToolCall)
}.

(** What the server does to the outside, in order. *)
Inductive Event : Type :=
| Spawned (serverId : string)
| ListedTools (c : Client)
| CalledTool (c : Client) (name : string) (args : json)
| Closed (c : Client)
| Requested (turn : nat) (convo : list Message) (tools : list ChatTool).

Record World := { registry : ConnMap; events : list Event }.

(** The collaborators of the server: the curated catalogue, the MCP
    client library, JSON.parse and the model service.  The model's reply
    is given per turn of a chat request. *)
Record Env := {
  CURATED_MCP_SERVERS : list MCPServerConfig;
  client_connect : MCPServerConfig -> Outcome Client;
  client_listTools : Client -> Outcome (list ToolDescriptor);
  client_callTool : Client -> string -> json -> Outcome (option json);
  client_close : Client -> Outcome unit;
  JSON_parse : string -> Outcome json;
  completions_create : nat -> Outcome Assistant
}.

Inductive Response (A : Type) : Type :=
| Ok (body : A)
| BadRequest
| ServerError.
Arguments Ok {A} body.
Arguments BadRequest {A}.
Arguments ServerError {A}.

(** The [try { ... } catch (err) { res.status(500) }] around a handler. *)
Definition handle {A} (m : Run World A) : World -> Response A * World :=
  fun w => match m w with
           | (Done a, w') => (Ok a, w')
           | (Thrown _, w') => (ServerError, w')
           end.

Definition emit (ev : Event) : Run World unit :=
  modify (fun w => {| registry := registry w; events := events w ++ [ev] |}).

Definition registry_set (key : string) (c : Client) : Run World unit :=
  modify (fun w => {| registry := Map_set (registry w) key c; events := events w |}).

Definition registry_delete (key : string) : Run World unit :=
  modify (fun w => {| registry := Map_delete (registry w) key; events := events w |}).

Definition extractServerId (key sessionId : string) : Outcome string :=
  let prefix := sessionId +:+ "-" in
  if startsWith key prefix then Done (slice_from key (String.length prefix))
  else Thrown ("Key " +:+ key +:+ " missing prefix").

Section WithEnv.
Variable E : Env.

Definition fetchMCPServerDetails (serverId : string) : option MCPServerConfig :=
  List.find (fun s => String.eqb (cfg_id s) serverId) (CURATED_MCP_SERVERS E).

Definition normalizeServerConfig (server : MCPServerConfig) : MCPServerConfig := server.

(** [connectToMCPServer]; the provider process is spawned by
    [client.connect(transport)]. *)
Definition connectToMCPServer (serverId : string) : Run World Client :=
  match fetchMCPServerDetails serverId with
  | None => throw ("MCP server " +:+ serverId +:+ " not found")
  | Some server =>
      let cfg := normalizeServerConfig server in
      if String.eqb (cfg_command cfg) EmptyString
      then throw ("MCP server " +:+ serverId +:+ " mis" +:+ String nb_hyphen "configured")
      else _ <- emit (Spawned serverId) ;; lift (client_connect E cfg)
  end.

Inductive ConnectStatus : Type :=
| AlreadyConnected
| Connected
| Failed (error : string).

(** The loop of /api/mcp/connect over [serverIds]. *)
Fixpoint connect_loop (sessionId : string) (serverIds : list string)
  : Run World (list (string * ConnectStatus)) :=
  match serverIds with
  | [] => ret []
  | id :: rest =>
      let key := keyOf sessionId id in
      w <- get ;;
      r <- (if Map_has (registry w) key then ret (id, AlreadyConnected)
            else try_catch
                   (client <- connectToMCPServer id ;;
                    _ <- registry_set key client ;;
                    ret (id, Connected))
                   (fun e => ret (id, Failed e))) ;;
      rs <- connect_loop sessionId rest ;;
      ret (r :: rs)
  end.

(** POST /api/mcp/connect; [serverIds = None] is a body whose
    [serverIds] is not an array. *)
Definition api_mcp_connect (sessionId : string) (serverIds : option (list string))
  : World -> Response (list (string * ConnectStatus)) * World :=
  fun w =>
    match serverIds with
    | Some ids =>
        if String.eqb sessionId EmptyString then (BadRequest, w)
        else handle (connect_loop sessionId ids) w
    | None => (BadRequest, w)
    end.

Definition do_listTools (c : Client) : Run World (list ToolDescriptor) :=
  _ <- emit (ListedTools c) ;; lift (client_listTools E c).

(** [t.inputSchema || {}] *)
Definition schema_or_empty (s : option json) : json :=
  match s with
  | Some j => if truthy j then j else JObj []
  | None => JObj []
  end.

(** The loop of /api/mcp/tools over the entries of the registry. *)
Fixpoint tools_loop (sessionId : string) (entries : ConnMap) : Run World (list ListedTool) :=
  match entries with
  | [] => ret []
  | (key, client) :: rest =>
      if negb (startsWith key sessionId) then tools_loop sessionId rest
      else
        serverId <- lift (extractServerId key sessionId) ;;
        svTools <- do_listTools client ;;
        more <- tools_loop sessionId rest ;;
        ret (map (fun t => {| lt_serverId := serverId; lt_name := td_name t;
                              lt_description := td_description t;
                              lt_inputSchema := schema_or_empty (td_inputSchema t) |}) svTools
             ++ more)
  end.

(** POST /api/mcp/tools *)
Definition api_mcp_tools (sessionId : string) : World -> Response (list ListedTool) * World :=
  fun w =>
    if String.eqb sessionId EmptyString then (BadRequest, w)
    else handle (tools_loop sessionId (registry w)) w.

(** [Object.keys(j).length] for a truthy [j] *)
Definition keys_count (j : json) : nat :=
  match j with
  | JObj fields => length fields
  | JArr items => length items
  | JStr s => String.length s
  | _ => O
  end.

(** The entry pushed to [toolsList] for tool [t] of server [serverId]. *)
Definition chat_tool (serverId : string) (t : ToolDescriptor) : ChatTool :=
  {| ct_name := encode serverId (td_name t);
     ct_description := default EmptyString (td_description t);
     ct_parameters :=
       match td_inputSchema t with
       | Some j =>
           if truthy j && negb (keys_count j =? 0)%nat then j
           else JObj [("type", JStr "object"); ("properties", JObj [])]
       | None => JObj [("type", JStr "object"); ("properties", JObj [])]
       end |}.

(** Step 1 of /api/chat: the loop that builds [toolsList]. *)
Fixpoint toolsList_loop (sessionId : string) (entries : ConnMap) : Run World (list ChatTool) :=
  match entries with
  | [] => ret []
  | (key, client) :: rest =>
      if negb (startsWith key (sessionId +:+ "-")) then toolsList_loop sessionId rest
      else
        serverId <- lift (extractServerId key sessionId) ;;
        svTools <- do_listTools client ;;
        more <- toolsList_loop sessionId rest ;;
        ret (map (chat_tool serverId) svTools ++ more)
  end.

(** [typeof rawArgs === 'string' ? JSON.parse(rawArgs || '{}') : rawArgs || {}] *)
Definition parse_args (rawArgs : option json) : Outcome json :=
  match rawArgs with
  | Some (JStr s) => JSON_parse E (if String.eqb s EmptyString then "{}" else s)
  | Some j => Done (if truthy j then j else JObj [])
  | None => Done (JObj [])
  end.

Definition error_content (message : string) : json := JObj [("error", JStr message)].

(** [{ tool_call_id: call.id, role: 'tool', content: JSON.stringify(resultContent) }];
    JSON.stringify of [undefined] is [undefined]. *)
Definition toolMsg (call : ToolCall) (resultContent : option json) : Message :=
  {| role := "tool";
     content := option_map (fun j => JStr (JSON_stringify j)) resultContent;
     tool_calls := None;
     tool_call_id := Some (call_id call) |}.

(** The result content of one call that has a [function]. *)
Definition run_tool (sessionId : string) (f : FunctionCall) : Run World (option json) :=
  let fullName := fn_name f in
  args <- lift (parse_args (fn_arguments f)) ;;
  let (serverId, fnName) := decode fullName in
  let clientKey := keyOf sessionId serverId in
  w <- get ;;
  match Map_get (registry w) clientKey with
  | Some client =>
      try_catch
        (_ <- emit (CalledTool client fnName args) ;; lift (client_callTool E client fnName args))
        (fun e => ret (Some (error_content e)))
  | None => ret (Some (error_content ("MCP server " +:+ serverId +:+ " not connected")))
  end.

(** The body of [for (const call of assistant.tool_calls)]: the tool
    message it pushes, if any. *)
Definition dispatch_call (sessionId : string) (call : ToolCall) : Run World (list Message) :=
  match call_function call with
  | None => ret []
  | Some f =>
      resultContent <- run_tool sessionId f ;;
      ret [toolMsg call resultContent]
  end.

(** The whole [for] loop: the tool messages pushed to [convo] and to
    [allToolResults], in order. *)
Fixpoint dispatch_all (sessionId : string) (calls : list ToolCall) : Run World (list Message) :=
  match calls with
  | [] => ret []
  | call :: rest =>
      pushed <- dispatch_call sessionId call ;;
      more <- dispatch_all sessionId rest ;;
      ret (pushed ++ more)
  end.

Record LoopState := {
  convo : list Message;
  allToolCalls : list ToolCall;
  allToolResults : list Message;
  lastAssistantMsg : option Assistant
}.

(** [{ role: 'assistant', content: null, tool_calls: assistant.tool_calls }] *)
Definition planning_msg (calls : list ToolCall) : Message :=
  {| role := "assistant"; content := Some JNull; tool_calls := Some calls; tool_call_id := None |}.

Definition prune (c : list Message) : Outcome (list Message) :=
  match pruneConversation c with
  | Some c' => Done c'
  | None => Thrown undefined_length
  end.

(** [for (let turn = 0; turn < maxTurns; turn++)], with [remaining]
    the number of iterations still allowed. *)
Fixpoint chat_loop (sessionId : string) (toolsList : list ChatTool)
    (remaining turn : nat) (st : LoopState) : Run World LoopState :=
  match remaining with
  | O => ret st
  | S remaining' =>
      pruned <- lift (prune (convo st)) ;;
      _ <- emit (Requested turn pruned toolsList) ;;
      assistant <- lift (completions_create E turn) ;;
      match a_tool_calls assistant with
      | Some (c :: cs) =>
          let calls := c :: cs in
          results <- dispatch_all sessionId calls ;;
          chat_loop sessionId toolsList remaining' (S turn)
            {| convo := pruned ++ [planning_msg calls] ++ results;
               allToolCalls := allToolCalls st ++ calls;
               allToolResults := allToolResults st ++ results;
               lastAssistantMsg := lastAssistantMsg st |}
      | _ =>
          ret {| convo := pruned;
                 allToolCalls := allToolCalls st;
                 allToolResults := allToolResults st;
                 lastAssistantMsg := Some assistant |}
      end
  end.

Record ChatRequest := {
  req_sessionId : string;
  req_messages : list Message;
  req_useMCP : bool;
  req_maxTurns : nat
}.

Record ChatBody := {
  message : option Assistant;
  toolCalls : list ToolCall;
  toolResults : list Message
}.

(** POST /api/chat *)
Definition api_chat (req : ChatRequest) : World -> Response ChatBody * World :=
  fun w =>
    if String.eqb (req_sessionId req) EmptyString then (BadRequest, w)
    else handle
      (toolsList <- (if req_useMCP req
                     then toolsList_loop (req_sessionId req) (registry w)
                     else ret []) ;;
       st <- chat_loop (req_sessionId req) toolsList (req_maxTurns req) O
               {| convo := req_messages req; allToolCalls := [];
                  allToolResults := []; lastAssistantMsg := None |} ;;
       ret {| message := lastAssistantMsg st;
              toolCalls := allToolCalls st;
              toolResults := allToolResults st |}) w.

(** The ids /api/mcp/disconnect works on: the given [serverIds], or, for
    a body without that array, [k.split('-')[1]] of every key that
    starts with the session id. *)
Definition disconnect_ids (sessionId : string) (serverIds : option (list string))
    (reg : ConnMap) : list (option string) :=
  match serverIds with
  | Some ids => map Some ids
  | None =>
      map (fun k => split "-" k !! 1%nat)
          (List.filter (fun k => startsWith k sessionId) (Map_keys reg))
  end.

(** The close-and-delete loop; returns [disconnected]. *)
Fixpoint disconnect_loop (sessionId : string) (ids : list (option string))
  : Run World (list (option string)) :=
  match ids with
  | [] => ret []
  | id :: rest =>
      let key := keyOf sessionId (template id) in
      w <- get ;;
      match Map_get (registry w) key with
      | Some client =>
          _ <- emit (Closed client) ;;
          _ <- lift (client_close E client) ;;
          _ <- registry_delete key ;;
          more <- disconnect_loop sessionId rest ;;
          ret (id :: more)
      | None => disconnect_loop sessionId rest
      end
  end.

(** POST /api/mcp/disconnect *)
Definition api_mcp_disconnect (sessionId : string) (serverIds : option (list string))
  : World -> Response (list (option string)) * World :=
  fun w =>
    if String.eqb sessionId EmptyString then (BadRequest, w)
    else handle (disconnect_loop sessionId (disconnect_ids sessionId serverIds (registry w))) w.

End WithEnv.
End Server.

(* ================================================================== *)
(** * The agent backend: [connectToServer] of mcpService.ts *)
(* ================================================================== *)

Module Bee.
Import Eff.
Local Open Scope run_scope.

Record MCPServer := {
  id : string;
  command : string;
  args : list string
}.

(** [{ client, agent }]: the client by identity, the agent by the tools
    it was built with. *)
Record ActiveConnection := {
  client : nat;
  agent_tools : list string
}.

(** [ACTIVE], a plain object used as a dictionary, and the processes
    spawned so far. *)
Record World := {
  ACTIVE : gmap string ActiveConnection;
  spawned : list string
}.

Record Env := {
  CATALOGUE : list MCPServer;
  BRAVE_API_KEY : bool;
  client_connect : MCPServer -> Outcome nat;
  MCPTool_fromClient : nat -> Outcome (list string)
}.

(** The properties every plain object inherits from [Object.prototype];
    [ACTIVE[id]] is truthy for them as well. *)
Definition inherited_keys : list string :=
  ["constructor"; "toString"; "toLocaleString"; "valueOf"; "hasOwnProperty";
   "isPrototypeOf"; "propertyIsEnumerable"; "__proto__"; "__defineGetter__";
   "__defineSetter__"; "__lookupGetter__"; "__lookupSetter__"].

(** [if (ACTIVE[id])] *)
Definition ACTIVE_truthy (w : World) (i : string) : bool :=
  match ACTIVE w !! i with
  | Some _ => true
  | None => existsb (String.eqb i) inherited_keys
  end.

Section WithEnv.
Variable E : Env.

Definition connectToServer (i : string) : Run World unit :=
  w <- get ;;
  if ACTIVE_truthy w i then ret tt
  else
    match List.find (fun s => String.eqb (id s) i) (CATALOGUE E) with
    | None => throw ("Unknown server '" +:+ i +:+ "'")
    | Some spec =>
        if String.eqb (id spec) "brave-search" && negb (BRAVE_API_KEY E)
        then throw "BRAVE_API_KEY environment variable is required for Brave Search server"
        else
          _ <- modify (fun w => {| ACTIVE := ACTIVE w; spawned := spawned w ++ [i] |}) ;;
          c <- lift (client_connect E spec) ;;
          tools <- lift (MCPTool_fromClient E c) ;;
          modify (fun w => {| ACTIVE := <[i := {| client := c; agent_tools := tools |}]> (ACTIVE w);
                              spawned := spawned w |})
    end.

End WithEnv.
End Bee.

(* ================================================================== *)
(** * [pruneConversation] on the object store *)
(* ================================================================== *)

(** Messages are objects and conversations are arrays: both live in a
    store and are handled by reference.  This module runs
    [pruneConversation] on the store, so that what it writes, and
    where, is explicit. *)
Module Store.
Import JS Budget Eff.
Local Open Scope run_scope.

(** A reference: the address of an object or of an array. *)
Abbreviation ref := nat.

Record Heap := {
  objects : list Message;
  arrays : list (list ref)
}.

Definition bad_ref : string := "reference outside the store".
Definition out_of_fuel : string := "iteration bound reached".

Definition read_obj (r : ref) : Run Heap Message :=
  fun h => match objects h !! r with
           | Some o => (Done o, h)
           | None => (Thrown bad_ref, h)
           end.

Definition read_array (a : ref) : Run Heap (list ref) :=
  fun h => match arrays h !! a with
           | Some l => (Done l, h)
           | None => (Thrown bad_ref, h)
           end.

Definition alloc_obj (o : Message) : Run Heap ref :=
  fun h => (Done (length (objects h)), {| objects := objects h ++ [o]; arrays := arrays h |}).

Definition alloc_array (l : list ref) : Run Heap ref :=
  fun h => (Done (length (arrays h)), {| objects := objects h; arrays := arrays h ++ [l] |}).

Definition write_obj (r : ref) (o : Message) : Run Heap unit :=
  modify (fun h => {| objects := <[r := o]> (objects h); arrays := arrays h |}).

Definition write_array (a : ref) (l : list ref) : Run Heap unit :=
  modify (fun h => {| objects := objects h; arrays := <[a := l]> (arrays h) |}).

(** [{ ...m, content: m.content }] *)
Definition clone_h (m : ref) : Run Heap ref :=
  o <- read_obj m ;;
  alloc_obj {| role := role o; content := content o;
               tool_calls := tool_calls o; tool_call_id := tool_call_id o |}.

(** [clipMessage(msg)]: assigns [msg.content] in place. *)
Definition clipMessage_h (msg : ref) : Run Heap unit :=
  o <- read_obj msg ;;
  match content o with
  | Some (JStr s) =>
      if MAX_SINGLE_MSG_TOKENS <? strTokens s then
        let keep := MAX_SINGLE_MSG_TOKENS * BYTES_PER_TOKEN in
        write_obj msg (set_content o (Some (JStr (slice_to s (Z.to_nat keep) +:+ truncation_marker))))
      else ret tt
  | _ => ret tt
  end.

(** [pruned.push(clone)] *)
Definition push_h (a : ref) (r : ref) : Run Heap unit :=
  l <- read_array a ;; write_array a (l ++ [r]).

(** [for (const m of messages) { ... }]: the iterator reads
    [messages[i]] from the store at every step. *)
Fixpoint copy_loop (fuel : nat) (messages pruned : ref) (i : nat) : Run Heap unit :=
  arr <- read_array messages ;;
  match arr !! i with
  | None => ret tt
  | Some m =>
      match fuel with
      | O => throw out_of_fuel
      | S fuel' =>
          clone <- clone_h m ;;
          _ <- clipMessage_h clone ;;
          _ <- push_h pruned clone ;;
          copy_loop fuel' messages pruned (S i)
      end
  end.

(** [msgTokens] and [totalTokens] through references. *)
Fixpoint totalTokens_h (refs : list ref) (sum : Z) : Run Heap Z :=
  match refs with
  | [] => ret sum
  | r :: rest =>
      o <- read_obj r ;;
      match msgTokens o with
      | Some t => totalTokens_h rest (sum + t)
      | None => throw undefined_length
      end
  end.

Fixpoint findIndex_h (refs : list ref) : Run Heap (option nat) :=
  match refs with
  | [] => ret None
  | r :: rest =>
      o <- read_obj r ;;
      if non_system o then ret (Some O)
      else idx <- findIndex_h rest ;; ret (option_map S idx)
  end.

(** The [while] loop, on the array at [pruned]. *)
Fixpoint while_loop (fuel : nat) (pruned : ref) : Run Heap unit :=
  arr <- read_array pruned ;;
  total <- totalTokens_h arr 0 ;;
  if (MAX_CONTEXT_TOKENS <? total) && (1 <? length arr)%nat then
    idx <- findIndex_h arr ;;
    match idx with
    | None => ret tt
    | Some i =>
        match fuel with
        | O => throw out_of_fuel
        | S fuel' =>
            _ <- write_array pruned (splice1 i arr) ;;
            while_loop fuel' pruned
        end
    end
  else ret tt.

(** [pruneConversation(messages)]; both loops are bounded by the length
    of the array they work on. *)
Definition pruneConversation_h (messages : ref) : Run Heap ref :=
  pruned <- alloc_array [] ;;
  arr <- read_array messages ;;
  _ <- copy_loop (length arr) messages pruned O ;;
  copies <- read_array pruned ;;
  _ <- while_loop (length copies) pruned ;;
  ret pruned.

(** The conversation an array of the store denotes. *)
Definition deref (h : Heap) (refs : list ref) : option (list Message) :=
  mapM (fun r => objects h !! r) refs.

End Store.

(* ================================================================== *)
(** * The chat store of the agent backend: chatStore.ts *)
(* ================================================================== *)

(** [chatStore] is an array of chat objects that only grows; a chat is
    handed out by reference and is identified here by its position in
    the array.  [uuidv4()] is a parameter of the functions that call
    it. *)
Module ChatStore.
Import JS Budget.

Record ChatMessage := {
  cm_role : string;
  cm_content : string;
  cm_meta : option json;
  cm_iterations : option json
}.

Record Chat := {
  chat_id : string;
  chat_title : string;
  chat_mcpId : option string;
  chat_history : list ChatMessage
}.

(** The decimal text of a number in a template literal. *)
Definition decimal (n : nat) : string := NilEmpty.string_of_uint (Nat.to_uint n).

(** [`Chat ${chatStore.length + 1}`] *)
Definition generateChatTitle (chatStore : list Chat) : string :=
  "Chat " +:+ decimal (length chatStore + 1).

(** [createChat(mcpId)], with [uuid] the value [generateChatId()]
    returns; the chat created is the last one of the store. *)
Definition createChat (uuid : string) (mcpId : option string) (chatStore : list Chat)
  : list Chat :=
  chatStore ++ [ {| chat_id := uuid; chat_title := generateChatTitle chatStore;
                    chat_mcpId := mcpId; chat_history := [] |} ].

(** [chatStore.find(chat => chat.id === id)] *)
Definition getChat (id : string) (chatStore : list Chat) : option nat :=
  findIndex (fun chat => String.eqb (chat_id chat) id) chatStore.

Definition getChatsList (chatStore : list Chat) : list (string * string * option string) :=
  map (fun chat => (chat_id chat, chat_title chat, chat_mcpId chat)) chatStore.

(** [chat.history.push(message)] *)
Definition push_message (message : ChatMessage) (chat : Chat) : Chat :=
  {| chat_id := chat_id chat; chat_title := chat_title chat; chat_mcpId := chat_mcpId chat;
     chat_history := chat_history chat ++ [message] |}.

(** [chat.mcpId = mcpId] *)
Definition set_mcpId (mcpId : option string) (chat : Chat) : Chat :=
  {| chat_id := chat_id chat; chat_title := chat_title chat; chat_mcpId := mcpId;
     chat_history := chat_history chat |}.

Definition addMessageToChat (chatId : string) (message : ChatMessage) (chatStore : list Chat)
  : list Chat :=
  match getChat chatId chatStore with
  | Some i => alter (push_message message) i chatStore
  | None => chatStore
  end.

(** [getOrCreateChat(chatId, mcpId)]: the chat returned and the store
    after the call.  [chatId = None] is [undefined]; [mcpId = None] is
    [null]. *)
Definition getOrCreateChat (uuid : string) (chatId mcpId : option string)
    (chatStore : list Chat) : nat * list Chat :=
  let existingChat :=
    match chatId with
    | Some id => if String.eqb id EmptyString then None else getChat id chatStore
    | None => None
    end in
  match existingChat with
  | Some i =>
      (i, match mcpId with
          | Some m => alter (set_mcpId (Some m)) i chatStore
          | None => chatStore
          end)
  | None => (length chatStore, createChat uuid mcpId chatStore)
  end.

End ChatStore.

(* ================================================================== *)
(** * The agent backend: [disconnectFromServer] and the routes that
      connect and disconnect (mcpService.ts, index.ts) *)
(* ================================================================== *)

Module Agent.
Import Eff ChatStore.
Local Open Scope run_scope.

(** The state of the agent backend: the connection cache of
    mcpService.ts, the clients on which [close] was called, and the
    chat store. *)
Record World := {
  service : Bee.World;
  closed : list nat;
  chats : list Chat
}.

(** The message of the TypeError raised by calling [close] on the
    [client] of a value that has none. *)
Definition undefined_close : string :=
  "Cannot read properties of undefined (reading 'close')".

(** A computation of mcpService.ts, run on the state of the backend. *)
Definition on_service {A} (m : Run Bee.World A) : Run World A :=
  fun w => match m (service w) with
           | (o, s) => (o, {| service := s; closed := closed w; chats := chats w |})
           end.

(** What /connect answers: [{ status: "connected", id }] or status 500
    with [{ error }]. *)
Inductive ConnectReply : Type :=
| ConnectedAs (id : string)
| ConnectError (error : string).

(** The web framework under the routes.  The source does not fix its
    version, and the versions differ in what they do when the promise
    of an [async] handler is rejected.  Express 4 does not look at the
    promise: the rejection is unhandled, Node ends the process, no
    answer is sent, and the cache and the chat store, which live in its
    memory, are gone.  Express 5 passes the error to its error handler,
    which answers with status 500. *)
Inductive Framework : Type := Express4 | Express5.

(** How a request to /disconnect ends: with the answer
    [{ status: "disconnected", id }], or, when [disconnectFromServer]
    throws (the route has no [catch]), with what the framework does
    with the rejection. *)
Inductive DisconnectReply : Type :=
| DisconnectedFrom (id : string)
| InternalError (error : string)
| ProcessExits (error : string).

Section WithEnv.
Variable E : Bee.Env.
Variable client_close : nat -> Outcome unit.
Variable express : Framework.

(** [disconnectFromServer]; [ACTIVE[id]] is truthy also for the keys a
    plain object inherits, whose values have no [client]. *)
Definition disconnectFromServer (i : string) : Run World unit :=
  w <- get ;;
  match Bee.ACTIVE (service w) !! i with
  | Some active =>
      _ <- modify (fun w => {| service := service w;
                               closed := closed w ++ [Bee.client active];
                               chats := chats w |}) ;;
      _ <- lift (client_close (Bee.client active)) ;;
      modify (fun w => {| service := {| Bee.ACTIVE := delete i (Bee.ACTIVE (service w));
                                        Bee.spawned := Bee.spawned (service w) |};
                          closed := closed w;
                          chats := chats w |})
  | None =>
      if existsb (String.eqb i) Bee.inherited_keys then throw undefined_close else ret tt
  end.

(** [chat?.id || '1'] *)
Definition reply_id (chat : option Chat) : string :=
  match chat with
  | Some c => if String.eqb (chat_id c) EmptyString then "1" else chat_id c
  | None => "1"
  end.

(** POST /connect with body [{ id, chatId }]; [uuid] is the id drawn if
    a chat is created. *)
Definition post_connect (uuid : string) (i : string) (chatId : option string)
  : World -> ConnectReply * World :=
  fun w =>
    match on_service (Bee.connectToServer E i) w with
    | (Done _, w1) =>
        match chatId with
        | Some cid =>
            if String.eqb cid EmptyString then (ConnectedAs (reply_id None), w1)
            else
              let (chat, chats') := getOrCreateChat uuid (Some cid) (Some i) (chats w1) in
              (ConnectedAs (reply_id (chats' !! chat)),
               {| service := service w1; closed := closed w1; chats := chats' |})
        | None => (ConnectedAs (reply_id None), w1)
        end
    | (Thrown e, w1) => (ConnectError e, w1)
    end.

(** POST /disconnect with body [{ id, chatId }]: how the request ends,
    and the state of the backend afterwards; [None] when the process
    has ended. *)
Definition post_disconnect (i : string) (chatId : option string)
  : World -> DisconnectReply * option World :=
  fun w =>
    match disconnectFromServer i w with
    | (Done _, w1) =>
        (DisconnectedFrom i,
         Some match chatId with
              | Some cid =>
                  if String.eqb cid EmptyString then w1
                  else match getChat cid (chats w1) with
                       | Some chat =>
                           {| service := service w1; closed := closed w1;
                              chats := alter (set_mcpId None) chat (chats w1) |}
                       | None => w1
                       end
              | None => w1
              end)
    | (Thrown e, w1) =>
        match express with
        | Express4 => (ProcessExits e, None)
        | Express5 => (InternalError e, Some w1)
        end
    end.

End WithEnv.
End Agent.

(* ================================================================== *)
(** * The catalogue search: mcp-server-utils.ts and the two catalogue
      endpoints of server.ts *)
(* ================================================================== *)

Module Catalogue.
Import JS Eff.

(** MCPServerConfig, with the fields the search reads. *)
Record Listing := {
  l_id : string;
  l_name : string;
  l_description : string;
  l_category : string;
  l_command : string;
  l_args : list string;
  l_capabilities : list string;
  l_tags : list string
}.

(** [c.toLowerCase()] for one code unit below 256: the letters A-Z and
    the capital letters of Latin-1 (U+00C0 to U+00DE, except the
    multiplication sign) move by 32; nothing else changes. *)
Definition lower_unit (c : ascii) : ascii :=
  let n := nat_of_ascii c in
  if ((65 <=? n) && (n <=? 90))%nat
     || ((192 <=? n) && (n <=? 222) && negb (n =? 215))%nat
  then ascii_of_nat (n + 32) else c.

Fixpoint toLowerCase (s : string) : string :=
  match s with
  | EmptyString => EmptyString
  | String c s' => String (lower_unit c) (toLowerCase s')
  end.

(** [s.includes(sub)] *)
Fixpoint includes (s sub : string) : bool :=
  String.prefix sub s ||
  match s with
  | EmptyString => false
  | String _ s' => includes s' sub
  end.

(** [arr.slice(0, n)] for an integer [n] *)
Definition slice_front {A} (arr : list A) (n : Z) : list A :=
  if 0 <=? n then take (Z.to_nat n) arr
  else take (length arr - Z.to_nat (- n)) arr.

(** The text a query is matched against. *)
Definition searchText (s : Listing) : string :=
  toLowerCase (l_name s +:+ " " +:+ l_description s +:+ " " +:+ join " " (l_tags s)
               +:+ " " +:+ join " " (l_capabilities s)).

(** MCPServerSearchParams; a [limit] that is [undefined] or [NaN] is
    [None]. *)
Record SearchParams := {
  p_query : option string;
  p_category : option string;
  p_limit : option Z
}.

Definition no_params : SearchParams :=
  {| p_query := None; p_category := None; p_limit := None |}.

(** [if (x)] for an optional string *)
Definition given (x : option string) : option string :=
  match x with
  | Some s => if String.eqb s EmptyString then None else Some s
  | None => None
  end.

Section WithCatalogue.
Variable CURATED_MCP_SERVERS : list Listing.

Definition fetchMCPServers (params : SearchParams) : list Listing :=
  let servers := CURATED_MCP_SERVERS in
  let servers :=
    match given (p_category params) with
    | Some category =>
        List.filter (fun s => includes (toLowerCase (l_category s)) (toLowerCase category)) servers
    | None => servers
    end in
  let servers :=
    match given (p_query params) with
    | Some query =>
        let queryLower := toLowerCase query in
        List.filter (fun s => includes (searchText s) queryLower) servers
    | None => servers
    end in
  match p_limit params with
  | Some limit => if limit =? 0 then servers else slice_front servers limit
  | None => servers
  end.

Definition fetchMCPServerDetails (serverId : string) : option Listing :=
  List.find (fun s => String.eqb (l_id s) serverId) CURATED_MCP_SERVERS.

(** The score of a server for a query, in [recommendMCPServersByKeywords]. *)
Definition score (query : string) (server : Listing) : Z :=
  let queryLower := toLowerCase query in
  let keywords := split " " queryLower in
  let matches := Z.of_nat (length (List.filter (fun keyword => includes (searchText server) keyword)
                                               keywords)) in
  let bonus (word category : string) : Z :=
    if includes queryLower word && String.eqb (l_category server) category then 2 else 0 in
  matches + bonus "code" "Developer Tools" + bonus "search" "Internet & Research"
  + bonus "data" "Data".

(** [scores.sort((a, b) => b.score - a.score)]: the sort is stable, so
    the result is the one of inserting each item before the first item
    that does not score more. *)
Fixpoint insert_by_score (item : Listing * Z) (sorted : list (Listing * Z)) : list (Listing * Z) :=
  match sorted with
  | [] => [item]
  | other :: rest =>
      if snd other <=? snd item then item :: sorted
      else other :: insert_by_score item rest
  end.

Definition sort_by_score (scores : list (Listing * Z)) : list (Listing * Z) :=
  fold_right insert_by_score [] scores.

Definition recommendMCPServersByKeywords (query : string) : list string :=
  let servers := fetchMCPServers no_params in
  let scores := map (fun server => (server, score query server)) servers in
  map (fun item => l_id (fst item))
      (List.filter (fun item => 0 <? snd item) (take 3 (sort_by_score scores))).

(** [recommendMCPServersWithAI]: [ai query] is what the model service
    and JSON.parse give for the prompt: the array [response.servers],
    [None] when the response has no such array, or an exception. *)
Definition recommendMCPServersWithAI (ai : string -> Outcome (option (list string)))
    (userQuery : string) : list string :=
  match ai userQuery with
  | Done (Some servers) => servers
  | Done None => recommendMCPServersByKeywords userQuery
  | Thrown _ => recommendMCPServersByKeywords userQuery
  end.

(** GET /api/mcp/servers: [{ servers, total }].  [limit] is the
    parameter of the query string: absent (then it is '20'), or what
    [parseInt] reads from it, [None] for NaN. *)
Definition api_mcp_servers (category : option string) (limit : option (option Z))
  : list Listing * nat :=
  let limit := match limit with Some parsed => parsed | None => Some 20 end in
  let servers := fetchMCPServers {| p_query := None; p_category := category; p_limit := limit |} in
  (servers, length servers).

(** POST /api/mcp/recommend: [recommendations] and [source], or status
    400 for a body without query. *)
Definition api_mcp_recommend (ai : string -> Outcome (option (list string)))
    (query : string) (useAI : bool) : option (list Listing * string) :=
  if String.eqb query EmptyString then None
  else
    let ids := if useAI then recommendMCPServersWithAI ai query else [] in
    let ids :=
      match ids with
      | [] => map l_id (fetchMCPServers {| p_query := Some query; p_category := None;
                                          p_limit := Some 3 |})
      | _ => ids
      end in
    Some (omap fetchMCPServerDetails ids, if useAI then "ai" else "search").

End WithCatalogue.
End Catalogue.

(* ================================================================== *)
(** * The agent backend: the recommendations of mcpService.ts *)
(* ================================================================== *)

(** The interface MCPServer of mcpService.ts has the fields of
    [Catalogue.Listing]. *)
Module AgentCatalogue.
Import JS Eff Catalogue.

(** White space in the sense of [\s] and of [trim], for a code unit
    below 256: tab, line feed, vertical tab, form feed, carriage return,
    space and no-break space. *)
Definition is_space (c : ascii) : bool :=
  let n := nat_of_ascii c in
  ((9 <=? n) && (n <=? 13) || (n =? 32) || (n =? 160))%nat.

(** The pieces of a string between white-space characters. *)
Fixpoint pieces (s : string) : list string :=
  match s with
  | EmptyString => [EmptyString]
  | String c s' =>
      if is_space c then EmptyString :: pieces s'
      else match pieces s' with
           | [] => [String c EmptyString]
           | w :: ws => String c w :: ws
           end
  end.

(** [s.split(/\s+/).filter(Boolean)]: the words of [s]. *)
Definition words (s : string) : list string :=
  List.filter (fun w => negb (String.eqb w EmptyString)) (pieces s).

(** [!s.trim()] *)
Fixpoint blank (s : string) : bool :=
  match s with
  | EmptyString => true
  | String c s' => is_space c && blank s'
  end.

Section WithCatalogue.
Variable CATALOGUE : list Listing.

Definition getAllServers : list Listing := CATALOGUE.

(** The test of [fallbackToKeywordSearch] for one server. *)
Definition matches_terms (terms : list string) (srv : Listing) : bool :=
  existsb (fun term =>
             existsb (fun tag => includes tag term) (l_tags srv)
             || existsb (fun cap => includes cap term) (l_capabilities srv)
             || includes (toLowerCase (l_description srv)) term) terms.

Definition fallbackToKeywordSearch (query : string) : list Listing :=
  let terms := words (toLowerCase query) in
  take 3 (List.filter (matches_terms terms) CATALOGUE).

(** [getRecommendedServers]; [ai query] is what the model service and
    JSON.parse give: the array [response.servers], [None] when the
    response has none, or an exception. *)
Definition getRecommendedServers (ai : string -> Outcome (option (list string)))
    (query : string) : list Listing :=
  if blank query then CATALOGUE
  else match ai query with
       | Done (Some servers) =>
           List.filter (fun server => existsb (String.eqb (l_id server)) servers) CATALOGUE
       | Done None => fallbackToKeywordSearch query
       | Thrown _ => fallbackToKeywordSearch query
       end.

End WithCatalogue.
End AgentCatalogue.

(* ================================================================== *)
(** * The vocabulary of the statements *)
(* ================================================================== *)

Module Notions.
Import JS Budget Eff Naming Server Store.

(** The step of the [reduce] in [totalTokens]. *)
Definition add_tokens (acc : option Z) (m : Message) : option Z :=
  match acc, msgTokens m with
  | Some sum, Some t => Some (sum + t)
  | _, _ => None
  end.

(** Contents that are a string or [null]. *)
Definition plain (m : Message) : Prop :=
  match content m with
  | Some JNull | Some (JStr _) => True
  | _ => False
  end.

(** [s.includes(c)] for a character [c] *)
Fixpoint has_char (c : ascii) (s : string) : bool :=
  match s with
  | EmptyString => false
  | String d s' => Ascii.eqb d c || has_char c s'
  end.

(** The key the disconnect loop looks up for an id. *)
Definition key_of_id (sessionId : string) (id : option string) : string :=
  keyOf sessionId (template id).

(** A connection as the registry identifies it: the pair (session,
    provider) and the client. *)
Record Connection := {
  conn_session : string;
  conn_provider : string;
  conn_client : Client
}.

(** The registry that holds the connections [conns]. *)
Definition registry_of (conns : list Connection) : ConnMap :=
  map (fun c => (keyOf (conn_session c) (conn_provider c), conn_client c)) conns.

(** The tools a client lists. *)
Definition tools_of (E : Env) (c : Client) : list ToolDescriptor :=
  match client_listTools E c with
  | Done ts => ts
  | Thrown _ => []
  end.

(** The namespaced tools of the connections of one session. *)
Definition catalog_of (E : Env) (sessionId : string) (conns : list Connection) : list ChatTool :=
  flat_map (fun c => map (chat_tool (conn_provider c)) (tools_of E (conn_client c)))
           (List.filter (fun c => String.eqb (conn_session c) sessionId) conns).

(** [call.function] is present. *)
Definition has_function (call : ToolCall) : bool :=
  match call_function call with Some _ => true | None => false end.

(** Every call that has a [function] has arguments JSON.parse accepts. *)
Definition args_parse (E : Env) (calls : list ToolCall) : Prop :=
  forall call f, call ∈ calls -> call_function call = Some f ->
                 exists args, parse_args E (fn_arguments f) = Done args.

(** The result content of one call, from the call alone: the registry
    entry of its provider and the outcome of its own invocation. *)
Definition result_of (E : Env) (sessionId : string) (reg : ConnMap)
    (f : FunctionCall) (args : json) : option json :=
  let (serverId, fnName) := decode (fn_name f) in
  match Map_get reg (keyOf sessionId serverId) with
  | Some client =>
      match client_callTool E client fnName args with
      | Done content => content
      | Thrown e => Some (error_content e)
      end
  | None => Some (error_content ("MCP server " +:+ serverId +:+ " not connected"))
  end.

(** The tool messages of a turn, call by call. *)
Definition expected_msgs (E : Env) (sessionId : string) (reg : ConnMap)
    (calls : list ToolCall) : list Message :=
  flat_map (fun call =>
              match call_function call with
              | Some f =>
                  match parse_args E (fn_arguments f) with
                  | Done args => [toolMsg call (result_of E sessionId reg f args)]
                  | Thrown _ => []
                  end
              | None => []
              end) calls.

(** The world after more events, with the same registry. *)
Definition add_events (w : World) (new : list Event) : World :=
  {| registry := registry w; events := events w ++ new |}.

(** The tool calls the model requests at a turn. *)
Definition calls_at (E : Env) (turn : nat) : list ToolCall :=
  match completions_create E turn with
  | Done a => match a_tool_calls a with Some calls => calls | None => [] end
  | Thrown _ => []
  end.

(** The model requests tool calls at every turn from [turn] on, [n] times. *)
Definition requests_tools (E : Env) (turn n : nat) : Prop :=
  forall t, (turn <= t < turn + n)%nat ->
    (exists a c cs, completions_create E t = Done a /\ a_tool_calls a = Some (c :: cs)) /\
    args_parse E (calls_at E t).

(** No tool answers without a content. *)
Definition tools_answer (E : Env) : Prop :=
  forall client name args, client_callTool E client name args <> Done None.

(** The store after [i] iterations of the copy loop: the old store,
    the clipped clones of the first [i] messages, and the new array that
    refers to them. *)
Definition copied (h0 : Heap) (msgs : list Message) (i : nat) : Heap :=
  {| objects := objects h0 ++ map clipMessage (take i msgs);
     arrays := arrays h0 ++ [seq (length (objects h0)) i] |}.

(** The store with the array at [a] replaced. *)
Definition set_array (h : Heap) (a : ref) (l : list ref) : Heap :=
  {| objects := objects h; arrays := <[a := l]> (arrays h) |}.

End Notions.

(* ================================================================== *)
(** * Conversations, worlds and environments for the examples *)
(* ================================================================== *)

Module Samples.
Import JS Budget Eff Naming Server Store Notions.

(** A text of [n] characters. *)
Definition text_of_length (n : N) : string := N.iter n (String "a") EmptyString.

Definition user_message (c : json) : Message :=
  {| role := "user"; content := Some c; tool_calls := None; tool_call_id := None |}.

Definition system_message (c : json) : Message :=
  {| role := "system"; content := Some c; tool_calls := None; tool_call_id := None |}.

(** A user message whose content is an array with one text part of
    360000 characters. *)
Definition structured_message : Message :=
  user_message (JArr [JObj [("type", JStr "text"); ("text", JStr (text_of_length 360000))]]).

(** A user message whose content is a string of 24001 characters. *)
Definition oversize_message : Message := user_message (JStr (text_of_length 24001)).

(** An environment for the examples.  The catalogue holds two of the curated servers; a client is
    identified by the length of its server id; every client lists one
    tool; a tool named "fail" throws; [JSON_parse] reads the text of the
    empty object and rejects the text of an unclosed one, as JSON.parse
    does; the model is given per example. *)
Definition sample_env (model : nat -> Outcome Assistant) : Env :=
  {| CURATED_MCP_SERVERS :=
       [ {| cfg_id := "filesystem"; cfg_command := "npx";
            cfg_args := ["-y"; "@modelcontextprotocol/server-filesystem"] |};
         {| cfg_id := "brave-search"; cfg_command := "npx";
            cfg_args := ["-y"; "@modelcontextprotocol/server-brave-search"] |} ];
     client_connect := fun cfg => Done (String.length (cfg_id cfg));
     client_listTools := fun _ =>
       Done [ {| td_name := "read_file"; td_description := Some "Read a file";
                 td_inputSchema := None |} ];
     client_callTool := fun _ name _ =>
       if String.eqb name "fail" then Thrown "tool failed"
       else Done (Some (JArr [JObj [("type", JStr "text"); ("text", JStr "ok")]]));
     client_close := fun _ => Done tt;
     JSON_parse := fun s =>
       if String.eqb s "{}" then Done (JObj [])
       else Thrown "Unexpected end of JSON input";
     completions_create := model |}.

Definition no_model : nat -> Outcome Assistant := fun _ => Thrown "no model".

Definition empty_world : World := {| registry := []; events := [] |}.

Definition connected_world : World :=
  {| registry := [("s1-filesystem", 10%nat)]; events := [Spawned "filesystem"] |}.

Definition bee_env : Bee.Env :=
  {| Bee.CATALOGUE := [ {| Bee.id := "filesystem"; Bee.command := "npx"; Bee.args := [] |} ];
     Bee.BRAVE_API_KEY := false;
     Bee.client_connect := fun _ => Done 1%nat;
     Bee.MCPTool_fromClient := fun _ => Done ["read_file"] |}.

Definition bee_connection : Bee.ActiveConnection :=
  {| Bee.client := 1%nat; Bee.agent_tools := ["read_file"] |}.

Definition bee_world : Bee.World :=
  {| Bee.ACTIVE := {[ "filesystem" := bee_connection ]}; Bee.spawned := ["filesystem"] |}.

Definition two_sessions : list Connection :=
  [ {| conn_session := "s1"; conn_provider := "filesystem"; conn_client := 10%nat |};
    {| conn_session := "s10"; conn_provider := "brave-search"; conn_client := 12%nat |} ].

(** Two sessions with dashed ids, the first id a proper prefix of the
    second. *)
Definition dashed_sessions : list Connection :=
  [ {| conn_session := "user-123"; conn_provider := "brave-search"; conn_client := 12%nat |};
    {| conn_session := "user-1234"; conn_provider := "filesystem"; conn_client := 10%nat |} ].

(** The registry after example-usage.ts (session "user-123") has
    connected the two curated servers. *)
Definition example_usage_world : World :=
  {| registry := [ (keyOf "user-123" "filesystem", 10%nat);
                   (keyOf "user-123" "brave-search", 12%nat) ];
     events := [] |}.

Definition hi : Message :=
  {| role := "user"; content := Some (JStr "hi"); tool_calls := None; tool_call_id := None |}.

Definition chat_request (maxTurns : nat) : ChatRequest :=
  {| req_sessionId := "s1"; req_messages := [hi]; req_useMCP := true; req_maxTurns := maxTurns |}.

Definition final_answer : Assistant :=
  {| a_content := Some (JStr "done"); a_tool_calls := None |}.

(** A tool-call entry without [function]. *)
Definition bare_call : ToolCall := {| call_id := "call_1"; call_function := None |}.

Definition bare_then_final (turn : nat) : Outcome Assistant :=
  match turn with
  | O => Done {| a_content := Some JNull; a_tool_calls := Some [bare_call] |}
  | _ => Done final_answer
  end.

Definition read_call (id : string) : ToolCall :=
  {| call_id := id;
     call_function := Some {| fn_name := "filesystem_read_file";
                              fn_arguments := Some (JStr "{}") |} |}.

Definition request_two_calls : Assistant :=
  {| a_content := Some JNull; a_tool_calls := Some [read_call "call_1"; bare_call] |}.

Definition start_state : LoopState :=
  {| convo := [hi]; allToolCalls := []; allToolResults := []; lastAssistantMsg := None |}.

(** A call to a provider that is not connected, with arguments that are
    not JSON. *)
Definition ghost_call : ToolCall :=
  {| call_id := "call_1";
     call_function := Some {| fn_name := "ghost_lookup"; fn_arguments := Some (JStr "{") |} |}.

Definition call_named (id name : string) : ToolCall :=
  {| call_id := id;
     call_function := Some {| fn_name := name; fn_arguments := Some (JStr "{}") |} |}.

(** Three calls in one turn: to a provider that is not connected, to a
    tool that throws, and to a tool that answers. *)
Definition three_calls : list ToolCall :=
  [ call_named "call_1" "ghost_lookup";
    call_named "call_2" "filesystem_fail";
    call_named "call_3" "filesystem_read_file" ].

Definition request_three_calls : Assistant :=
  {| a_content := Some JNull; a_tool_calls := Some three_calls |}.

(** A reply that asks for a tool and also says something. *)
Definition talkative_request : Assistant :=
  {| a_content := Some (JStr "Let me read that file first.");
     a_tool_calls := Some [read_call "call_1"] |}.

(** The scenario of the design: session "s1" is connected to
    "filesystem"; the model asks for a tool of it and for a tool of an
    unknown provider; both results are appended and the second planning
    turn sees them. *)
Definition scenario_model (turn : nat) : Outcome Assistant :=
  match turn with
  | O => Done {| a_content := Some JNull;
                 a_tool_calls := Some [ call_named "call_1" "filesystem_read_file";
                                        call_named "call_2" "unknown_tool" ] |}
  | _ => Done final_answer
  end.

(** A store with a conversation of two messages, the second one
    oversize, and the array [0] that holds it. *)
Definition sample_store : Heap :=
  {| objects := [system_message (JStr "be brief"); oversize_message];
     arrays := [[0%nat; 1%nat]] |}.

End Samples.

(* ================================================================== *)
(** * Further vocabulary and data: the endpoints, the chat store, the
      agent backend and the catalogue *)
(* ================================================================== *)

Module Observations.
Import JS Budget Eff Naming Server Store Notions Samples.

(** [m.role === 'system'] *)
Definition is_system (m : Message) : bool := negb (non_system m).

(** What the loop of /api/mcp/connect does for one id: the status it
    reports and the world it leaves. *)
Definition connect_one (E : Env) (sessionId id : string) (w : World) : ConnectStatus * World :=
  if Map_has (registry w) (keyOf sessionId id) then (AlreadyConnected, w)
  else match fetchMCPServerDetails E id with
       | None => (Failed ("MCP server " +:+ id +:+ " not found"), w)
       | Some server =>
           if String.eqb (cfg_command server) EmptyString
           then (Failed ("MCP server " +:+ id +:+ " mis" +:+ String nb_hyphen "configured"), w)
           else match client_connect E server with
                | Done c =>
                    (Connected, {| registry := Map_set (registry w) (keyOf sessionId id) c;
                                   events := events w ++ [Spawned id] |})
                | Thrown e =>
                    (Failed e, {| registry := registry w; events := events w ++ [Spawned id] |})
                end
       end.

(** The server is in the catalogue with a command to run. *)
Definition launchable (E : Env) (id : string) : Prop :=
  exists server, fetchMCPServerDetails E id = Some server /\
                 String.eqb (cfg_command server) EmptyString = false.

(** The entry of the chat catalog that corresponds to an entry of the
    answer of /api/mcp/tools. *)
Definition to_chat_tool (t : ListedTool) : ChatTool :=
  {| ct_name := encode (lt_serverId t) (lt_name t);
     ct_description := default EmptyString (lt_description t);
     ct_parameters :=
       if negb (keys_count (lt_inputSchema t) =? 0)%nat then lt_inputSchema t
       else JObj [("type", JStr "object"); ("properties", JObj [])] |}.

(** A key of another session that /api/mcp/tools takes for a key of
    [sessionId]: it starts with the session id, not with the session id
    and the dash. *)
Definition foreign_key (sessionId key : string) : bool :=
  startsWith key sessionId && negb (startsWith key (sessionId +:+ "-")).

Definition is_request (ev : Event) : bool :=
  match ev with Requested _ _ _ => true | _ => false end.

(** Events that start or stop a provider process. *)
Definition is_lifecycle (ev : Event) : bool :=
  match ev with Spawned _ | Closed _ => true | _ => false end.

Definition is_tool_call (ev : Event) : bool :=
  match ev with CalledTool _ _ _ => true | _ => false end.

Definition is_listing (ev : Event) : bool :=
  match ev with ListedTools _ => true | _ => false end.

(** The number of requests to the model among some events. *)
Definition requests_in (new : list Event) : nat := length (List.filter is_request new).

(** [assistant.tool_calls?.length] is falsy: the reply asks for no tool. *)
Definition final_reply (a : Assistant) : bool :=
  match a_tool_calls a with
  | Some (_ :: _) => false
  | _ => true
  end.

(** An environment whose clients refuse to close. *)
Definition stuck_env : Env :=
  {| CURATED_MCP_SERVERS := CURATED_MCP_SERVERS (sample_env no_model);
     client_connect := client_connect (sample_env no_model);
     client_listTools := client_listTools (sample_env no_model);
     client_callTool := client_callTool (sample_env no_model);
     client_close := fun _ => Thrown "transport already closed";
     JSON_parse := JSON_parse (sample_env no_model);
     completions_create := no_model |}.

End Observations.

Module StoreNotions.
Import JS Budget ChatStore.

(** One call from the routes to the chat store, or the assignment
    [chat.mcpId = null] of the /disconnect route. *)
Inductive StoreCall : Type :=
| CallCreate (uuid : string) (mcpId : option string)
| CallAddMessage (chatId : string) (message : ChatMessage)
| CallGetOrCreate (uuid : string) (chatId mcpId : option string)
| CallClearMcp (chatId : string).

Definition after_call (chatStore : list Chat) (call : StoreCall) : list Chat :=
  match call with
  | CallCreate uuid mcpId => createChat uuid mcpId chatStore
  | CallAddMessage chatId message => addMessageToChat chatId message chatStore
  | CallGetOrCreate uuid chatId mcpId => snd (getOrCreateChat uuid chatId mcpId chatStore)
  | CallClearMcp chatId =>
      match getChat chatId chatStore with
      | Some i => alter (set_mcpId None) i chatStore
      | None => chatStore
      end
  end.

(** The store of a process that has served [calls] since it started. *)
Definition after_calls (calls : list StoreCall) : list Chat := fold_left after_call calls [].

Definition a_message : ChatMessage :=
  {| cm_role := "user"; cm_content := "list my files"; cm_meta := None; cm_iterations := None |}.

Definition a_store : list Chat :=
  [ {| chat_id := "7d0c"; chat_title := "Chat 1"; chat_mcpId := None; chat_history := [] |} ].

End StoreNotions.

Module AgentNotions.
Import Eff ChatStore Agent StoreNotions Samples.


(** A backend connected to "filesystem". *)
Definition connected_backend : Agent.World :=
  {| service := bee_world; closed := []; chats := a_store |}.

Definition closes : nat -> Outcome unit := fun _ => Done tt.
Definition refuses : nat -> Outcome unit := fun _ => Thrown "transport already closed".

End AgentNotions.

Module CatalogueNotions.
Import JS Eff Catalogue.

(** The server passes the filters of a search. *)
Definition passes (params : SearchParams) (s : Listing) : bool :=
  match given (p_category params) with
  | Some category => includes (toLowerCase (l_category s)) (toLowerCase category)
  | None => true
  end &&
  match given (p_query params) with
  | Some query => includes (searchText s) (toLowerCase query)
  | None => true
  end.

(** Every item scores at least as much as the items behind it. *)
Definition descending (l : list (Listing * Z)) : Prop :=
  forall front back, l = front ++ back ->
    forall a b, a ∈ front -> b ∈ back -> snd b <= snd a.

(** Three entries of the curated list, with their descriptions
    shortened. *)
Definition three_servers : list Listing :=
  [ {| l_id := "filesystem"; l_name := "Filesystem MCP Server";
       l_description := "Provides comprehensive filesystem operations";
       l_category := "Developer Tools"; l_command := "npx";
       l_args := ["-y"; "@modelcontextprotocol/server-filesystem"];
       l_capabilities := ["file_read"; "file_write"; "file_search"; "directory_operations"];
       l_tags := ["files"; "filesystem"; "coding"; "development"; "file-management"] |};
    {| l_id := "brave-search"; l_name := "Brave Search MCP Server";
       l_description := "Search the web using Brave Search API";
       l_category := "Internet & Research"; l_command := "npx";
       l_args := ["-y"; "@modelcontextprotocol/server-brave-search"];
       l_capabilities := ["web_search"; "real_time_info"; "research"];
       l_tags := ["search"; "internet"; "research"; "web"; "brave"; "real-time"] |};
    {| l_id := "github"; l_name := "GitHub MCP Server";
       l_description := "Full GitHub integration";
       l_category := "Developer Tools"; l_command := "npx";
       l_args := ["-y"; "@modelcontextprotocol/server-github"];
       l_capabilities := ["repository_management"; "issue_tracking"; "pull_requests"; "code_search"];
       l_tags := ["github"; "git"; "coding"; "version-control"; "collaboration"; "development"] |} ].

(** A model that recommends a server the catalogue has and one it has
    not. *)
Definition inventive_model : string -> Outcome (option (list string)) :=
  fun _ => Done (Some ["github"; "kubernetes"]).

End CatalogueNotions.

(* ================================================================== *)
(** * Properties of the budget manager *)
(* ================================================================== *)

Module BudgetFacts.
Import JS Budget Notions Samples.

Lemma findIndex_lt {A} (p : A -> bool) arr idx :
  findIndex p arr = Some idx -> (idx < length arr)%nat.
Proof.
  revert idx; induction arr as [|x rest IH]; intros idx; simpl; [discriminate|].
  destruct (p x).
  - intros [= <-]. lia.
  - destruct (findIndex p rest) as [i|]; simpl; [|discriminate].
    intros [= <-]. specialize (IH i eq_refl). lia.
Qed.

Lemma splice1_length {A} idx (arr : list A) :
  (idx < length arr)%nat -> length (splice1 idx arr) = pred (length arr).
Proof.
  revert idx; induction arr as [|x rest IH]; intros [|i]; simpl; try lia.
  intros H. rewrite IH by lia. destruct rest; simpl in *; lia.
Qed.

Lemma slice_to_length s n :
  String.length (slice_to s n) = Nat.min n (String.length s).
Proof.
  revert s; induction n as [|n IH]; intros [|c s]; simpl; auto.
Qed.

Lemma append_length (s t : string) :
  String.length (s +:+ t) = (String.length s + String.length t)%nat.
Proof. induction s as [|c s IH]; simpl; auto. Qed.

Lemma strTokens_range s : 0 <= strTokens s <= 333334.
Proof.
  unfold strTokens, ceil_div, BYTES_PER_TOKEN.
  set (len := Z.min _ _).
  assert (0 <= len <= 1000000) by (unfold len; lia).
  split.
  - apply Z.div_pos; lia.
  - apply Z.div_le_upper_bound; lia.
Qed.

Lemma strTokens_length s :
  Z.of_nat (String.length s) <= 1000000 ->
  strTokens s = (Z.of_nat (String.length s) + 2) / 3.
Proof.
  intros H. unfold strTokens, ceil_div, BYTES_PER_TOKEN.
  rewrite Z.min_l by lia. f_equal. lia.
Qed.

(** A string costing more than the ceiling is longer than the part kept. *)
Lemma over_ceiling_length s :
  MAX_SINGLE_MSG_TOKENS < strTokens s ->
  MAX_SINGLE_MSG_TOKENS * BYTES_PER_TOKEN < Z.of_nat (String.length s).
Proof.
  unfold strTokens, ceil_div, BYTES_PER_TOKEN, MAX_SINGLE_MSG_TOKENS.
  intros H.
  destruct (Z.le_gt_cases (Z.of_nat (String.length s)) 24000) as [Hle|Hgt]; [|lia].
  exfalso.
  assert ((Z.min (Z.of_nat (String.length s)) 1000000 + 3 - 1) / 3 < 8001)
    by (apply Z.div_lt_upper_bound; lia).
  lia.
Qed.

Lemma msgTokens_nonneg m t : msgTokens m = Some t -> 0 <= t.
Proof.
  unfold msgTokens. destruct (content m) as [[]|]; intros [= <-];
    try lia; apply strTokens_range.
Qed.

Lemma msgTokens_is_Some m : is_Some (msgTokens m) <-> content m <> None.
Proof.
  unfold msgTokens. destruct (content m) as [[]|]; split; intros H;
    try (eexists; reflexivity); try congruence.
  destruct H as [? [=]].
Qed.

Lemma fold_add_tokens_None l : fold_left add_tokens l None = None.
Proof. induction l; simpl; auto. Qed.

Lemma fold_add_tokens_shift l a :
  fold_left add_tokens l (Some a) =
  match fold_left add_tokens l (Some 0) with
  | Some s => Some (a + s)
  | None => None
  end.
Proof.
  revert a; induction l as [|m l IH]; intros a; simpl.
  - f_equal; lia.
  - destruct (msgTokens m) as [t|]; simpl.
    + rewrite (IH (a + t)), (IH (0 + t)).
      destruct (fold_left add_tokens l (Some 0)); [f_equal; lia|reflexivity].
    + rewrite fold_add_tokens_None. reflexivity.
Qed.

Lemma totalTokens_nil : totalTokens [] = Some 0.
Proof. reflexivity. Qed.

Lemma totalTokens_cons m l :
  totalTokens (m :: l) =
  match msgTokens m, totalTokens l with
  | Some t, Some s => Some (t + s)
  | _, _ => None
  end.
Proof.
  unfold totalTokens. fold add_tokens. simpl.
  destruct (msgTokens m) as [t|]; simpl.
  - apply fold_add_tokens_shift.
  - rewrite fold_add_tokens_None. reflexivity.
Qed.

Lemma totalTokens_is_Some l :
  is_Some (totalTokens l) <-> Forall (fun m => content m <> None) l.
Proof.
  induction l as [|m l IH].
  - split; [constructor|eexists; reflexivity].
  - rewrite totalTokens_cons, Forall_cons, <- IH, <- msgTokens_is_Some.
    destruct (msgTokens m), (totalTokens l); split;
      try (intros [? [=]]); try (intros [[? [=]] [? [=]]]); eauto.
Qed.

Lemma totalTokens_nonneg l t : totalTokens l = Some t -> 0 <= t.
Proof.
  revert t; induction l as [|m l IH]; intros t.
  - intros [= <-]. lia.
  - rewrite totalTokens_cons.
    destruct (msgTokens m) as [a|] eqn:Hm; [|discriminate].
    destruct (totalTokens l) as [s|]; [|discriminate].
    intros [= <-]. apply msgTokens_nonneg in Hm. specialize (IH s eq_refl). lia.
Qed.

Lemma findIndex_None {A} (p : A -> bool) arr :
  findIndex p arr = None <-> Forall (fun x => p x = false) arr.
Proof.
  induction arr as [|x rest IH]; simpl.
  - split; [constructor|reflexivity].
  - rewrite Forall_cons. destruct (p x).
    + split; [discriminate|intros [[=] _]].
    + destruct (findIndex p rest) as [i|]; simpl.
      * split; [discriminate|]. intros [_ H]. apply IH in H. discriminate.
      * split; [|reflexivity]. intros _. split; [reflexivity|]. apply IH. reflexivity.
Qed.

Lemma findIndex_Some {A} (p : A -> bool) arr idx :
  findIndex p arr = Some idx ->
  exists x, arr !! idx = Some x /\ p x = true /\
            Forall (fun y => p y = false) (take idx arr).
Proof.
  revert idx; induction arr as [|y rest IH]; intros idx; simpl; [discriminate|].
  destruct (p y) eqn:Hy.
  - intros [= <-]. exists y. repeat split; auto.
  - destruct (findIndex p rest) as [i|]; simpl; [|discriminate].
    intros [= <-]. destruct (IH i eq_refl) as (x & Hx & Hp & Hall).
    exists x. repeat split; auto. simpl. constructor; auto.
Qed.

Lemma non_system_false m : non_system m = false <-> role m = "system".
Proof.
  unfold non_system. rewrite negb_false_iff. apply String.eqb_eq.
Qed.

Lemma splice1_delete {A} idx (arr : list A) : splice1 idx arr = delete idx arr.
Proof.
  revert idx; induction arr as [|x rest IH]; intros [|i]; simpl; auto.
  f_equal. apply IH.
Qed.

Lemma splice1_sublist {A} idx (arr : list A) : splice1 idx arr `sublist_of` arr.
Proof. rewrite splice1_delete. apply sublist_delete. Qed.

Lemma Forall_splice1 {A} (P : A -> Prop) idx arr :
  Forall P arr -> Forall P (splice1 idx arr).
Proof.
  intros H. apply Forall_forall. intros x Hx.
  eapply Forall_forall in H; [exact H|].
  eapply elem_of_sublist; [exact Hx|apply splice1_sublist].
Qed.

Lemma prune_loop_spec pruned :
  Forall (fun m => content m <> None) pruned ->
  exists r t,
    prune_loop pruned = Some r /\ (r `sublist_of` pruned) /\
    totalTokens r = Some t /\
    (t <= MAX_CONTEXT_TOKENS \/ (length r <= 1)%nat \/
     Forall (fun m => role m = "system") r).
Proof.
  funelim (prune_loop pruned); intros Hdef.
  all: try (apply totalTokens_is_Some in Hdef; destruct Hdef as [? Hd]; congruence).
  - exists pruned, total. repeat split; auto.
    apply andb_false_iff in Heq. destruct Heq as [Hc|Hc].
    + left. lia.
    + right; left. apply Nat.ltb_ge in Hc. exact Hc.
  - match goal with IH : Forall _ (splice1 _ _) -> _ |- _ =>
      destruct (IH (Forall_splice1 _ _ _ Hdef)) as (r & t & Hr & Hsub & Ht & Hcase) end.
    exists r, t. repeat split; auto.
    etransitivity; [exact Hsub|apply splice1_sublist].
  - exists pruned, total. repeat split; auto.
    right; right.
    match goal with e : findIndex _ _ = None |- _ =>
      pose proof (proj1 (findIndex_None _ _) e) as Hnone end.
    eapply Forall_impl; [exact Hnone|]. intros m Hm. apply non_system_false. exact Hm.
Qed.

(** The loop does nothing to a conversation that is within budget. *)
Lemma prune_loop_within pruned total :
  totalTokens pruned = Some total -> total <= MAX_CONTEXT_TOKENS ->
  prune_loop pruned = Some pruned.
Proof.
  intros Ht Hle. funelim (prune_loop pruned); try congruence.
  all: exfalso; rewrite Ht in *;
    match goal with H : Some _ = Some _ |- _ => injection H as <- end;
    match goal with H : _ && _ = true |- _ => apply andb_true_iff in H; destruct H as [H _] end;
    lia.
Qed.

(** The loop never removes the last message. *)
Lemma prune_loop_short pruned :
  (length pruned <= 1)%nat -> is_Some (totalTokens pruned) ->
  prune_loop pruned = Some pruned.
Proof.
  intros Hlen [t Ht]. funelim (prune_loop pruned); try congruence.
  all: exfalso;
    match goal with H : _ && _ = true |- _ => apply andb_true_iff in H; destruct H as [_ H] end;
    apply Nat.ltb_lt in Heq; lia.
Qed.

Lemma marker_length : String.length truncation_marker = 12%nat.
Proof. reflexivity. Qed.

Lemma clipMessage_untouched m :
  (forall s, content m = Some (JStr s) -> strTokens s <= MAX_SINGLE_MSG_TOKENS) ->
  clipMessage m = m.
Proof.
  intros H. unfold clipMessage. destruct (content m) as [[]|] eqn:Hc; auto.
  specialize (H _ eq_refl). destruct (Z.ltb_spec MAX_SINGLE_MSG_TOKENS (strTokens s)); [lia|reflexivity].
Qed.

Lemma clipMessage_clipped m s :
  content m = Some (JStr s) -> MAX_SINGLE_MSG_TOKENS < strTokens s ->
  clipMessage m =
    set_content m (Some (JStr (slice_to s (Z.to_nat (MAX_SINGLE_MSG_TOKENS * BYTES_PER_TOKEN))
                               +:+ truncation_marker))).
Proof.
  intros Hc Hs. unfold clipMessage. rewrite Hc.
  destruct (Z.ltb_spec MAX_SINGLE_MSG_TOKENS (strTokens s)); [reflexivity|lia].
Qed.

(** The kept prefix of an oversize string costs exactly the ceiling, and
    the prefix with the marker costs four tokens more. *)
Lemma clipped_cost s :
  MAX_SINGLE_MSG_TOKENS < strTokens s ->
  strTokens (slice_to s (Z.to_nat (MAX_SINGLE_MSG_TOKENS * BYTES_PER_TOKEN))) = MAX_SINGLE_MSG_TOKENS /\
  strTokens (slice_to s (Z.to_nat (MAX_SINGLE_MSG_TOKENS * BYTES_PER_TOKEN)) +:+ truncation_marker)
    = MAX_SINGLE_MSG_TOKENS + 4.
Proof.
  intros Hs. apply over_ceiling_length in Hs.
  unfold MAX_SINGLE_MSG_TOKENS, BYTES_PER_TOKEN in *.
  change (8000 * 3) with 24000 in *.
  assert (Hlen : Z.of_nat (String.length (slice_to s (Z.to_nat 24000))) = 24000)
    by (rewrite slice_to_length; lia).
  split.
  - rewrite strTokens_length by lia. rewrite Hlen. reflexivity.
  - rewrite strTokens_length; rewrite append_length, marker_length, Nat2Z.inj_add, Hlen.
    + reflexivity.
    + lia.
Qed.

Lemma clipMessage_role m : role (clipMessage m) = role m.
Proof.
  unfold clipMessage. destruct (content m) as [[]|]; auto.
  destruct (_ <? _); reflexivity.
Qed.

Lemma clipMessage_defined m : content m <> None -> content (clipMessage m) <> None.
Proof.
  unfold clipMessage. destruct (content m) as [[]|] eqn:Hc; try congruence.
  destruct (_ <? _); simpl; congruence.
Qed.

Lemma clipMessage_plain_cost m :
  plain m -> exists t, msgTokens (clipMessage m) = Some t /\ t <= MAX_SINGLE_MSG_TOKENS + 4.
Proof.
  unfold plain. destruct (content m) as [[]|] eqn:Hc; try contradiction; intros _.
  - rewrite clipMessage_untouched by (intros; congruence).
    unfold msgTokens. rewrite Hc. exists 4. split; [reflexivity|unfold MAX_SINGLE_MSG_TOKENS; lia].
  - destruct (Z.ltb_spec MAX_SINGLE_MSG_TOKENS (strTokens s)) as [Hlt|Hge].
    + rewrite (clipMessage_clipped m s Hc Hlt). unfold msgTokens; simpl.
      destruct (clipped_cost s Hlt) as [_ ->]. eexists; split; [reflexivity|lia].
    + rewrite clipMessage_untouched
        by (intros s' Hs'; rewrite Hc in Hs'; injection Hs' as <-; exact Hge).
      unfold msgTokens. rewrite Hc. eexists; split; [reflexivity|lia].
Qed.

Lemma pruneConversation_returns messages :
  Forall (fun m => content m <> None) messages ->
  exists pruned total,
    pruneConversation messages = Some pruned /\
    (pruned `sublist_of` map clipMessage messages) /\
    totalTokens pruned = Some total /\
    (total <= MAX_CONTEXT_TOKENS \/ (length pruned <= 1)%nat \/
     Forall (fun m => role m = "system") pruned).
Proof.
  intros Hdef. apply prune_loop_spec.
  apply Forall_fmap. eapply Forall_impl; [exact Hdef|].
  intros m Hm. apply clipMessage_defined. exact Hm.
Qed.

(** A message without content makes the call end with the TypeError. *)
Lemma pruneConversation_throws messages :
  Exists (fun m => content m = None) messages -> pruneConversation messages = None.
Proof.
  intros Hex. unfold pruneConversation.
  assert (Hnone : totalTokens (map clipMessage messages) = None).
  { destruct (totalTokens (map clipMessage messages)) as [t|] eqn:Ht; [|reflexivity].
    exfalso. assert (Hsome : is_Some (totalTokens (map clipMessage messages))) by eauto.
    apply totalTokens_is_Some in Hsome. apply Exists_exists in Hex.
    destruct Hex as (m & Hin & Hm).
    eapply Forall_forall in Hsome; [|apply list_elem_of_fmap_2, Hin].
    apply Hsome. unfold clipMessage. rewrite Hm. exact Hm. }
  funelim (prune_loop (map clipMessage messages)); congruence.
Qed.

Lemma filter_splice1 {A} (p : A -> bool) arr idx :
  findIndex p arr = Some idx ->
  List.filter (fun x => negb (p x)) (splice1 idx arr) = List.filter (fun x => negb (p x)) arr.
Proof.
  revert idx; induction arr as [|x rest IH]; intros idx; simpl; [discriminate|].
  destruct (p x) eqn:Hx.
  - intros [= <-]. reflexivity.
  - destruct (findIndex p rest) as [i|]; simpl; [|discriminate].
    intros [= <-]. simpl. rewrite Hx. simpl. f_equal. apply IH. reflexivity.
Qed.

(** The loop never removes a system message and keeps the order. *)
Lemma prune_loop_keeps_system pruned r :
  prune_loop pruned = Some r ->
  (r `sublist_of` pruned) /\
  List.filter (fun m => negb (non_system m)) r = List.filter (fun m => negb (non_system m)) pruned.
Proof.
  funelim (prune_loop pruned); try discriminate.
  - intros [= <-]. split; reflexivity.
  - intros Hr.
    match goal with IH : forall r, prune_loop _ = Some r -> _ |- _ =>
      destruct (IH _ Hr) as [Hsub Hfilter] end.
    split.
    + etransitivity; [exact Hsub|apply splice1_sublist].
    + rewrite Hfilter. apply filter_splice1. exact Hidx.
  - intros [= <-]. split; reflexivity.
Qed.

(** C3, as stated, fails: a conversation of one user message with a large
    structured content comes back unchanged, over budget and with its
    non-system message still there. *)
Lemma pruneConversation_budget_counterexample :
  pruneConversation [structured_message] = Some [structured_message] /\
  totalTokens [structured_message] = Some 120009 /\
  ~ (120009 <= MAX_CONTEXT_TOKENS) /\
  ~ Forall (fun m => role m = "system") [structured_message].
Proof.
  assert (Ht : totalTokens [structured_message] = Some 120009) by (vm_compute; reflexivity).
  split.
  { unfold pruneConversation. apply prune_loop_short; [simpl; lia|].
    change (map clipMessage [structured_message]) with [structured_message].
    rewrite Ht. eexists; reflexivity. }
  split; [exact Ht|].
  split; [unfold MAX_CONTEXT_TOKENS; lia|].
  intros H. apply Forall_cons in H. destruct H as [H _]. discriminate H.
Qed.

(** C3 (amended): for every conversation whose messages all have a
    content (string, [null] or structured), [pruneConversation] returns
    a conversation whose total estimated cost is at most
    MAX_CONTEXT_TOKENS, or from which every non-system message has been
    removed, or which consists of a single message (the loop never
    removes the last message); when every content is a string or
    [null], one of the first two holds. *)
Theorem pruneConversation_budget (messages : list Message) :
  Forall (fun m => content m <> None) messages ->
  exists pruned total,
    pruneConversation messages = Some pruned /\
    totalTokens pruned = Some total /\
    (total <= MAX_CONTEXT_TOKENS \/
     Forall (fun m => role m = "system") pruned \/
     length pruned = 1%nat) /\
    (Forall plain messages ->
     total <= MAX_CONTEXT_TOKENS \/ Forall (fun m => role m = "system") pruned).
Proof.
  intros Hdef.
  destruct (pruneConversation_returns messages Hdef) as (pruned & total & Hp & Hsub & Ht & Hcase).
  exists pruned, total. split; [exact Hp|]. split; [exact Ht|].
  assert (Hone : (length pruned <= 1)%nat -> MAX_CONTEXT_TOKENS < total -> length pruned = 1%nat).
  { intros Hlen Hover. destruct pruned as [|m [|m' rest]]; simpl in *; try lia.
    rewrite totalTokens_nil in Ht. injection Ht as <-. unfold MAX_CONTEXT_TOKENS in Hover. lia. }
  split.
  - destruct (Z.le_gt_cases total MAX_CONTEXT_TOKENS) as [Hle|Hover]; [left; exact Hle|].
    destruct Hcase as [H|[H|H]];
      [lia | right; right; apply Hone; [exact H|lia] | right; left; exact H].
  - intros Hplain.
    destruct (Z.le_gt_cases total MAX_CONTEXT_TOKENS) as [Hle|Hover]; [left; exact Hle|].
    destruct Hcase as [H|[H|H]]; [lia | | right; exact H].
    exfalso.
    assert (Hlen : length pruned = 1%nat) by (apply Hone; [exact H|lia]).
    destruct pruned as [|m [|m' rest]]; simpl in Hlen; try lia.
    assert (Hin : m ∈ map clipMessage messages)
      by (eapply elem_of_sublist; [|exact Hsub]; apply list_elem_of_here).
    apply list_elem_of_fmap in Hin. destruct Hin as (m0 & -> & Hin0).
    eapply Forall_forall in Hplain; [|exact Hin0].
    destruct (clipMessage_plain_cost m0 Hplain) as (t & Hcost & Hle).
    rewrite totalTokens_cons, Hcost, totalTokens_nil in Ht. injection Ht as <-.
    unfold MAX_CONTEXT_TOKENS, MAX_SINGLE_MSG_TOKENS in *. lia.
Qed.

Lemma pruneConversation_budget_witness :
  Forall (fun m => content m <> None) [system_message (JStr "be brief"); user_message (JStr "hi")] /\
  exists pruned total,
    pruneConversation [system_message (JStr "be brief"); user_message (JStr "hi")] = Some pruned /\
    totalTokens pruned = Some total /\
    (total <= MAX_CONTEXT_TOKENS \/
     Forall (fun m => role m = "system") pruned \/
     length pruned = 1%nat) /\
    (Forall plain [system_message (JStr "be brief"); user_message (JStr "hi")] ->
     total <= MAX_CONTEXT_TOKENS \/ Forall (fun m => role m = "system") pruned).
Proof.
  assert (H : Forall (fun m => content m <> None)
                [system_message (JStr "be brief"); user_message (JStr "hi")])
    by (repeat constructor; discriminate).
  split; [exact H|].
  apply (pruneConversation_budget _ H).
Defined.

(** C4, as stated, fails: a string message of 24001 characters costs
    8001 tokens, more than the ceiling; after the budget fit its cost is
    8004, still more than the ceiling. *)
Lemma pruneConversation_clips_counterexample :
  msgTokens oversize_message = Some 8001 /\
  pruneConversation [oversize_message] = Some [clipMessage oversize_message] /\
  msgTokens (clipMessage oversize_message) = Some 8004 /\
  ~ (8004 <= MAX_SINGLE_MSG_TOKENS).
Proof.
  assert (Hc : msgTokens (clipMessage oversize_message) = Some 8004) by (vm_compute; reflexivity).
  split; [vm_compute; reflexivity|].
  split.
  { unfold pruneConversation. apply prune_loop_short; [simpl; lia|].
    change (map clipMessage [oversize_message]) with [clipMessage oversize_message].
    rewrite totalTokens_cons, Hc, totalTokens_nil. eexists; reflexivity. }
  split; [exact Hc|].
  unfold MAX_SINGLE_MSG_TOKENS. lia.
Qed.

(** C4 (amended): whatever the total cost of the conversation, every
    message [pruneConversation] returns is the clipped copy of an input
    message, and nothing is dropped when the clipped copies are within
    budget.  Clipping a message that costs more than
    MAX_SINGLE_MSG_TOKENS and whose content is a string keeps the first
    MAX_SINGLE_MSG_TOKENS * BYTES_PER_TOKEN characters, which alone cost
    exactly the ceiling, and appends the truncation marker: the result
    costs the ceiling plus four tokens.  A message whose content is not a
    string is copied unchanged, whatever it costs. *)
Theorem pruneConversation_clips (messages : list Message) :
  Forall (fun m => content m <> None) messages ->
  (exists pruned,
     pruneConversation messages = Some pruned /\
     (pruned `sublist_of` map clipMessage messages) /\
     (forall total, totalTokens (map clipMessage messages) = Some total ->
                    total <= MAX_CONTEXT_TOKENS -> pruned = map clipMessage messages)) /\
  (forall m t, m ∈ messages -> msgTokens m = Some t -> MAX_SINGLE_MSG_TOKENS < t ->
     match content m with
     | Some (JStr s) =>
         let kept := slice_to s (Z.to_nat (MAX_SINGLE_MSG_TOKENS * BYTES_PER_TOKEN)) in
         clipMessage m = set_content m (Some (JStr (kept +:+ truncation_marker))) /\
         strTokens kept = MAX_SINGLE_MSG_TOKENS /\
         msgTokens (clipMessage m) = Some (MAX_SINGLE_MSG_TOKENS + 4)
     | _ => clipMessage m = m
     end).
Proof.
  intros Hdef. split.
  - destruct (pruneConversation_returns messages Hdef) as (pruned & total & Hp & Hsub & _).
    exists pruned. split; [exact Hp|]. split; [exact Hsub|].
    intros total' Ht Hle. unfold pruneConversation in Hp.
    rewrite (prune_loop_within _ _ Ht Hle) in Hp. congruence.
  - intros m t _ Hcost Hover.
    destruct (content m) as [[| | |s| |]|] eqn:Hc;
      try (apply clipMessage_untouched; intros s' Hs'; congruence).
    assert (Hs : MAX_SINGLE_MSG_TOKENS < strTokens s).
    { unfold msgTokens in Hcost. rewrite Hc in Hcost. injection Hcost as <-. exact Hover. }
    cbv zeta. split; [apply clipMessage_clipped; assumption|].
    destruct (clipped_cost s Hs) as [Hkept Hall].
    split; [exact Hkept|].
    rewrite (clipMessage_clipped m s Hc Hs). unfold msgTokens; simpl. rewrite Hall. reflexivity.
Qed.

Lemma pruneConversation_clips_witness :
  Forall (fun m => content m <> None) [oversize_message] /\
  (exists pruned,
     pruneConversation [oversize_message] = Some pruned /\
     (pruned `sublist_of` map clipMessage [oversize_message]) /\
     (forall total, totalTokens (map clipMessage [oversize_message]) = Some total ->
                    total <= MAX_CONTEXT_TOKENS -> pruned = map clipMessage [oversize_message])) /\
  (forall m t, m ∈ [oversize_message] -> msgTokens m = Some t -> MAX_SINGLE_MSG_TOKENS < t ->
     match content m with
     | Some (JStr s) =>
         let kept := slice_to s (Z.to_nat (MAX_SINGLE_MSG_TOKENS * BYTES_PER_TOKEN)) in
         clipMessage m = set_content m (Some (JStr (kept +:+ truncation_marker))) /\
         strTokens kept = MAX_SINGLE_MSG_TOKENS /\
         msgTokens (clipMessage m) = Some (MAX_SINGLE_MSG_TOKENS + 4)
     | _ => clipMessage m = m
     end).
Proof.
  assert (H : Forall (fun m => content m <> None) [oversize_message])
    by (repeat constructor; discriminate).
  split; [exact H|].
  apply (pruneConversation_clips _ H).
Defined.

End BudgetFacts.

(* ================================================================== *)
(** * Properties of tool namespacing *)
(* ================================================================== *)

Module NamingFacts.
Import JS Naming Notions.

Lemma split_nonempty sep s : split sep s <> [].
Proof.
  destruct s as [|c s]; simpl; [discriminate|].
  destruct (Ascii.eqb c sep); [discriminate|].
  destruct (split sep s); discriminate.
Qed.

(** [s.split(c).join(c)] is [s]. *)
Lemma join_split sep s : join (String sep EmptyString) (split sep s) = s.
Proof.
  induction s as [|c s IH]; simpl; [reflexivity|].
  destruct (Ascii.eqb_spec c sep) as [->|Hne].
  - destruct (split sep s) as [|w ws] eqn:Hs; [now apply split_nonempty in Hs|].
    simpl in *. now rewrite IH.
  - destruct (split sep s) as [|w ws] eqn:Hs; [now apply split_nonempty in Hs|].
    destruct ws as [|w' ws]; simpl in *; now rewrite <- IH.
Qed.

(** A piece without the separator is the first piece of the split. *)
Lemma split_first sep p t :
  has_char sep p = false ->
  split sep (p +:+ String sep t) = p :: split sep t.
Proof.
  induction p as [|c p IH]; simpl; intros H.
  - now rewrite Ascii.eqb_refl.
  - apply orb_false_iff in H. destruct H as [Hc Hp].
    rewrite Hc, (IH Hp). reflexivity.
Qed.

(** The first piece of a split never holds the separator. *)
Lemma split_head_clean sep s w ws :
  split sep s = w :: ws -> has_char sep w = false.
Proof.
  revert w ws; induction s as [|c s IH]; simpl; intros w ws.
  - intros [= <- _]. reflexivity.
  - destruct (Ascii.eqb c sep) eqn:Hc.
    + intros [= <- _]. reflexivity.
    + destruct (split sep s) as [|w' ws'] eqn:Hs; intros [= <- _]; simpl; rewrite Hc; simpl.
      * reflexivity.
      * eapply IH. reflexivity.
Qed.

(** C1, as stated, fails: the provider id "my_server" holds the
    separator, and the name of its tool "read" decodes to another
    pair. *)
Lemma encode_decode_counterexample :
  encode "my_server" "read" = "my_server_read" /\
  decode (encode "my_server" "read") = ("my", "server_read") /\
  decode (encode "my_server" "read") <> ("my_server", "read").
Proof. repeat split. discriminate. Qed.

(** C1 (amended): for every provider id that does not hold the
    separator '_' and every tool name, with or without separators,
    decoding the encoded name gives back the pair. *)
Theorem encode_decode_roundtrip (serverId toolName : string) :
  has_char "_" serverId = false ->
  decode (encode serverId toolName) = (serverId, toolName).
Proof.
  intros H. unfold decode, encode.
  change ("_" +:+ toolName) with (String "_" toolName).
  rewrite (split_first _ _ _ H).
  f_equal. apply (join_split "_" toolName).
Qed.

Lemma encode_decode_roundtrip_witness :
  has_char "_" "brave-search" = false /\
  decode (encode "brave-search" "brave_web_search") = ("brave-search", "brave_web_search").
Proof.
  split; [reflexivity|].
  apply (encode_decode_roundtrip "brave-search" "brave_web_search"). reflexivity.
Defined.

(** The decoded provider id never holds the separator: no name decodes
    to a provider id that does. *)
Lemma decode_provider_clean fullName :
  has_char "_" (fst (decode fullName)) = false.
Proof.
  unfold decode. destruct (split "_" fullName) as [|w ws] eqn:Hs.
  - reflexivity.
  - simpl. eapply split_head_clean. exact Hs.
Qed.

End NamingFacts.

(* ================================================================== *)
(** * Properties of the registry and of the endpoints *)
(* ================================================================== *)

Module ServerFacts.
Import JS Budget Eff Naming Server Notions Samples.
Import BudgetFacts NamingFacts.

(** ** The [Map] *)

Lemma Map_get_set_eq m key c : Map_get (Map_set m key c) key = Some c.
Proof.
  induction m as [|[k c0] m IH]; simpl.
  - now rewrite String.eqb_refl.
  - destruct (String.eqb k key) eqn:Hk; simpl; rewrite Hk; auto.
Qed.

Lemma Map_get_set_ne m key key' c :
  key <> key' -> Map_get (Map_set m key c) key' = Map_get m key'.
Proof.
  intros Hne. induction m as [|[k c0] m IH]; simpl.
  - destruct (String.eqb_spec key key'); [contradiction|reflexivity].
  - destruct (String.eqb_spec k key) as [->|Hk]; simpl.
    + destruct (String.eqb_spec key key'); [contradiction|reflexivity].
    + now rewrite IH.
Qed.

Lemma Map_get_delete_eq m key : Map_get (Map_delete m key) key = None.
Proof.
  induction m as [|[k c0] m IH]; simpl; [reflexivity|].
  destruct (String.eqb_spec k key) as [->|Hk]; simpl; [exact IH|].
  destruct (String.eqb_spec k key); [contradiction|exact IH].
Qed.

Lemma Map_get_delete_ne m key key' :
  key <> key' -> Map_get (Map_delete m key) key' = Map_get m key'.
Proof.
  intros Hne. induction m as [|[k c0] m IH]; simpl; [reflexivity|].
  destruct (String.eqb_spec k key) as [->|Hk]; simpl.
  - rewrite IH. destruct (String.eqb_spec key key'); [contradiction|reflexivity].
  - now rewrite IH.
Qed.

Lemma Map_has_true m key : Map_has m key = true <-> exists c, Map_get m key = Some c.
Proof.
  unfold Map_has. destruct (Map_get m key) as [c|]; split; eauto; try discriminate.
  intros [? [=]].
Qed.

(** ** Connecting *)

Lemma connect_loop_connected E sessionId ids w :
  Forall (fun id => Map_has (registry w) (keyOf sessionId id) = true) ids ->
  connect_loop E sessionId ids w = (Done (map (fun id => (id, AlreadyConnected)) ids), w).
Proof.
  induction 1 as [|id ids Hid _ IH]; simpl; [reflexivity|].
  unfold bind at 1. simpl. rewrite Hid.
  unfold bind, ret in *. simpl. rewrite IH. reflexivity.
Qed.

(** C8: when a connection is live for the key of (session, provider),
    connecting again answers "already connected" and leaves the world as
    it was: the same registry, and no process spawned, whether the
    request names one such provider or several.  The same holds for
    [connectToServer] of the agent backend, which returns at once. *)
Theorem connect_idempotent (E : Env) (B : Bee.Env) (sessionId : string)
    (ids : list string) (w : World) (bw : Bee.World) (i : string) (conn : Bee.ActiveConnection) :
  Forall (fun id => exists c, Map_get (registry w) (keyOf sessionId id) = Some c) ids ->
  Bee.ACTIVE bw !! i = Some conn ->
  connect_loop E sessionId ids w = (Done (map (fun id => (id, AlreadyConnected)) ids), w) /\
  snd (api_mcp_connect E sessionId (Some ids) w) = w /\
  (sessionId <> EmptyString ->
   api_mcp_connect E sessionId (Some ids) w
     = (Ok (map (fun id => (id, AlreadyConnected)) ids), w)) /\
  Bee.connectToServer B i bw = (Done tt, bw).
Proof.
  intros Hids Hactive.
  assert (Hloop : connect_loop E sessionId ids w
                  = (Done (map (fun id => (id, AlreadyConnected)) ids), w)).
  { apply connect_loop_connected.
    eapply Forall_impl; [exact Hids|]. intros id Hid. apply Map_has_true. exact Hid. }
  split; [exact Hloop|].
  split; [|split].
  - unfold api_mcp_connect, handle.
    destruct (String.eqb sessionId EmptyString); [reflexivity|].
    rewrite Hloop. reflexivity.
  - intros Hs. unfold api_mcp_connect, handle.
    destruct (String.eqb_spec sessionId EmptyString) as [|_]; [contradiction|].
    rewrite Hloop. reflexivity.
  - unfold Bee.connectToServer, bind, get, Bee.ACTIVE_truthy. simpl.
    rewrite Hactive. reflexivity.
Qed.

Lemma connect_idempotent_witness :
  Forall (fun id => exists c, Map_get (registry connected_world) (keyOf "s1" id) = Some c)
         ["filesystem"] /\
  Bee.ACTIVE bee_world !! "filesystem" = Some bee_connection /\
  connect_loop (sample_env no_model) "s1" ["filesystem"] connected_world
    = (Done (map (fun id => (id, AlreadyConnected)) ["filesystem"]), connected_world) /\
  snd (api_mcp_connect (sample_env no_model) "s1" (Some ["filesystem"]) connected_world)
    = connected_world /\
  ("s1" <> EmptyString ->
   api_mcp_connect (sample_env no_model) "s1" (Some ["filesystem"]) connected_world
     = (Ok (map (fun id => (id, AlreadyConnected)) ["filesystem"]), connected_world)) /\
  Bee.connectToServer bee_env "filesystem" bee_world = (Done tt, bee_world).
Proof.
  assert (H1 : Forall (fun id => exists c, Map_get (registry connected_world) (keyOf "s1" id) = Some c)
                 ["filesystem"])
    by (repeat constructor; exists 10%nat; reflexivity).
  assert (H2 : Bee.ACTIVE bee_world !! "filesystem" = Some bee_connection)
    by (vm_compute; reflexivity).
  split; [exact H1|]. split; [exact H2|].
  apply (connect_idempotent (sample_env no_model) bee_env "s1" ["filesystem"]
           connected_world bee_world "filesystem" bee_connection H1 H2).
Defined.

(** A first connection does spawn: the guard is what keeps the second
    one from doing so. *)
Example connect_then_connect :
  api_mcp_connect (sample_env no_model) "s1" (Some ["filesystem"; "filesystem"]) empty_world
  = (Ok [("filesystem", Connected); ("filesystem", AlreadyConnected)], connected_world).
Proof. reflexivity. Qed.

(** Connecting never overwrites an entry of the registry, and spawns
    nothing for a provider whose key is already there, whatever else the
    request names. *)
Lemma connect_loop_frame E sessionId ids w :
  exists results w' new,
    connect_loop E sessionId ids w = (Done results, w') /\
    map fst results = ids /\
    events w' = events w ++ new /\
    (forall key c, Map_get (registry w) key = Some c -> Map_get (registry w') key = Some c) /\
    (forall id, Map_has (registry w) (keyOf sessionId id) = true -> Spawned id ∉ new).
Proof.
  revert w; induction ids as [|id ids IH]; intros w.
  - exists [], w, []. simpl. rewrite app_nil_r. repeat split; auto.
    intros id _ H. inversion H.
  - assert (Hstep : exists r w1 new1,
      (if Map_has (registry w) (keyOf sessionId id) then ret (id, AlreadyConnected)
       else try_catch
              (bind (connectToMCPServer E id) (fun client =>
               bind (registry_set (keyOf sessionId id) client) (fun _ => ret (id, Connected))))
              (fun e => ret (id, Failed e))) w = (Done (id, r), w1) /\
      events w1 = events w ++ new1 /\
      (forall key c, Map_get (registry w) key = Some c -> Map_get (registry w1) key = Some c) /\
      (forall id', Map_has (registry w) (keyOf sessionId id') = true -> Spawned id' ∉ new1)).
    { destruct (Map_has (registry w) (keyOf sessionId id)) eqn:Hhas.
      - exists AlreadyConnected, w, []. rewrite app_nil_r. repeat split; auto.
        intros id' _ H. inversion H.
      - assert (Hfresh : forall id', Map_has (registry w) (keyOf sessionId id') = true ->
                                     Spawned id' ∉ [Spawned id]).
        { intros id' Hid' Hin. apply list_elem_of_singleton in Hin.
          injection Hin as ->. congruence. }
        assert (Hkeep : forall c0 key c, Map_get (registry w) key = Some c ->
                  Map_get (Map_set (registry w) (keyOf sessionId id) c0) key = Some c).
        { intros c0 key c Hget. rewrite Map_get_set_ne; [exact Hget|].
          intros <-. unfold Map_has in Hhas. rewrite Hget in Hhas. discriminate. }
        unfold try_catch, bind, connectToMCPServer.
        destruct (fetchMCPServerDetails E id) as [server|].
        + destruct (String.eqb (cfg_command (normalizeServerConfig server)) EmptyString).
          * exists (Failed ("MCP server " +:+ id +:+ " mis" +:+ String nb_hyphen "configured")), w, [].
            rewrite app_nil_r. repeat split; auto. intros id' _ H. inversion H.
          * unfold bind, emit, modify, lift, registry_set, ret. simpl.
            destruct (client_connect E (normalizeServerConfig server)) as [c0|e]; simpl.
            -- eexists Connected, _, [Spawned id]. simpl. repeat split; auto.
               intros key c Hget. apply Hkeep, Hget.
            -- eexists (Failed e), _, [Spawned id]. simpl. repeat split; auto.
        + exists (Failed ("MCP server " +:+ id +:+ " not found")), w, [].
          rewrite app_nil_r. repeat split; auto. intros id' _ H. inversion H. }
    destruct Hstep as (r & w1 & new1 & Hrun & Hev1 & Hreg1 & Hsp1).
    destruct (IH w1) as (rs & w2 & new2 & Hrest & Hfst & Hev2 & Hreg2 & Hsp2).
    exists ((id, r) :: rs), w2, (new1 ++ new2).
    split.
    { simpl. unfold bind at 1. unfold get. unfold bind at 1. rewrite Hrun.
      unfold bind at 1. rewrite Hrest. reflexivity. }
    split; [simpl; now rewrite Hfst|].
    split; [rewrite Hev2, Hev1; symmetry; apply List.app_assoc|].
    split; [intros key c H; apply Hreg2, Hreg1, H|].
    intros id' Hid' Hin. apply elem_of_app in Hin. destruct Hin as [Hin|Hin].
    + exact (Hsp1 id' Hid' Hin).
    + apply (Hsp2 id'); [|exact Hin].
      apply Map_has_true in Hid'. destruct Hid' as [c Hc].
      apply Map_has_true. exists c. apply Hreg1, Hc.
Qed.

(** ** Strings: prefixes and keys *)

Lemma append_cons c (s t : string) : String c s +:+ t = String c (s +:+ t).
Proof. reflexivity. Qed.

Lemma append_assoc (a b c : string) : (a +:+ b) +:+ c = a +:+ (b +:+ c).
Proof.
  induction a as [|x a IH]; [reflexivity|].
  rewrite !append_cons. f_equal. exact IH.
Qed.

Lemma startsWith_app p t : startsWith (p +:+ t) p = true.
Proof.
  unfold startsWith. induction p as [|c p IH]; simpl.
  - destruct t; reflexivity.
  - destruct (ascii_dec c c); [exact IH|contradiction].
Qed.

Lemma startsWith_inv key p :
  startsWith key p = true -> key = p +:+ slice_from key (String.length p).
Proof.
  unfold startsWith. revert key; induction p as [|c p IH]; intros key H; simpl.
  - reflexivity.
  - destruct key as [|d key]; simpl in H; [discriminate|].
    destruct (ascii_dec c d) as [->|]; [|discriminate].
    rewrite append_cons. f_equal. apply IH, H.
Qed.

Lemma slice_from_app p t : slice_from (p +:+ t) (String.length p) = t.
Proof.
  induction p as [|c p IH]; [reflexivity|].
  rewrite append_cons. simpl. exact IH.
Qed.

Lemma keyOf_prefix sessionId id : keyOf sessionId id = (sessionId +:+ "-") +:+ id.
Proof. unfold keyOf. now rewrite append_assoc. Qed.

Lemma split_clean sep s : has_char sep s = false -> split sep s = [s].
Proof.
  induction s as [|c s IH]; simpl; [reflexivity|].
  intros H. apply orb_false_iff in H. destruct H as [Hc Hs].
  rewrite Hc, (IH Hs). reflexivity.
Qed.

Lemma split_keyOf sessionId id :
  has_char "-" sessionId = false ->
  split "-" (keyOf sessionId id) = sessionId :: split "-" id.
Proof. intros H. unfold keyOf. apply (split_first "-" sessionId id H). Qed.

(** When session ids hold no '-', the first '-' of a key is the boundary. *)
Lemma keyOf_inj s s' p p' :
  has_char "-" s = false -> has_char "-" s' = false ->
  keyOf s p = keyOf s' p' -> s = s' /\ p = p'.
Proof.
  intros Hs Hs' Heq. apply (f_equal (split "-")) in Heq.
  rewrite (split_keyOf _ _ Hs), (split_keyOf _ _ Hs') in Heq.
  injection Heq as -> Hp. split; [reflexivity|].
  apply (f_equal (join "-")) in Hp. now rewrite !join_split in Hp.
Qed.

Lemma startsWith_keyOf s s' p' :
  has_char "-" s = false -> has_char "-" s' = false ->
  startsWith (keyOf s' p') (s +:+ "-") = true -> s = s'.
Proof.
  intros Hs Hs' H. apply startsWith_inv in H. rewrite append_assoc in H.
  symmetry in H. apply (keyOf_inj s s' _ p' Hs Hs' H).
Qed.

Lemma extractServerId_keyOf sessionId id :
  extractServerId (keyOf sessionId id) sessionId = Done id.
Proof.
  unfold extractServerId. rewrite keyOf_prefix, startsWith_app, slice_from_app. reflexivity.
Qed.

Lemma Map_get_keys m key c : Map_get m key = Some c -> key ∈ Map_keys m.
Proof.
  induction m as [|[k c0] m IH]; simpl; [discriminate|].
  destruct (String.eqb_spec k key) as [->|Hk].
  - intros _. apply list_elem_of_here.
  - intros H. apply list_elem_of_further, IH, H.
Qed.

(** ** Disconnecting *)

Lemma disconnect_loop_cons E sessionId id ids w :
  disconnect_loop E sessionId (id :: ids) w =
  match Map_get (registry w) (key_of_id sessionId id) with
  | Some client =>
      match client_close E client with
      | Done _ =>
          match disconnect_loop E sessionId ids
                  {| registry := Map_delete (registry w) (key_of_id sessionId id);
                     events := events w ++ [Closed client] |} with
          | (Done more, w2) => (Done (id :: more), w2)
          | (Thrown e, w2) => (Thrown e, w2)
          end
      | Thrown e => (Thrown e, {| registry := registry w; events := events w ++ [Closed client] |})
      end
  | None => disconnect_loop E sessionId ids w
  end.
Proof.
  unfold key_of_id. simpl. unfold bind at 1. unfold get.
  destruct (Map_get (registry w) (keyOf sessionId (template id))) as [client|]; [|reflexivity].
  unfold bind, emit, modify, lift, registry_delete, ret. simpl.
  destruct (client_close E client); reflexivity.
Qed.

Lemma disconnect_loop_spec E sessionId ids :
  (forall c, client_close E c = Done tt) ->
  forall w, exists disconnected w' new,
    disconnect_loop E sessionId ids w = (Done disconnected, w') /\
    events w' = events w ++ new /\
    (forall key, key ∈ map (key_of_id sessionId) ids -> Map_get (registry w') key = None) /\
    (forall key, key ∉ map (key_of_id sessionId) ids ->
                 Map_get (registry w') key = Map_get (registry w) key) /\
    (forall key c, key ∈ map (key_of_id sessionId) ids ->
                   Map_get (registry w) key = Some c -> Closed c ∈ new).
Proof.
  intros Hclose. induction ids as [|id ids IH]; intros w.
  - exists [], w, []. simpl. rewrite app_nil_r. repeat split; auto.
    + intros key H. inversion H.
    + intros key c H. inversion H.
  - set (key0 := key_of_id sessionId id).
    destruct (Map_get (registry w) key0) as [client|] eqn:Hget.
    + set (w1 := {| registry := Map_delete (registry w) key0;
                    events := events w ++ [Closed client] |}).
      destruct (IH w1) as (d & w2 & new2 & Hrun & Hev & Hgone & Hkept & Hclosed).
      exists (id :: d), w2, (Closed client :: new2).
      split.
      { rewrite disconnect_loop_cons. fold key0. rewrite Hget, Hclose.
        fold w1. rewrite Hrun. reflexivity. }
      split.
      { rewrite Hev. simpl. rewrite <- List.app_assoc. reflexivity. }
      split; [|split].
      * intros key Hin. destruct (decide (key ∈ map (key_of_id sessionId) ids)) as [Hr|Hr].
        -- apply Hgone, Hr.
        -- rewrite (Hkept key Hr). rewrite map_cons in Hin; fold key0 in Hin. apply elem_of_cons in Hin.
           destruct Hin as [->|Hin]; [|contradiction].
           apply Map_get_delete_eq.
      * intros key Hnin. rewrite map_cons in Hnin; fold key0 in Hnin. apply not_elem_of_cons in Hnin.
        destruct Hnin as [Hne Hr]. rewrite (Hkept key Hr).
        apply Map_get_delete_ne. congruence.
      * intros key c Hin Hc. rewrite map_cons in Hin; fold key0 in Hin. apply elem_of_cons in Hin.
        destruct (String.eqb_spec key key0) as [->|Hne].
        -- rewrite Hget in Hc. injection Hc as ->. apply list_elem_of_here.
        -- destruct Hin as [->|Hin]; [contradiction|].
           apply list_elem_of_further. apply (Hclosed key c Hin).
           simpl. rewrite Map_get_delete_ne; [exact Hc|congruence].
    + destruct (IH w) as (d & w2 & new2 & Hrun & Hev & Hgone & Hkept & Hclosed).
      exists d, w2, new2.
      split.
      { rewrite disconnect_loop_cons. fold key0. rewrite Hget. exact Hrun. }
      split; [exact Hev|].
      split; [|split].
      * intros key Hin. destruct (decide (key ∈ map (key_of_id sessionId) ids)) as [Hr|Hr].
        -- apply Hgone, Hr.
        -- rewrite (Hkept key Hr). rewrite map_cons in Hin; fold key0 in Hin. apply elem_of_cons in Hin.
           destruct Hin as [->|Hin]; [exact Hget|contradiction].
      * intros key Hnin. rewrite map_cons in Hnin; fold key0 in Hnin. apply not_elem_of_cons in Hnin.
        destruct Hnin as [_ Hr]. apply Hkept, Hr.
      * intros key c Hin Hc. rewrite map_cons in Hin; fold key0 in Hin. apply elem_of_cons in Hin.
        destruct Hin as [->|Hin]; [fold key0 in Hc; congruence|].
        apply (Hclosed key c Hin Hc).
Qed.

(** The ids disconnect-all derives hold the provider id of every
    connection of the session whose provider id has no '-'. *)
Lemma disconnect_ids_cover sessionId reg p c :
  has_char "-" sessionId = false -> has_char "-" p = false ->
  Map_get reg (keyOf sessionId p) = Some c ->
  keyOf sessionId p ∈ map (key_of_id sessionId) (disconnect_ids sessionId None reg).
Proof.
  intros Hs Hp Hget. unfold disconnect_ids.
  apply list_elem_of_fmap. exists (Some p). split; [reflexivity|].
  apply list_elem_of_fmap. exists (keyOf sessionId p). split.
  - rewrite (split_keyOf _ _ Hs), (split_clean _ _ Hp). reflexivity.
  - apply list_elem_of_In, filter_In. split.
    + apply list_elem_of_In. eapply Map_get_keys. exact Hget.
    + unfold keyOf. apply startsWith_app.
Qed.

Lemma key_of_id_prefix sessionId id :
  startsWith (key_of_id sessionId id) (sessionId +:+ "-") = true.
Proof. unfold key_of_id. rewrite keyOf_prefix. apply startsWith_app. Qed.

(** C6.  Disconnect-all does not do what it attempts.  The example client
    uses the session id "user-123"; with its two connections in the
    registry, disconnect-all derives the provider ids with
    [k.split('-')[1]], gets "123" twice, looks up "user-123-123",
    closes nothing, answers [{ disconnected: [] }] with status 200 and
    leaves both connections in the registry.  The same request with the
    ids listed closes and removes both, and [extractServerId], which
    the sibling paths use, recovers both ids from the keys. *)
Theorem disconnect_all_failing_input :
  disconnect_ids "user-123" None (registry example_usage_world) = [Some "123"; Some "123"] /\
  api_mcp_disconnect (sample_env no_model) "user-123" None example_usage_world
    = (Ok [], example_usage_world) /\
  api_mcp_disconnect (sample_env no_model) "user-123" (Some ["filesystem"; "brave-search"])
      example_usage_world
    = (Ok [Some "filesystem"; Some "brave-search"],
       {| registry := []; events := [Closed 10%nat; Closed 12%nat] |}) /\
  extractServerId (keyOf "user-123" "filesystem") "user-123" = Done "filesystem" /\
  extractServerId (keyOf "user-123" "brave-search") "user-123" = Done "brave-search".
Proof. repeat split. Qed.

(** The same slip with a session id without '-': session "s1" is
    connected to the curated provider "brave-search"; disconnect-all
    looks up "s1-brave", finds nothing, closes nothing and leaves the
    connection in the registry.  And the key does not mark the boundary:
    two different pairs have the key "a-b-c". *)
Lemma disconnect_all_counterexample :
  api_mcp_disconnect (sample_env no_model) "s1" None
      {| registry := [(keyOf "s1" "brave-search", 12%nat)]; events := [] |}
    = (Ok [], {| registry := [(keyOf "s1" "brave-search", 12%nat)]; events := [] |}) /\
  keyOf "a-b" "c" = keyOf "a" "b-c" /\ ("a-b", "c") <> ("a", "b-c").
Proof. repeat split. discriminate. Qed.

(** Where the second piece of the key is the provider id, disconnect-all
    works: for a session id without '-', and when no [close] fails, it
    closes and removes every connection of the session whose provider
    id has no '-', and touches no entry whose key does not start with
    the session id and '-'.  Among session ids without '-', the key
    identifies the pair: its first '-' is the boundary. *)
Lemma disconnect_all_without_dash (E : Env) (sessionId : string) (w : World) :
  sessionId <> EmptyString ->
  has_char "-" sessionId = false ->
  (forall c, client_close E c = Done tt) ->
  exists disconnected w' new,
    api_mcp_disconnect E sessionId None w = (Ok disconnected, w') /\
    events w' = events w ++ new /\
    (forall p c, has_char "-" p = false ->
                 Map_get (registry w) (keyOf sessionId p) = Some c ->
                 Map_get (registry w') (keyOf sessionId p) = None /\ Closed c ∈ new) /\
    (forall key, startsWith key (sessionId +:+ "-") = false ->
                 Map_get (registry w') key = Map_get (registry w) key) /\
    (forall s' p p', has_char "-" s' = false ->
                     keyOf sessionId p = keyOf s' p' -> sessionId = s' /\ p = p').
Proof.
  intros Hne Hs Hclose.
  destruct (disconnect_loop_spec E sessionId (disconnect_ids sessionId None (registry w)) Hclose w)
    as (d & w' & new & Hrun & Hev & Hgone & Hkept & Hclosed).
  exists d, w', new. split.
  { unfold api_mcp_disconnect, handle.
    destruct (String.eqb_spec sessionId EmptyString); [contradiction|].
    rewrite Hrun. reflexivity. }
  split; [exact Hev|]. split; [|split].
  - intros p c Hp Hget.
    pose proof (disconnect_ids_cover sessionId (registry w) p c Hs Hp Hget) as Hin.
    split; [apply Hgone, Hin|apply (Hclosed _ c Hin Hget)].
  - intros key Hkey. apply Hkept. intros Hin.
    apply list_elem_of_fmap in Hin. destruct Hin as (id & -> & _).
    rewrite key_of_id_prefix in Hkey. discriminate.
  - intros s' p p' Hs' Heq. apply (keyOf_inj _ _ _ _ Hs Hs' Heq).
Qed.

Lemma disconnect_all_without_dash_s1 :
  "s1" <> EmptyString /\
  has_char "-" "s1" = false /\
  (forall c, client_close (sample_env no_model) c = Done tt) /\
  exists disconnected w' new,
    api_mcp_disconnect (sample_env no_model) "s1" None connected_world = (Ok disconnected, w') /\
    events w' = events connected_world ++ new /\
    (forall p c, has_char "-" p = false ->
                 Map_get (registry connected_world) (keyOf "s1" p) = Some c ->
                 Map_get (registry w') (keyOf "s1" p) = None /\ Closed c ∈ new) /\
    (forall key, startsWith key ("s1" +:+ "-") = false ->
                 Map_get (registry w') key = Map_get (registry connected_world) key) /\
    (forall s' p p', has_char "-" s' = false ->
                     keyOf "s1" p = keyOf s' p' -> "s1" = s' /\ p = p').
Proof.
  assert (H1 : "s1" <> EmptyString) by discriminate.
  assert (H2 : has_char "-" "s1" = false) by reflexivity.
  assert (H3 : forall c, client_close (sample_env no_model) c = Done tt) by reflexivity.
  split; [exact H1|]. split; [exact H2|]. split; [exact H3|].
  apply (disconnect_all_without_dash (sample_env no_model) "s1" connected_world H1 H2 H3).
Qed.

Example disconnect_all_run :
  api_mcp_disconnect (sample_env no_model) "s1" None connected_world
  = (Ok [Some "filesystem"],
     {| registry := []; events := [Spawned "filesystem"; Closed 10%nat] |}).
Proof. reflexivity. Qed.

(** ** The tool catalog of a session *)

Lemma toolsList_loop_cons E sessionId key client rest w :
  toolsList_loop E sessionId ((key, client) :: rest) w =
  if negb (startsWith key (sessionId +:+ "-")) then toolsList_loop E sessionId rest w
  else match extractServerId key sessionId with
       | Done serverId =>
           match client_listTools E client with
           | Done svTools =>
               match toolsList_loop E sessionId rest
                       {| registry := registry w; events := events w ++ [ListedTools client] |} with
               | (Done more, w') => (Done (map (chat_tool serverId) svTools ++ more), w')
               | (Thrown e, w') => (Thrown e, w')
               end
           | Thrown e => (Thrown e, {| registry := registry w; events := events w ++ [ListedTools client] |})
           end
       | Thrown e => (Thrown e, w)
       end.
Proof.
  simpl. destruct (negb (startsWith key (sessionId +:+ "-"))); [reflexivity|].
  unfold bind at 1. unfold lift at 1.
  destruct (extractServerId key sessionId) as [serverId|e]; [|reflexivity].
  unfold bind at 1. unfold do_listTools, bind at 1, emit, modify, lift. simpl.
  destruct (client_listTools E client); reflexivity.
Qed.





Example catalog_two_sessions :
  catalog_of (sample_env no_model) "s1" two_sessions
  = [ {| ct_name := "filesystem_read_file"; ct_description := "Read a file";
         ct_parameters := JObj [("type", JStr "object"); ("properties", JObj [])] |} ].
Proof. reflexivity. Qed.

Example catalog_dashed_sessions :
  fst (toolsList_loop (sample_env no_model) "user-123" (registry_of dashed_sessions) empty_world)
  = Done [ {| ct_name := "brave-search_read_file"; ct_description := "Read a file";
              ct_parameters := JObj [("type", JStr "object"); ("properties", JObj [])] |} ].
Proof. reflexivity. Qed.

(** ** Dispatching the tool calls of a turn *)

Lemma add_events_nil w : add_events w [] = w.
Proof. unfold add_events. rewrite app_nil_r. destruct w; reflexivity. Qed.

Lemma add_events_app w new new' :
  add_events (add_events w new) new' = add_events w (new ++ new').
Proof. unfold add_events. simpl. now rewrite <- List.app_assoc. Qed.

Lemma run_tool_spec E sessionId f args w :
  parse_args E (fn_arguments f) = Done args ->
  exists new,
    run_tool E sessionId f w = (Done (result_of E sessionId (registry w) f args), add_events w new).
Proof.
  intros Hargs. unfold run_tool, result_of. unfold bind at 1. unfold lift at 1. rewrite Hargs.
  destruct (decode (fn_name f)) as [serverId fnName].
  unfold bind at 1. unfold get.
  destruct (Map_get (registry w) (keyOf sessionId serverId)) as [client|].
  - unfold try_catch, bind, emit, modify, lift, ret. simpl.
    exists [CalledTool client fnName args].
    destruct (client_callTool E client fnName args); reflexivity.
  - exists []. rewrite add_events_nil. reflexivity.
Qed.

Lemma args_parse_cons E call calls :
  args_parse E (call :: calls) ->
  (forall f, call_function call = Some f -> exists args, parse_args E (fn_arguments f) = Done args)
  /\ args_parse E calls.
Proof.
  intros H. split.
  - intros f Hf. apply (H call f); [apply list_elem_of_here|exact Hf].
  - intros c f Hc Hf. apply (H c f); [apply list_elem_of_further, Hc|exact Hf].
Qed.

Lemma dispatch_all_spec E sessionId calls :
  args_parse E calls ->
  forall w, exists new,
    dispatch_all E sessionId calls w
    = (Done (expected_msgs E sessionId (registry w) calls), add_events w new).
Proof.
  induction calls as [|call calls IH]; intros Hparse w.
  - exists []. rewrite add_events_nil. reflexivity.
  - apply args_parse_cons in Hparse. destruct Hparse as [Hcall Hrest].
    simpl dispatch_all. unfold expected_msgs. simpl flat_map. fold (expected_msgs E sessionId (registry w) calls).
    unfold bind at 1. unfold dispatch_call.
    destruct (call_function call) as [f|].
    + destruct (Hcall f eq_refl) as [args Hargs]. rewrite Hargs.
      destruct (run_tool_spec E sessionId f args w Hargs) as [new1 Hrun].
      unfold bind at 1. rewrite Hrun. unfold ret at 1.
      destruct (IH Hrest (add_events w new1)) as [new2 Hall].
      unfold bind at 1. rewrite Hall. unfold ret.
      exists (new1 ++ new2). rewrite add_events_app. reflexivity.
    + unfold ret at 1.
      destruct (IH Hrest w) as [new2 Hall].
      unfold bind at 1. rewrite Hall. unfold ret. exists new2. reflexivity.
Qed.

(** One tool message per call that has a [function], in the order of
    the calls, each with the id of its call. *)
Lemma expected_msgs_ids E sessionId reg calls :
  args_parse E calls ->
  map tool_call_id (expected_msgs E sessionId reg calls)
  = map (fun call => Some (call_id call)) (List.filter has_function calls).
Proof.
  induction calls as [|call calls IH]; intros Hparse; [reflexivity|].
  apply args_parse_cons in Hparse. destruct Hparse as [Hcall Hrest].
  unfold expected_msgs. simpl. fold (expected_msgs E sessionId reg calls).
  unfold has_function at 1.
  destruct (call_function call) as [f|].
  - destruct (Hcall f eq_refl) as [args ->]. simpl. f_equal. apply IH, Hrest.
  - simpl. apply IH, Hrest.
Qed.

Lemma expected_msgs_roles E sessionId reg calls :
  Forall (fun m => role m = "tool") (expected_msgs E sessionId reg calls).
Proof.
  unfold expected_msgs. apply Forall_flat_map, Forall_forall. intros call _.
  destruct (call_function call) as [f|]; [|constructor].
  destruct (parse_args E (fn_arguments f)); repeat constructor.
Qed.

Lemma chat_loop_S E sessionId tools n turn st w :
  chat_loop E sessionId tools (S n) turn st w =
  match prune (convo st) with
  | Thrown e => (Thrown e, w)
  | Done pruned =>
      let w1 := add_events w [Requested turn pruned tools] in
      match completions_create E turn with
      | Thrown e => (Thrown e, w1)
      | Done assistant =>
          match a_tool_calls assistant with
          | Some (c :: cs) =>
              match dispatch_all E sessionId (c :: cs) w1 with
              | (Done results, w2) =>
                  chat_loop E sessionId tools n (S turn)
                    {| convo := pruned ++ [planning_msg (c :: cs)] ++ results;
                       allToolCalls := allToolCalls st ++ c :: cs;
                       allToolResults := allToolResults st ++ results;
                       lastAssistantMsg := lastAssistantMsg st |} w2
              | (Thrown e, w2) => (Thrown e, w2)
              end
          | _ =>
              (Done {| convo := pruned;
                       allToolCalls := allToolCalls st;
                       allToolResults := allToolResults st;
                       lastAssistantMsg := Some assistant |}, w1)
          end
      end
  end.
Proof.
  cbn [chat_loop]. unfold bind at 1. unfold lift at 1.
  destruct (prune (convo st)) as [pruned|e]; [|reflexivity].
  unfold bind at 1. unfold emit at 1, modify. cbv beta. cbv zeta.
  unfold bind at 1. unfold lift at 1. fold (add_events w [Requested turn pruned tools]).
  destruct (completions_create E turn) as [assistant|e]; [|reflexivity].
  destruct (a_tool_calls assistant) as [[|c cs]|]; try reflexivity.
Qed.

(** One iteration of the turn loop that dispatches tool calls: the next
    iteration, and with it the next request to the model, starts from
    the fitted conversation, the planning message and the tool
    messages. *)
Lemma chat_loop_dispatch E sessionId tools n turn st w pruned assistant c cs :
  prune (convo st) = Done pruned ->
  completions_create E turn = Done assistant ->
  a_tool_calls assistant = Some (c :: cs) ->
  args_parse E (c :: cs) ->
  exists new,
    chat_loop E sessionId tools (S n) turn st w =
    chat_loop E sessionId tools n (S turn)
      {| convo := pruned ++ [planning_msg (c :: cs)]
                  ++ expected_msgs E sessionId (registry w) (c :: cs);
         allToolCalls := allToolCalls st ++ c :: cs;
         allToolResults := allToolResults st ++ expected_msgs E sessionId (registry w) (c :: cs);
         lastAssistantMsg := lastAssistantMsg st |}
      (add_events w (Requested turn pruned tools :: new)).
Proof.
  intros Hprune Hmodel Hcalls Hparse.
  destruct (dispatch_all_spec E sessionId (c :: cs) Hparse
              (add_events w [Requested turn pruned tools])) as [new Hrun].
  exists new. rewrite chat_loop_S, Hprune. cbv zeta. rewrite Hmodel, Hcalls, Hrun.
  rewrite add_events_app. reflexivity.
Qed.

Lemma expected_msgs_elem E sessionId reg calls call f args :
  call ∈ calls -> call_function call = Some f ->
  parse_args E (fn_arguments f) = Done args ->
  toolMsg call (result_of E sessionId reg f args) ∈ expected_msgs E sessionId reg calls.
Proof.
  intros Hin Hf Hargs. unfold expected_msgs.
  apply list_elem_of_In, in_flat_map. exists call. split; [apply list_elem_of_In, Hin|].
  rewrite Hf, Hargs. left. reflexivity.
Qed.

(** ** One tool message per call *)

(** C2, as stated, fails: the model requests a call whose [function]
    is absent; the loop records the request, appends no tool message
    for "call_1" and sends the conversation to the model again. *)
Lemma tool_results_counterexample :
  api_chat (sample_env bare_then_final) (chat_request 2) empty_world
  = (Ok {| message := Some final_answer; toolCalls := [bare_call]; toolResults := [] |},
     {| registry := [];
        events := [ Requested 0 [hi] [];
                    Requested 1 [hi; planning_msg [bare_call]] [] ] |}).
Proof. reflexivity. Qed.

(** C2 (amended): in every turn in which the model requests tool calls
    whose arguments JSON.parse accepts, the loop appends, after the
    message that records the request, exactly one tool message for each
    requested call that has a [function], in the order of the calls and
    with the id of its call, and the next iteration, which sends the
    next request to the model, starts from that conversation.  A call
    without [function] is skipped and gets no result. *)
Theorem tool_results_per_call (E : Env) (sessionId : string) (tools : list ChatTool)
    (n turn : nat) (st : LoopState) (w : World)
    (pruned : list Message) (assistant : Assistant) (c : ToolCall) (cs : list ToolCall) :
  prune (convo st) = Done pruned ->
  completions_create E turn = Done assistant ->
  a_tool_calls assistant = Some (c :: cs) ->
  args_parse E (c :: cs) ->
  exists results new,
    dispatch_all E sessionId (c :: cs) (add_events w [Requested turn pruned tools])
      = (Done results, add_events w (Requested turn pruned tools :: new)) /\
    map tool_call_id results
      = map (fun call => Some (call_id call)) (List.filter has_function (c :: cs)) /\
    Forall (fun m => role m = "tool") results /\
    chat_loop E sessionId tools (S n) turn st w =
    chat_loop E sessionId tools n (S turn)
      {| convo := pruned ++ [planning_msg (c :: cs)] ++ results;
         allToolCalls := allToolCalls st ++ c :: cs;
         allToolResults := allToolResults st ++ results;
         lastAssistantMsg := lastAssistantMsg st |}
      (add_events w (Requested turn pruned tools :: new)).
Proof.
  intros Hprune Hmodel Hcalls Hparse.
  destruct (dispatch_all_spec E sessionId (c :: cs) Hparse
              (add_events w [Requested turn pruned tools])) as [new Hrun].
  exists (expected_msgs E sessionId (registry w) (c :: cs)), new.
  split; [rewrite Hrun, add_events_app; reflexivity|].
  split; [apply expected_msgs_ids, Hparse|].
  split; [apply expected_msgs_roles|].
  rewrite chat_loop_S, Hprune. cbv zeta. rewrite Hmodel, Hcalls, Hrun.
  rewrite add_events_app. reflexivity.
Qed.

Lemma args_parse_two_calls :
  args_parse (sample_env (fun _ => Done request_two_calls)) [read_call "call_1"; bare_call].
Proof.
  intros call f Hin Hf. apply elem_of_cons in Hin. destruct Hin as [->|Hin].
  - injection Hf as <-. eexists. reflexivity.
  - apply list_elem_of_singleton in Hin. subst call. discriminate Hf.
Qed.

Lemma tool_results_per_call_witness :
  prune (convo start_state) = Done [hi] /\
  completions_create (sample_env (fun _ => Done request_two_calls)) 0 = Done request_two_calls /\
  a_tool_calls request_two_calls = Some [read_call "call_1"; bare_call] /\
  args_parse (sample_env (fun _ => Done request_two_calls)) [read_call "call_1"; bare_call] /\
  exists results new,
    dispatch_all (sample_env (fun _ => Done request_two_calls)) "s1"
        [read_call "call_1"; bare_call] (add_events connected_world [Requested 0 [hi] []])
      = (Done results, add_events connected_world (Requested 0 [hi] [] :: new)) /\
    map tool_call_id results
      = map (fun call => Some (call_id call))
            (List.filter has_function [read_call "call_1"; bare_call]) /\
    Forall (fun m => role m = "tool") results /\
    chat_loop (sample_env (fun _ => Done request_two_calls)) "s1" [] 1 0 start_state connected_world =
    chat_loop (sample_env (fun _ => Done request_two_calls)) "s1" [] 0 1
      {| convo := [hi] ++ [planning_msg [read_call "call_1"; bare_call]] ++ results;
         allToolCalls := allToolCalls start_state ++ [read_call "call_1"; bare_call];
         allToolResults := allToolResults start_state ++ results;
         lastAssistantMsg := lastAssistantMsg start_state |}
      (add_events connected_world (Requested 0 [hi] [] :: new)).
Proof.
  assert (H1 : prune (convo start_state) = Done [hi]) by reflexivity.
  assert (H2 : completions_create (sample_env (fun _ => Done request_two_calls)) 0
               = Done request_two_calls) by reflexivity.
  assert (H3 : a_tool_calls request_two_calls = Some [read_call "call_1"; bare_call])
    by reflexivity.
  split; [exact H1|]. split; [exact H2|]. split; [exact H3|].
  split; [exact args_parse_two_calls|].
  apply (tool_results_per_call (sample_env (fun _ => Done request_two_calls)) "s1" [] 0 0
           start_state connected_world [hi] request_two_calls (read_call "call_1") [bare_call]
           H1 H2 H3 args_parse_two_calls).
Defined.

(** C7, as stated, fails: the provider "ghost" of the requested call has
    no connection in the session, yet no tool message is appended; the
    arguments are parsed first, the exception of JSON.parse ends the
    request, and the answer is the error envelope. *)
Lemma tool_failure_counterexample :
  decode "ghost_lookup" = ("ghost", "lookup") /\
  Map_get (registry empty_world) (keyOf "s1" "ghost") = None /\
  api_chat (sample_env (fun _ => Done {| a_content := Some JNull;
                                         a_tool_calls := Some [ghost_call] |}))
           (chat_request 2) empty_world
  = (ServerError, {| registry := []; events := [Requested 0 [hi] []] |}).
Proof. repeat split. Qed.

(** C7 (amended): in every turn that dispatches tool calls whose
    arguments JSON.parse accepts, no exception leaves the dispatch and
    the loop goes on to its next iteration.  Every requested call that
    has a [function] gets its tool message, which depends on that call
    alone: the "not connected" error when its provider has no connection
    in the session, the error message when its invocation throws, the
    payload when it returns, whatever happens to the other calls of the
    turn. *)
Theorem tool_failures_are_results (E : Env) (sessionId : string) (tools : list ChatTool)
    (n turn : nat) (st : LoopState) (w : World)
    (pruned : list Message) (assistant : Assistant) (c : ToolCall) (cs : list ToolCall) :
  prune (convo st) = Done pruned ->
  completions_create E turn = Done assistant ->
  a_tool_calls assistant = Some (c :: cs) ->
  args_parse E (c :: cs) ->
  exists results new,
    chat_loop E sessionId tools (S n) turn st w =
    chat_loop E sessionId tools n (S turn)
      {| convo := pruned ++ [planning_msg (c :: cs)] ++ results;
         allToolCalls := allToolCalls st ++ c :: cs;
         allToolResults := allToolResults st ++ results;
         lastAssistantMsg := lastAssistantMsg st |}
      (add_events w (Requested turn pruned tools :: new)) /\
    forall call f args serverId fnName,
      call ∈ c :: cs -> call_function call = Some f ->
      parse_args E (fn_arguments f) = Done args ->
      decode (fn_name f) = (serverId, fnName) ->
      (Map_get (registry w) (keyOf sessionId serverId) = None ->
       toolMsg call (Some (error_content ("MCP server " +:+ serverId +:+ " not connected")))
         ∈ results) /\
      (forall client e,
         Map_get (registry w) (keyOf sessionId serverId) = Some client ->
         client_callTool E client fnName args = Thrown e ->
         toolMsg call (Some (error_content e)) ∈ results) /\
      (forall client payload,
         Map_get (registry w) (keyOf sessionId serverId) = Some client ->
         client_callTool E client fnName args = Done payload ->
         toolMsg call payload ∈ results).
Proof.
  intros Hprune Hmodel Hcalls Hparse.
  destruct (chat_loop_dispatch E sessionId tools n turn st w pruned assistant c cs
              Hprune Hmodel Hcalls Hparse) as [new Hstep].
  exists (expected_msgs E sessionId (registry w) (c :: cs)), new.
  split; [exact Hstep|].
  intros call f args serverId fnName Hin Hf Hargs Hdec.
  pose proof (expected_msgs_elem E sessionId (registry w) _ call f args Hin Hf Hargs) as Hmsg.
  unfold result_of in Hmsg. rewrite Hdec in Hmsg.
  split; [|split].
  - intros Hnone. rewrite Hnone in Hmsg. exact Hmsg.
  - intros client e Hsome Hthrow. rewrite Hsome, Hthrow in Hmsg. exact Hmsg.
  - intros client payload Hsome Hdone. rewrite Hsome, Hdone in Hmsg. exact Hmsg.
Qed.

Lemma args_parse_named E calls :
  JSON_parse E "{}" = Done (JObj []) ->
  Forall (fun call => exists id name, call = call_named id name) calls ->
  args_parse E calls.
Proof.
  intros Hjson Hall call f Hin Hf.
  eapply Forall_forall in Hall; [|exact Hin]. destruct Hall as (id & name & ->).
  injection Hf as <-. exists (JObj []). exact Hjson.
Qed.

Lemma args_parse_three_calls :
  args_parse (sample_env (fun _ => Done request_three_calls)) three_calls.
Proof.
  apply args_parse_named; [reflexivity|].
  repeat constructor; eexists _, _; reflexivity.
Qed.

Lemma tool_failures_are_results_witness :
  prune (convo start_state) = Done [hi] /\
  completions_create (sample_env (fun _ => Done request_three_calls)) 0 = Done request_three_calls /\
  a_tool_calls request_three_calls = Some three_calls /\
  args_parse (sample_env (fun _ => Done request_three_calls)) three_calls /\
  exists results new,
    chat_loop (sample_env (fun _ => Done request_three_calls)) "s1" [] 1 0 start_state connected_world =
    chat_loop (sample_env (fun _ => Done request_three_calls)) "s1" [] 0 1
      {| convo := [hi] ++ [planning_msg three_calls] ++ results;
         allToolCalls := allToolCalls start_state ++ three_calls;
         allToolResults := allToolResults start_state ++ results;
         lastAssistantMsg := lastAssistantMsg start_state |}
      (add_events connected_world (Requested 0 [hi] [] :: new)) /\
    forall call f args serverId fnName,
      call ∈ three_calls -> call_function call = Some f ->
      parse_args (sample_env (fun _ => Done request_three_calls)) (fn_arguments f) = Done args ->
      decode (fn_name f) = (serverId, fnName) ->
      (Map_get (registry connected_world) (keyOf "s1" serverId) = None ->
       toolMsg call (Some (error_content ("MCP server " +:+ serverId +:+ " not connected")))
         ∈ results) /\
      (forall client e,
         Map_get (registry connected_world) (keyOf "s1" serverId) = Some client ->
         client_callTool (sample_env (fun _ => Done request_three_calls)) client fnName args
           = Thrown e ->
         toolMsg call (Some (error_content e)) ∈ results) /\
      (forall client payload,
         Map_get (registry connected_world) (keyOf "s1" serverId) = Some client ->
         client_callTool (sample_env (fun _ => Done request_three_calls)) client fnName args
           = Done payload ->
         toolMsg call payload ∈ results).
Proof.
  assert (H1 : prune (convo start_state) = Done [hi]) by reflexivity.
  assert (H2 : completions_create (sample_env (fun _ => Done request_three_calls)) 0
               = Done request_three_calls) by reflexivity.
  assert (H3 : a_tool_calls request_three_calls = Some three_calls) by reflexivity.
  split; [exact H1|]. split; [exact H2|]. split; [exact H3|].
  split; [exact args_parse_three_calls|].
  apply (tool_failures_are_results (sample_env (fun _ => Done request_three_calls)) "s1" [] 0 0
           start_state connected_world [hi] request_three_calls
           (call_named "call_1" "ghost_lookup")
           [call_named "call_2" "filesystem_fail"; call_named "call_3" "filesystem_read_file"]
           H1 H2 H3 args_parse_three_calls).
Defined.

(** The three calls, run: two errors as data and one payload, in order. *)
Example three_calls_run :
  fst (dispatch_all (sample_env (fun _ => Done request_three_calls)) "s1" three_calls connected_world)
  = Done
      [ toolMsg (call_named "call_1" "ghost_lookup")
                (Some (error_content "MCP server ghost not connected"));
        toolMsg (call_named "call_2" "filesystem_fail") (Some (error_content "tool failed"));
        toolMsg (call_named "call_3" "filesystem_read_file")
                (Some (JArr [JObj [("type", JStr "text"); ("text", JStr "ok")]])) ].
Proof. reflexivity. Qed.

(** ** Reaching the turn limit *)

Lemma expected_msgs_defined E sessionId reg calls :
  tools_answer E ->
  Forall (fun m => content m <> None) (expected_msgs E sessionId reg calls).
Proof.
  intros Hans. unfold expected_msgs. apply Forall_flat_map, Forall_forall. intros call _.
  destruct (call_function call) as [f|]; [|constructor].
  destruct (parse_args E (fn_arguments f)) as [args|]; [|constructor].
  repeat constructor. unfold toolMsg, result_of. simpl.
  destruct (decode (fn_name f)) as [serverId fnName].
  destruct (Map_get reg (keyOf sessionId serverId)) as [client|]; [|discriminate].
  destruct (client_callTool E client fnName args) as [[payload|]|e] eqn:Hcall;
    try discriminate.
  exfalso. exact (Hans _ _ _ Hcall).
Qed.

Lemma prune_defined c :
  Forall (fun m => content m <> None) c ->
  exists pruned, prune c = Done pruned /\ Forall (fun m => content m <> None) pruned.
Proof.
  intros Hdef.
  destruct (pruneConversation_returns c Hdef) as (pruned & total & Hp & _ & Ht & _).
  exists pruned. unfold prune. rewrite Hp. split; [reflexivity|].
  apply totalTokens_is_Some. eexists; exact Ht.
Qed.

Lemma chat_loop_exhausts E sessionId tools :
  tools_answer E ->
  forall n turn st w,
    Forall (fun m => content m <> None) (convo st) ->
    requests_tools E turn n ->
    exists st' new,
      chat_loop E sessionId tools n turn st w = (Done st', add_events w new) /\
      lastAssistantMsg st' = lastAssistantMsg st /\
      allToolCalls st' = allToolCalls st ++ flat_map (calls_at E) (seq turn n) /\
      allToolResults st' = allToolResults st ++
        flat_map (fun t => expected_msgs E sessionId (registry w) (calls_at E t)) (seq turn n).
Proof.
  intros Hans. induction n as [|n IH]; intros turn st w Hdef Hreq.
  - exists st, []. simpl. rewrite add_events_nil, !app_nil_r. repeat split; reflexivity.
  - destruct (Hreq turn ltac:(lia)) as [(a & c & cs & Hmodel & Hcalls) Hparse].
    assert (Hat : calls_at E turn = c :: cs) by (unfold calls_at; now rewrite Hmodel, Hcalls).
    rewrite Hat in Hparse.
    destruct (prune_defined _ Hdef) as (pruned & Hprune & Hpdef).
    destruct (chat_loop_dispatch E sessionId tools n turn st w pruned a c cs
                Hprune Hmodel Hcalls Hparse) as [new1 Hstep].
    rewrite Hstep.
    match goal with |- context [chat_loop _ _ _ n (S turn) ?st1 ?w1] =>
      destruct (IH (S turn) st1 w1) as (st' & new2 & Hrun & Hlast & Hcs & Hrs) end.
    { cbn [convo]. apply Forall_app. split; [exact Hpdef|].
      apply Forall_app. split; [repeat constructor; discriminate|].
      apply expected_msgs_defined, Hans. }
    { intros t Ht. apply Hreq. lia. }
    exists st', (Requested turn pruned tools :: new1 ++ new2).
    rewrite Hrun, add_events_app. split; [reflexivity|].
    split; [exact Hlast|].
    simpl in Hcs, Hrs. simpl seq. simpl flat_map. rewrite Hat.
    split.
    + rewrite Hcs. rewrite <- List.app_assoc. reflexivity.
    + rewrite Hrs. rewrite <- List.app_assoc. reflexivity.
Qed.

Lemma toolsList_loop_total E sessionId entries :
  (forall c, exists ts, client_listTools E c = Done ts) ->
  forall w, exists tools new,
    toolsList_loop E sessionId entries w = (Done tools, add_events w new).
Proof.
  intros Hlist. induction entries as [|[key client] entries IH]; intros w.
  - exists [], []. rewrite add_events_nil. reflexivity.
  - rewrite toolsList_loop_cons.
    destruct (startsWith key (sessionId +:+ "-")) eqn:Hp; simpl negb; cbv iota.
    + unfold extractServerId. rewrite Hp.
      destruct (Hlist client) as [ts ->].
      destruct (IH {| registry := registry w; events := events w ++ [ListedTools client] |})
        as (tools & new & Hrun).
      rewrite Hrun. eexists _, (ListedTools client :: new).
      unfold add_events. simpl. rewrite <- List.app_assoc. reflexivity.
    + apply IH.
Qed.

Lemma results_match_calls E sessionId reg turns :
  (forall t, t ∈ turns -> args_parse E (calls_at E t)) ->
  map tool_call_id (flat_map (fun t => expected_msgs E sessionId reg (calls_at E t)) turns)
  = map (fun call => Some (call_id call))
        (List.filter has_function (flat_map (calls_at E) turns)).
Proof.
  induction turns as [|t turns IH]; intros H; [reflexivity|].
  simpl. rewrite List.filter_app, !List.map_app.
  rewrite expected_msgs_ids by (apply H, list_elem_of_here).
  f_equal. apply IH. intros t' Ht'. apply H, list_elem_of_further, Ht'.
Qed.

(** C5, as stated, fails: the only turn allowed is used by a reply that
    carries tool calls and a content; the answer is a structured result
    with the full trace, but its message is [null]: the content of the
    last assistant message is not in it. *)
Lemma exhausted_loop_counterexample :
  completions_create (sample_env (fun _ => Done talkative_request)) 0 = Done talkative_request /\
  a_content talkative_request = Some (JStr "Let me read that file first.") /\
  fst (api_chat (sample_env (fun _ => Done talkative_request)) (chat_request 1) connected_world)
  = Ok {| message := None;
          toolCalls := [read_call "call_1"];
          toolResults :=
            [ toolMsg (read_call "call_1")
                      (Some (JArr [JObj [("type", JStr "text"); ("text", JStr "ok")]])) ] |}.
Proof. repeat split. Qed.

(** C5 (amended): when the model requests tool calls at every one of
    the maxTurns turns, and nothing throws on the way (the messages of
    the request have a content, listing tools succeeds, the arguments of
    the calls parse and the tools answer with a content), the answer is
    a structured result, not the error envelope: its message is [null],
    the content of assistant messages that carry tool calls is not kept,
    and it holds the full ordered trace, all the calls requested at
    turns 0 .. maxTurns-1 and one result for each of them that has a
    [function]. *)
Theorem exhausted_loop_response (E : Env) (req : ChatRequest) (w : World) :
  req_sessionId req <> EmptyString ->
  Forall (fun m => content m <> None) (req_messages req) ->
  (forall c, exists ts, client_listTools E c = Done ts) ->
  tools_answer E ->
  requests_tools E 0 (req_maxTurns req) ->
  exists body w',
    api_chat E req w = (Ok body, w') /\
    registry w' = registry w /\
    message body = None /\
    toolCalls body = flat_map (calls_at E) (seq 0 (req_maxTurns req)) /\
    toolResults body =
      flat_map (fun t => expected_msgs E (req_sessionId req) (registry w) (calls_at E t))
               (seq 0 (req_maxTurns req)) /\
    map tool_call_id (toolResults body)
      = map (fun call => Some (call_id call)) (List.filter has_function (toolCalls body)).
Proof.
  intros Hs Hdef Hlist Hans Hreq.
  assert (Htools : exists tools new,
            (if req_useMCP req then toolsList_loop E (req_sessionId req) (registry w)
             else ret []) w = (Done tools, add_events w new)).
  { destruct (req_useMCP req).
    - apply toolsList_loop_total, Hlist.
    - exists [], []. rewrite add_events_nil. reflexivity. }
  destruct Htools as (tools & new1 & Htools).
  destruct (chat_loop_exhausts E (req_sessionId req) tools Hans (req_maxTurns req) 0
              {| convo := req_messages req; allToolCalls := [];
                 allToolResults := []; lastAssistantMsg := None |}
              (add_events w new1) Hdef Hreq)
    as (st' & new2 & Hrun & Hlast & Hcs & Hrs).
  simpl in Hlast, Hcs, Hrs.
  exists {| message := lastAssistantMsg st'; toolCalls := allToolCalls st';
            toolResults := allToolResults st' |}, (add_events (add_events w new1) new2).
  split.
  { unfold api_chat, handle.
    destruct (String.eqb_spec (req_sessionId req) EmptyString); [contradiction|].
    unfold bind at 1. rewrite Htools. unfold bind at 1. rewrite Hrun. reflexivity. }
  split; [reflexivity|]. split; [exact Hlast|]. split; [exact Hcs|]. split; [exact Hrs|].
  cbn [toolResults toolCalls]. rewrite Hcs, Hrs.
  apply results_match_calls. intros t Ht.
  apply elem_of_seq in Ht. apply Hreq. lia.
Qed.

Lemma requests_tools_always E a c cs n :
  (forall t, completions_create E t = Done a) ->
  a_tool_calls a = Some (c :: cs) ->
  args_parse E (c :: cs) ->
  requests_tools E 0 n.
Proof.
  intros Hmodel Hcalls Hparse t _. split.
  - exists a, c, cs. split; [apply Hmodel|exact Hcalls].
  - unfold calls_at. rewrite Hmodel, Hcalls. exact Hparse.
Qed.

Lemma exhausted_loop_response_witness :
  req_sessionId (chat_request 3) <> EmptyString /\
  Forall (fun m => content m <> None) (req_messages (chat_request 3)) /\
  (forall c, exists ts, client_listTools (sample_env (fun _ => Done talkative_request)) c = Done ts) /\
  tools_answer (sample_env (fun _ => Done talkative_request)) /\
  requests_tools (sample_env (fun _ => Done talkative_request)) 0 (req_maxTurns (chat_request 3)) /\
  exists body w',
    api_chat (sample_env (fun _ => Done talkative_request)) (chat_request 3) connected_world
      = (Ok body, w') /\
    registry w' = registry connected_world /\
    message body = None /\
    toolCalls body = flat_map (calls_at (sample_env (fun _ => Done talkative_request)))
                              (seq 0 (req_maxTurns (chat_request 3))) /\
    toolResults body =
      flat_map (fun t => expected_msgs (sample_env (fun _ => Done talkative_request))
                           (req_sessionId (chat_request 3)) (registry connected_world)
                           (calls_at (sample_env (fun _ => Done talkative_request)) t))
               (seq 0 (req_maxTurns (chat_request 3))) /\
    map tool_call_id (toolResults body)
      = map (fun call => Some (call_id call)) (List.filter has_function (toolCalls body)).
Proof.
  assert (H1 : req_sessionId (chat_request 3) <> EmptyString) by discriminate.
  assert (H2 : Forall (fun m => content m <> None) (req_messages (chat_request 3)))
    by (repeat constructor; discriminate).
  assert (H3 : forall c, exists ts,
             client_listTools (sample_env (fun _ => Done talkative_request)) c = Done ts)
    by (intros c; eexists; reflexivity).
  assert (H4 : tools_answer (sample_env (fun _ => Done talkative_request))).
  { intros client name args. simpl. destruct (String.eqb name "fail"); discriminate. }
  assert (H5 : requests_tools (sample_env (fun _ => Done talkative_request)) 0
                 (req_maxTurns (chat_request 3))).
  { apply (requests_tools_always _ talkative_request (read_call "call_1") []);
      [reflexivity|reflexivity|].
    apply args_parse_named; [reflexivity|]. repeat constructor. eexists _, _; reflexivity. }
  split; [exact H1|]. split; [exact H2|]. split; [exact H3|]. split; [exact H4|].
  split; [exact H5|].
  apply (exhausted_loop_response (sample_env (fun _ => Done talkative_request))
           (chat_request 3) connected_world H1 H2 H3 H4 H5).
Defined.

Example scenario_run :
  let first := toolMsg (call_named "call_1" "filesystem_read_file")
                 (Some (JArr [JObj [("type", JStr "text"); ("text", JStr "ok")]])) in
  let second := toolMsg (call_named "call_2" "unknown_tool")
                  (Some (error_content "MCP server unknown not connected")) in
  let calls := [call_named "call_1" "filesystem_read_file"; call_named "call_2" "unknown_tool"] in
  exists tools,
    api_chat (sample_env scenario_model) (chat_request 6) connected_world
    = (Ok {| message := Some final_answer; toolCalls := calls; toolResults := [first; second] |},
       add_events connected_world
         [ ListedTools 10%nat;
           Requested 0 [hi] tools;
           CalledTool 10%nat "read_file" (JObj []);
           Requested 1 [hi; planning_msg calls; first; second] tools ]).
Proof. eexists. reflexivity. Qed.

End ServerFacts.

(* ================================================================== *)
(** * [pruneConversation] and the store: what is written, and where *)
(* ================================================================== *)

Module StoreFacts.
Import JS Budget Eff Store Notions Samples.
Import BudgetFacts.

Lemma deref_Forall2 h refs ms :
  deref h refs = Some ms <-> Forall2 (fun r m => objects h !! r = Some m) refs ms.
Proof. apply mapM_Some. Qed.

Lemma deref_length h refs ms : deref h refs = Some ms -> length refs = length ms.
Proof. intros H. apply deref_Forall2 in H. eapply Forall2_length, H. Qed.

Lemma clone_h_spec h m o :
  objects h !! m = Some o ->
  clone_h m h = (Done (length (objects h)), {| objects := objects h ++ [o]; arrays := arrays h |}).
Proof.
  intros Hm. unfold clone_h, bind, read_obj, alloc_obj. rewrite Hm. destruct o; reflexivity.
Qed.

Lemma clipMessage_h_spec objs arrs o :
  clipMessage_h (length objs) {| objects := objs ++ [o]; arrays := arrs |}
  = (Done tt, {| objects := objs ++ [clipMessage o]; arrays := arrs |}).
Proof.
  unfold clipMessage_h, bind, read_obj. cbn [objects].
  rewrite list_lookup_middle by reflexivity.
  unfold clipMessage.
  destruct (content o) as [[| | |s| |]|]; try reflexivity.
  destruct (MAX_SINGLE_MSG_TOKENS <? strTokens s); [|reflexivity].
  unfold write_obj, modify. cbn [objects arrays].
  replace (length objs) with (length objs + 0)%nat by lia.
  rewrite insert_app_r. reflexivity.
Qed.

Lemma push_h_spec objs arrs l r :
  push_h (length arrs) r {| objects := objs; arrays := arrs ++ [l] |}
  = (Done tt, {| objects := objs; arrays := arrs ++ [l ++ [r]] |}).
Proof.
  unfold push_h, bind, read_array, write_array, modify. cbn [objects arrays].
  rewrite list_lookup_middle by reflexivity. cbn [objects arrays].
  replace (length arrs) with (length arrs + 0)%nat by lia.
  rewrite insert_app_r. reflexivity.
Qed.

Lemma copy_loop_spec h0 messages arr msgs :
  arrays h0 !! messages = Some arr ->
  deref h0 arr = Some msgs ->
  forall fuel i, (i <= length arr)%nat -> (length arr - i <= fuel)%nat ->
    copy_loop fuel messages (length (arrays h0)) i (copied h0 msgs i)
    = (Done tt, copied h0 msgs (length arr)).
Proof.
  intros Harr Hder. pose proof (deref_length _ _ _ Hder) as Hlen.
  apply deref_Forall2 in Hder.
  induction fuel as [|fuel IH]; intros i Hi Hfuel.
  - assert (i = length arr) as -> by lia.
    simpl. unfold bind, read_array. cbn [arrays copied].
    rewrite (lookup_app_l_Some _ _ _ _ Harr).
    rewrite (lookup_ge_None_2 arr (length arr)) by lia. reflexivity.
  - cbn [copy_loop]. unfold bind at 1. unfold read_array at 1. cbn [arrays copied].
    rewrite (lookup_app_l_Some _ _ _ _ Harr).
    destruct (arr !! i) as [m|] eqn:Hm.
    + destruct (Forall2_lookup_l _ _ _ _ _ Hder Hm) as (o & Ho & Hobj).
      assert (Hi' : (i < length arr)%nat) by (eapply lookup_lt_Some; exact Hm).
      assert (Htake : length (take i msgs) = i) by (rewrite length_take; lia).
      unfold bind at 1.
      rewrite (clone_h_spec _ m o) by (cbn [copied objects]; apply lookup_app_l_Some, Hobj).
      cbn [copied objects arrays].
      unfold bind at 1.
      rewrite clipMessage_h_spec.
      unfold bind at 1.
      replace (length (objects h0 ++ map clipMessage (take i msgs)))
        with (length (objects h0) + i)%nat
        by (rewrite length_app, length_map, Htake; reflexivity).
      rewrite push_h_spec.
      rewrite <- seq_S, <- List.app_assoc.
      replace (map clipMessage (take i msgs) ++ [clipMessage o])
        with (map clipMessage (take (S i) msgs))
        by (rewrite (take_S_r _ _ _ Ho), map_app; reflexivity).
      apply (IH (S i)); lia.
    + apply lookup_ge_None in Hm. assert (i = length arr) as -> by lia. reflexivity.
Qed.

Lemma totalTokens_h_spec h refs ms :
  deref h refs = Some ms ->
  forall sum,
    totalTokens_h refs sum h =
    match totalTokens ms with
    | Some t => (Done (sum + t), h)
    | None => (Thrown undefined_length, h)
    end.
Proof.
  intros Hder. apply deref_Forall2 in Hder.
  induction Hder as [|r m refs ms Hr _ IH]; intros sum.
  - simpl. rewrite Z.add_0_r. reflexivity.
  - cbn [totalTokens_h]. unfold bind, read_obj. rewrite Hr.
    rewrite totalTokens_cons. destruct (msgTokens m) as [t|]; [|reflexivity].
    rewrite IH. destruct (totalTokens ms); [|reflexivity].
    rewrite Z.add_assoc. reflexivity.
Qed.

Lemma findIndex_h_spec h refs ms :
  deref h refs = Some ms ->
  findIndex_h refs h = (Done (findIndex non_system ms), h).
Proof.
  intros Hder. apply deref_Forall2 in Hder.
  induction Hder as [|r m refs ms Hr _ IH]; [reflexivity|].
  cbn [findIndex_h findIndex]. unfold bind at 1. unfold read_obj. rewrite Hr.
  destruct (non_system m); [reflexivity|].
  unfold bind. rewrite IH. reflexivity.
Qed.

Lemma deref_splice1 h refs ms i :
  deref h refs = Some ms -> deref h (splice1 i refs) = Some (splice1 i ms).
Proof.
  intros Hder. apply deref_Forall2. apply deref_Forall2 in Hder.
  revert i. induction Hder as [|r m refs ms Hr Hrest IH]; intros [|i]; simpl.
  - constructor.
  - constructor.
  - exact Hrest.
  - constructor; [exact Hr|apply IH].
Qed.

Lemma set_array_id h a l : arrays h !! a = Some l -> set_array h a l = h.
Proof.
  intros H. unfold set_array. rewrite (list_insert_id _ _ _ H). destruct h; reflexivity.
Qed.

Lemma set_array_twice h a l l' : set_array (set_array h a l) a l' = set_array h a l'.
Proof. unfold set_array. cbn [objects arrays]. now rewrite list_insert_insert_eq. Qed.

Lemma while_loop_eq fuel pruned h :
  while_loop fuel pruned h =
  match arrays h !! pruned with
  | None => (Thrown bad_ref, h)
  | Some arr =>
      match totalTokens_h arr 0 h with
      | (Thrown e, h') => (Thrown e, h')
      | (Done total, h') =>
          if (MAX_CONTEXT_TOKENS <? total) && (1 <? length arr)%nat then
            match findIndex_h arr h' with
            | (Thrown e, h'') => (Thrown e, h'')
            | (Done None, h'') => (Done tt, h'')
            | (Done (Some i), h'') =>
                match fuel with
                | O => (Thrown out_of_fuel, h'')
                | S fuel' => while_loop fuel' pruned (set_array h'' pruned (splice1 i arr))
                end
            end
          else (Done tt, h')
      end
  end.
Proof.
  destruct fuel; cbn [while_loop]; unfold bind at 1; unfold read_array at 1;
    (destruct (arrays h !! pruned) as [arr|]; [|reflexivity]);
    unfold bind at 1;
    (destruct (totalTokens_h arr 0 h) as [[total|e] h']; [|reflexivity]);
    (destruct ((MAX_CONTEXT_TOKENS <? total) && (1 <? length arr)%nat); [|reflexivity]);
    unfold bind at 1;
    (destruct (findIndex_h arr h') as [[[i|]|e] h'']; reflexivity).
Qed.

(** The loop on the store does what [prune_loop] does on the
    conversation the array denotes, and writes only that array. *)
Lemma while_loop_spec a ms :
  forall fuel refs h,
    arrays h !! a = Some refs ->
    deref h refs = Some ms ->
    (length refs <= fuel)%nat ->
    exists out refs',
      while_loop fuel a h = (out, set_array h a refs') /\
      (refs' `sublist_of` refs) /\
      match prune_loop ms with
      | Some ms' => out = Done tt /\ deref h refs' = Some ms'
      | None => out = Thrown undefined_length
      end.
Proof.
  funelim (prune_loop ms); intros fuel refs h Harr Hder Hfuel;
    rewrite while_loop_eq, Harr, (totalTokens_h_spec h refs pruned Hder).
  - (* the cost cannot be computed *)
    rewrite Heq.
    exists (Thrown undefined_length), refs.
    rewrite (set_array_id _ _ _ Harr). repeat split; eauto.
  - (* within budget, or one message left *)
    rewrite Heq0, Z.add_0_l, (deref_length _ _ _ Hder), Heq.
    exists (Done tt), refs. rewrite (set_array_id _ _ _ Harr). repeat split; auto.
  - (* drop the oldest non-system message *)
    rewrite Heq0, Z.add_0_l, (deref_length _ _ _ Hder), Heq.
    rewrite (findIndex_h_spec h refs pruned Hder), Hidx.
    pose proof (deref_length _ _ _ Hder) as Hlen.
    apply andb_true_iff in Heq. destruct Heq as [_ Hmany]. apply Nat.ltb_lt in Hmany.
    destruct fuel as [|fuel]; [lia|].
    assert (Hlt : (a < length (arrays h))%nat) by (eapply lookup_lt_Some; exact Harr).
    match goal with IH : context [while_loop] |- _ =>
      destruct (IH a fuel (splice1 idx refs) (set_array h a (splice1 idx refs)))
        as (out & refs' & Hrun & Hsub & Hres) end.
    + unfold set_array. cbn [arrays]. apply list_lookup_insert_eq. exact Hlt.
    + apply (deref_splice1 h). exact Hder.
    + pose proof (findIndex_lt _ _ _ Hidx) as Hin. rewrite splice1_length by lia. lia.
    + exists out, refs'. rewrite Hrun, set_array_twice. split; [reflexivity|].
      split; [etransitivity; [exact Hsub|apply splice1_sublist]|].
      exact Hres.
  - (* nothing left to drop *)
    rewrite Heq0, Z.add_0_l, (deref_length _ _ _ Hder), Heq.
    match goal with Hnone : findIndex _ _ = None |- _ =>
      rewrite (findIndex_h_spec h refs pruned Hder), Hnone end.
    exists (Done tt), refs. rewrite (set_array_id _ _ _ Harr). repeat split; auto.
Qed.

Lemma deref_clones objs clones arrs :
  deref {| objects := objs ++ clones; arrays := arrs |} (seq (length objs) (length clones))
  = Some clones.
Proof.
  apply deref_Forall2. cbn [objects].
  apply Forall2_same_length_lookup_2; [now rewrite length_seq|].
  intros i r m Hr Hm. apply lookup_seq in Hr. destruct Hr as [-> _].
  rewrite lookup_app_r by lia. rewrite <- Hm. f_equal. lia.
Qed.

Lemma deref_extend h h' refs ms :
  (forall r o, objects h !! r = Some o -> objects h' !! r = Some o) ->
  deref h refs = Some ms -> deref h' refs = Some ms.
Proof.
  intros Hext Hder. apply deref_Forall2. apply deref_Forall2 in Hder.
  eapply Forall2_impl; [exact Hder|]. intros r m. apply Hext.
Qed.

(** What [pruneConversation] does to the store, for any store and any
    array of messages in it. *)
Lemma pruneConversation_h_spec h messages arr msgs :
  arrays h !! messages = Some arr ->
  deref h arr = Some msgs ->
  exists out refs',
    pruneConversation_h messages h
    = (out, {| objects := objects h ++ map clipMessage msgs; arrays := arrays h ++ [refs'] |}) /\
    (refs' `sublist_of` seq (length (objects h)) (length msgs)) /\
    match pruneConversation msgs with
    | Some result =>
        out = Done (length (arrays h)) /\
        deref {| objects := objects h ++ map clipMessage msgs; arrays := arrays h ++ [refs'] |} refs'
        = Some result
    | None => out = Thrown undefined_length
    end.
Proof.
  intros Harr Hder. pose proof (deref_length _ _ _ Hder) as Hlen.
  set (h2 := copied h msgs (length arr)).
  assert (Hh2 : h2 = {| objects := objects h ++ map clipMessage msgs;
                        arrays := arrays h ++ [seq (length (objects h)) (length msgs)] |}).
  { unfold h2, copied. rewrite Hlen, firstn_all. reflexivity. }
  assert (Hcopy : copy_loop (length arr) messages (length (arrays h)) 0
                    {| objects := objects h; arrays := arrays h ++ [[]] |} = (Done tt, h2)).
  { pose proof (copy_loop_spec h messages arr msgs Harr Hder (length arr) 0) as H.
    unfold copied at 1 in H. cbn [take map seq] in H. rewrite app_nil_r in H.
    apply H; lia. }
  assert (Hcopies : arrays h2 !! length (arrays h) = Some (seq (length (objects h)) (length msgs))).
  { rewrite Hh2. cbn [arrays]. apply list_lookup_middle. reflexivity. }
  assert (Hclones : deref h2 (seq (length (objects h)) (length msgs)) = Some (map clipMessage msgs)).
  { rewrite Hh2. rewrite <- (length_map clipMessage msgs). apply deref_clones. }
  destruct (while_loop_spec (length (arrays h)) (map clipMessage msgs)
              (length (seq (length (objects h)) (length msgs)))
              (seq (length (objects h)) (length msgs)) h2 Hcopies Hclones (le_n _))
    as (out & refs' & Hrun & Hsub & Hres).
  assert (Hh3 : set_array h2 (length (arrays h)) refs'
                = {| objects := objects h ++ map clipMessage msgs; arrays := arrays h ++ [refs'] |}).
  { rewrite Hh2. unfold set_array. cbn [objects arrays].
    replace (length (arrays h)) with (length (arrays h) + 0)%nat at 1 by lia.
    rewrite insert_app_r. reflexivity. }
  exists (match out with Done _ => Done (length (arrays h)) | Thrown e => Thrown e end), refs'.
  split.
  { unfold pruneConversation_h. unfold bind at 1. unfold alloc_array at 1.
    unfold bind at 1. unfold read_array at 1. cbn [arrays].
    rewrite (lookup_app_l_Some _ _ _ _ Harr).
    unfold bind at 1. rewrite Hcopy.
    unfold bind at 1. unfold read_array at 1. rewrite Hcopies.
    unfold bind at 1. rewrite Hrun, Hh3. destruct out; reflexivity. }
  split; [exact Hsub|].
  unfold pruneConversation. destruct (prune_loop (map clipMessage msgs)) as [result|].
  - destruct Hres as [-> Hres]. split; [reflexivity|].
    rewrite <- Hh3. exact Hres.
  - rewrite Hres. reflexivity.
Qed.

(** C10: [pruneConversation] writes nothing that was there before the
    call.  For every store and every array of messages in it, all the
    objects and all the arrays of the store, the argument and its
    messages among them, are after the call what they were before; the
    array returned is a new one, it refers to new objects only, the
    clipped copies, and it denotes the conversation the function
    computes.  This holds as well when the call ends with the TypeError
    of a message without content, the only way it can fail. *)
Theorem pruneConversation_frame (h : Heap) (messages : ref)
    (arr : list ref) (msgs : list Message) :
  arrays h !! messages = Some arr ->
  deref h arr = Some msgs ->
  exists out h' fresh,
    pruneConversation_h messages h = (out, h') /\
    (forall r o, objects h !! r = Some o -> objects h' !! r = Some o) /\
    (forall a l, arrays h !! a = Some l -> arrays h' !! a = Some l) /\
    arrays h' !! messages = Some arr /\
    deref h' arr = Some msgs /\
    arrays h !! length (arrays h) = None /\
    arrays h' !! length (arrays h) = Some fresh /\
    Forall (fun r => objects h !! r = None) fresh /\
    match pruneConversation msgs with
    | Some result => out = Done (length (arrays h)) /\ deref h' fresh = Some result
    | None => out = Thrown undefined_length
    end.
Proof.
  intros Harr Hder.
  destruct (pruneConversation_h_spec h messages arr msgs Harr Hder)
    as (out & refs' & Hrun & Hsub & Hres).
  eexists out, _, refs'. split; [exact Hrun|].
  assert (Hobjs : forall r o, objects h !! r = Some o ->
            (objects h ++ map clipMessage msgs) !! r = Some o)
    by (intros r o; apply lookup_app_l_Some).
  split; [exact Hobjs|].
  split; [intros a l; cbn [arrays]; apply lookup_app_l_Some|].
  split; [cbn [arrays]; apply lookup_app_l_Some, Harr|].
  split; [eapply deref_extend; [|exact Hder]; exact Hobjs|].
  split; [apply lookup_ge_None; lia|].
  split; [cbn [arrays]; apply list_lookup_middle; reflexivity|].
  split; [|exact Hres].
  apply Forall_forall. intros r Hr.
  eapply elem_of_sublist in Hr; [|exact Hsub].
  apply elem_of_seq in Hr. apply lookup_ge_None. lia.
Qed.

Lemma pruneConversation_frame_witness :
  arrays sample_store !! 0%nat = Some [0%nat; 1%nat] /\
  deref sample_store [0%nat; 1%nat] = Some [system_message (JStr "be brief"); oversize_message] /\
  exists out h' fresh,
    pruneConversation_h 0%nat sample_store = (out, h') /\
    (forall r o, objects sample_store !! r = Some o -> objects h' !! r = Some o) /\
    (forall a l, arrays sample_store !! a = Some l -> arrays h' !! a = Some l) /\
    arrays h' !! 0%nat = Some [0%nat; 1%nat] /\
    deref h' [0%nat; 1%nat] = Some [system_message (JStr "be brief"); oversize_message] /\
    arrays sample_store !! length (arrays sample_store) = None /\
    arrays h' !! length (arrays sample_store) = Some fresh /\
    Forall (fun r => objects sample_store !! r = None) fresh /\
    match pruneConversation [system_message (JStr "be brief"); oversize_message] with
    | Some result => out = Done (length (arrays sample_store)) /\ deref h' fresh = Some result
    | None => out = Thrown undefined_length
    end.
Proof.
  assert (H1 : arrays sample_store !! 0%nat = Some [0%nat; 1%nat]) by reflexivity.
  assert (H2 : deref sample_store [0%nat; 1%nat]
               = Some [system_message (JStr "be brief"); oversize_message]) by reflexivity.
  split; [exact H1|]. split; [exact H2|].
  apply (pruneConversation_frame sample_store 0%nat [0%nat; 1%nat]
           [system_message (JStr "be brief"); oversize_message] H1 H2).
Defined.

(** The run on the sample store: the result is the new array [1] of the
    new objects [2] and [3]; the oversize original still costs 8001
    tokens, its copy was clipped to 8004. *)
Example sample_store_run :
  (let (out, h') := pruneConversation_h 0%nat sample_store in
   (out, arrays h', map msgTokens (objects h')))
  = (Done 1%nat, [[0%nat; 1%nat]; [2%nat; 3%nat]],
     [Some 3; Some 8001; Some 3; Some 8004]).
Proof. vm_compute. reflexivity. Qed.

End StoreFacts.

(* ================================================================== *)
(** * Further properties of the budget manager *)
(* ================================================================== *)

Module BudgetLaws.
Import JS Budget Notions Samples Observations BudgetFacts.

Lemma slice_to_app_exact (p t : string) :
  slice_to (p +:+ t) (String.length p) = p.
Proof. induction p as [|c p IH]; simpl; [destruct t; reflexivity|now rewrite IH]. Qed.

Lemma slice_to_slice_to s n : slice_to (slice_to s n +:+ truncation_marker) n
                              = slice_to s n \/ (String.length s < n)%nat.
Proof.
  destruct (le_lt_dec n (String.length s)) as [Hle|Hlt]; [left|right; exact Hlt].
  assert (Hlen : String.length (slice_to s n) = n).
  { rewrite slice_to_length. lia. }
  rewrite <- Hlen at 2. apply slice_to_app_exact.
Qed.

(** Clipping a second time changes nothing: the clipped text is cut at
    the same place and gets the same marker. *)
Lemma clipMessage_twice (m : Message) :
  clipMessage (clipMessage m) = clipMessage m.
Proof.
  destruct (content m) as [[| | |s| |]|] eqn:Hc;
    try (unfold clipMessage at 2; rewrite Hc; unfold clipMessage; rewrite Hc; reflexivity).
  destruct (MAX_SINGLE_MSG_TOKENS <? strTokens s) eqn:Hover.
  - apply Z.ltb_lt in Hover.
    rewrite (clipMessage_clipped m s Hc Hover).
    pose proof (clipped_cost s Hover) as [_ Hcost].
    erewrite clipMessage_clipped; [|reflexivity|rewrite Hcost; lia].
    unfold set_content; simpl. do 4 f_equal.
    destruct (slice_to_slice_to s (Z.to_nat (MAX_SINGLE_MSG_TOKENS * BYTES_PER_TOKEN))) as [H|H];
      [exact H|].
    apply over_ceiling_length in Hover. lia.
  - apply Z.ltb_ge in Hover.
    rewrite (clipMessage_untouched m); [|intros s' Hs'; congruence].
    apply clipMessage_untouched. intros s' Hs'. congruence.
Qed.

(** ** The order in which the loop drops messages *)

Lemma findIndex_split {A} (p : A -> bool) arr idx :
  findIndex p arr = Some idx ->
  exists pre x post,
    arr = pre ++ x :: post /\ Forall (fun y => p y = false) pre /\ p x = true /\
    splice1 idx arr = pre ++ post.
Proof.
  revert idx; induction arr as [|a rest IH]; intros idx; simpl; [discriminate|].
  destruct (p a) eqn:Ha.
  - intros [= <-]. exists [], a, rest. repeat split; auto.
  - destruct (findIndex p rest) as [i|]; simpl; [|discriminate].
    intros [= <-]. destruct (IH i eq_refl) as (pre & x & post & -> & Hpre & Hx & Hsp).
    exists (a :: pre), x, post. simpl. rewrite Hsp. repeat split; auto.
Qed.

Lemma filter_all_system l :
  Forall (fun y => non_system y = false) l -> List.filter is_system l = l.
Proof.
  induction 1 as [|x l Hx _ IH]; simpl; [reflexivity|].
  unfold is_system at 1. rewrite Hx. simpl. now rewrite IH.
Qed.

Lemma is_system_false x : non_system x = true -> is_system x = false.
Proof. unfold is_system. now intros ->. Qed.

Lemma prune_loop_oldest_first pruned r :
  prune_loop pruned = Some r ->
  exists front back, pruned = front ++ back /\ r = List.filter is_system front ++ back.
Proof.
  funelim (prune_loop pruned); try discriminate.
  - intros [= <-]. exists [], pruned. split; reflexivity.
  - intros Hr.
    match goal with IH : forall r, prune_loop _ = Some r -> _ |- _ =>
      destruct (IH _ Hr) as (front' & back' & Hsplit & ->) end.
    pose proof (findIndex_split _ _ _ Hidx) as (pre & x & post & Hp & Hpre & Hx & Hsp).
    rewrite Hsp in Hsplit. clear Hr. revert Hsplit. rewrite Hp. clear - Hpre Hx. intros Hsplit.
    apply List.app_eq_app in Hsplit. destruct Hsplit as (l & [[-> ->]|[-> ->]]).
    + (* the cut lies inside the system prefix *)
      exists (front' ++ l ++ [x]), post. split.
      * rewrite <- !List.app_assoc. reflexivity.
      * apply Forall_app in Hpre. destruct Hpre as [Hf Hl].
        rewrite !List.filter_app. cbn [List.filter]. rewrite (is_system_false x Hx).
        rewrite app_nil_r, (filter_all_system l Hl), <- List.app_assoc. reflexivity.
    + (* the cut lies behind the message removed *)
      exists (pre ++ x :: l), back'. split.
      * rewrite <- List.app_assoc. reflexivity.
      * rewrite !List.filter_app. cbn [List.filter]. rewrite (is_system_false x Hx).
        rewrite <- List.app_assoc. reflexivity.
  - intros [= <-]. exists [], pruned. split; reflexivity.
Qed.

Lemma filter_twice {A} (p : A -> bool) l :
  List.filter p (List.filter p l) = List.filter p l.
Proof.
  induction l as [|x l IH]; [reflexivity|]. cbn [List.filter].
  destruct (p x) eqn:Hx; [cbn [List.filter]; rewrite Hx; now f_equal|exact IH].
Qed.

Lemma filter_is_system_clip messages :
  List.filter is_system (map clipMessage messages)
  = map clipMessage (List.filter is_system messages).
Proof.
  induction messages as [|m l IH]; [reflexivity|].
  rewrite map_cons. cbn [List.filter].
  assert (Hsame : is_system (clipMessage m) = is_system m).
  { unfold is_system, non_system. now rewrite clipMessage_role. }
  rewrite Hsame. destruct (is_system m); [rewrite map_cons|]; now rewrite IH.
Qed.

Lemma prune_loop_length pruned r :
  prune_loop pruned = Some r ->
  (length r <= length pruned)%nat /\ (pruned <> [] -> r <> []).
Proof.
  funelim (prune_loop pruned); try discriminate.
  - intros [= <-]. auto.
  - intros Hr.
    match goal with IH : forall r, prune_loop _ = Some r -> _ |- _ =>
      destruct (IH _ Hr) as [Hlen Hne] end.
    pose proof (findIndex_lt _ _ _ Hidx) as Hlt.
    pose proof (splice1_length _ _ Hlt) as Hsl.
    apply andb_true_iff in Heq. destruct Heq as [_ Hmany]. apply Nat.ltb_lt in Hmany.
    split; [lia|]. intros _. apply Hne. intros Hnil. rewrite Hnil in Hsl. simpl in Hsl. lia.
  - intros [= <-]. auto.
Qed.

(** X1.  Messages are dropped oldest first: what [pruneConversation] returns
    is the clipped conversation with the non-system messages of some
    front part removed; everything behind that front part, and every
    system message, is still there, in the original order.  The result
    is never longer than the conversation, and never empty when the
    conversation has a message. *)
Theorem pruneConversation_oldest_first (messages pruned : list Message) :
  pruneConversation messages = Some pruned ->
  (exists front back,
     map clipMessage messages = front ++ back /\
     pruned = List.filter is_system front ++ back) /\
  List.filter is_system pruned = map clipMessage (List.filter is_system messages) /\
  (length pruned <= length messages)%nat /\
  (messages <> [] -> pruned <> []).
Proof.
  unfold pruneConversation. intros Hr.
  destruct (prune_loop_length _ _ Hr) as [Hlen Hne].
  destruct (prune_loop_oldest_first _ _ Hr) as (front & back & Hsplit & Hpruned).
  split; [exists front, back; split; [exact Hsplit|exact Hpruned]|].
  split.
  - rewrite Hpruned, <- filter_is_system_clip, Hsplit, !List.filter_app.
    f_equal. apply filter_twice.
  - rewrite length_map in Hlen. split; [exact Hlen|].
    intros Hm. apply Hne. destruct messages; [contradiction|discriminate].
Qed.

Lemma pruneConversation_oldest_first_witness :
  pruneConversation [system_message (JStr "be brief"); user_message (JStr "hi")]
    = Some [system_message (JStr "be brief"); user_message (JStr "hi")] /\
  (exists front back,
     map clipMessage [system_message (JStr "be brief"); user_message (JStr "hi")] = front ++ back /\
     [system_message (JStr "be brief"); user_message (JStr "hi")]
       = List.filter is_system front ++ back) /\
  List.filter is_system [system_message (JStr "be brief"); user_message (JStr "hi")]
    = map clipMessage (List.filter is_system
                         [system_message (JStr "be brief"); user_message (JStr "hi")]) /\
  (length [system_message (JStr "be brief"); user_message (JStr "hi")]
   <= length [system_message (JStr "be brief"); user_message (JStr "hi")])%nat /\
  ([system_message (JStr "be brief"); user_message (JStr "hi")] <> [] ->
   [system_message (JStr "be brief"); user_message (JStr "hi")] <> []).
Proof.
  assert (H : pruneConversation [system_message (JStr "be brief"); user_message (JStr "hi")]
              = Some [system_message (JStr "be brief"); user_message (JStr "hi")]).
  { apply prune_loop_within with (total := 4); [vm_compute; reflexivity|unfold MAX_CONTEXT_TOKENS; lia]. }
  split; [exact H|].
  exact (pruneConversation_oldest_first _ _ H).
Defined.

(** ** When the call fails *)

Lemma defined_or_undefined (messages : list Message) :
  Forall (fun m => content m <> None) messages \/ Exists (fun m => content m = None) messages.
Proof.
  induction messages as [|m l [IH|IH]].
  - left. constructor.
  - destruct (content m) eqn:Hc.
    + left. constructor; [congruence|exact IH].
    + right. apply Exists_cons_hd. exact Hc.
  - right. apply Exists_cons_tl. exact IH.
Qed.

(** X2.  [pruneConversation] throws exactly when some message has no
    content; otherwise it returns. *)
Theorem pruneConversation_throws_iff (messages : list Message) :
  pruneConversation messages = None <-> Exists (fun m => content m = None) messages.
Proof.
  split.
  - intros Hnone. destruct (defined_or_undefined messages) as [Hdef|Hex]; [|exact Hex].
    destruct (pruneConversation_returns messages Hdef) as (r & t & Hr & _). congruence.
  - apply pruneConversation_throws.
Qed.

(** ** Pruning twice *)

Lemma prune_loop_all_system pruned :
  is_Some (totalTokens pruned) -> findIndex non_system pruned = None ->
  prune_loop pruned = Some pruned.
Proof.
  intros [t Ht] Hnone. funelim (prune_loop pruned); try congruence.
Qed.

Lemma prune_loop_fixed pruned r :
  prune_loop pruned = Some r -> prune_loop r = Some r.
Proof.
  funelim (prune_loop pruned); try discriminate.
  - intros [= <-]. apply andb_false_iff in Heq. destruct Heq as [Hc|Hc].
    + apply (prune_loop_within pruned total); [assumption|lia].
    + apply prune_loop_short; [apply Nat.ltb_ge in Hc; exact Hc|eauto].
  - intros Hr. match goal with IH : forall r, prune_loop _ = Some r -> _ |- _ => exact (IH _ Hr) end.
  - intros [= <-]. apply prune_loop_all_system; eauto.
Qed.

(** X3.  Pruning is idempotent: what [pruneConversation] returns, it returns
    unchanged when called on it again. *)
Theorem pruneConversation_idempotent (messages pruned : list Message) :
  pruneConversation messages = Some pruned ->
  pruneConversation pruned = Some pruned.
Proof.
  unfold pruneConversation. intros Hr.
  assert (Hclipped : map clipMessage pruned = pruned).
  { destruct (prune_loop_keeps_system _ _ Hr) as [Hsub _].
    assert (Hall : Forall (fun m => clipMessage m = m) (map clipMessage messages)).
    { apply Forall_forall. intros m Hm. apply list_elem_of_fmap in Hm.
      destruct Hm as (m0 & -> & _). apply clipMessage_twice. }
    assert (Hr_all : Forall (fun m => clipMessage m = m) pruned).
    { apply Forall_forall. intros m Hm. eapply Forall_forall in Hall; [exact Hall|].
      eapply elem_of_sublist; eauto. }
    clear - Hr_all. induction Hr_all as [|m l Hm _ IH]; simpl; [reflexivity|].
    now rewrite Hm, IH. }
  rewrite Hclipped. eapply prune_loop_fixed; eauto.
Qed.

Lemma pruneConversation_idempotent_witness :
  pruneConversation [oversize_message] = Some [clipMessage oversize_message] /\
  pruneConversation [clipMessage oversize_message] = Some [clipMessage oversize_message].
Proof.
  assert (H : pruneConversation [oversize_message] = Some [clipMessage oversize_message]).
  { apply prune_loop_short; [simpl; lia|].
    apply totalTokens_is_Some. repeat constructor. apply clipMessage_defined. discriminate. }
  split; [exact H|].
  exact (pruneConversation_idempotent _ _ H).
Defined.

End BudgetLaws.

(* ================================================================== *)
(** * Further properties of tool namespacing *)
(* ================================================================== *)

Module NamingLaws.
Import JS Naming Notions NamingFacts.

(** X4.  The names that decode to the pair they were built from are exactly
    those of providers whose id holds no underscore; the tools of a
    provider whose id holds one are looked up under another provider
    id. *)
Theorem roundtrip_iff_clean (serverId toolName : string) :
  (decode (encode serverId toolName) = (serverId, toolName)
   <-> has_char "_" serverId = false) /\
  (has_char "_" serverId = true ->
   fst (decode (encode serverId toolName)) <> serverId).
Proof.
  split; [split|].
  - intros Hdec. pose proof (decode_provider_clean (encode serverId toolName)) as Hclean.
    rewrite Hdec in Hclean. exact Hclean.
  - intros Hclean. unfold decode, encode.
    change ("_" +:+ toolName) with (String "_" toolName).
    rewrite (split_first _ _ _ Hclean).
    f_equal. apply (join_split "_" toolName).
  - intros Hheld Hsame.
    pose proof (decode_provider_clean (encode serverId toolName)) as Hclean.
    rewrite Hsame in Hclean. congruence.
Qed.

End NamingLaws.

(* ================================================================== *)
(** * Further properties of the registry and its endpoints *)
(* ================================================================== *)

Module RegistryLaws.
Import JS Budget Eff Naming Server Notions Samples Observations ServerFacts.

(** ** Keys *)

(** [extractServerId] inverts the construction of the key, and throws on
    every key that was not built for the session. *)
Lemma extractServerId_inverse (key sessionId id : string) :
  extractServerId key sessionId = Done id <-> key = keyOf sessionId id.
Proof.
  split.
  - unfold extractServerId. destruct (startsWith key (sessionId +:+ "-")) eqn:Hpre; [|discriminate].
    intros [= <-]. rewrite keyOf_prefix. apply startsWith_inv. exact Hpre.
  - intros ->. apply extractServerId_keyOf.
Qed.

(** ** The registry as a map *)

Lemma Map_delete_absent m key : Map_get m key = None -> Map_delete m key = m.
Proof.
  induction m as [|[k c] m IH]; simpl; [reflexivity|].
  destruct (String.eqb k key) eqn:Hk; [discriminate|].
  intros H. simpl. now rewrite (IH H).
Qed.

Lemma Map_delete_set m key c :
  Map_get m key = None -> Map_delete (Map_set m key c) key = m.
Proof.
  induction m as [|[k c0] m IH]; simpl.
  - intros _. now rewrite String.eqb_refl.
  - destruct (String.eqb k key) eqn:Hk; [discriminate|].
    intros H. simpl. rewrite Hk. simpl. now rewrite (IH H).
Qed.

Lemma Map_has_false m key : Map_has m key = false <-> Map_get m key = None.
Proof. unfold Map_has. destruct (Map_get m key); split; congruence. Qed.

(** ** Connecting *)

Lemma connect_loop_cons E sessionId id ids w :
  connect_loop E sessionId (id :: ids) w =
  match connect_loop E sessionId ids (snd (connect_one E sessionId id w)) with
  | (Done rs, w2) => (Done ((id, fst (connect_one E sessionId id w)) :: rs), w2)
  | (Thrown e, w2) => (Thrown e, w2)
  end.
Proof.
  cbn [connect_loop]. unfold connect_one, bind at 1, get.
  destruct (Map_has (registry w) (keyOf sessionId id)); [reflexivity|].
  unfold bind at 1, try_catch, connectToMCPServer, normalizeServerConfig.
  destruct (fetchMCPServerDetails E id) as [server|]; [|reflexivity].
  destruct (String.eqb (cfg_command server) EmptyString); [reflexivity|].
  unfold bind, emit, modify, lift, registry_set, ret. simpl.
  destruct (client_connect E server); reflexivity.
Qed.

Lemma connect_one_spec E sessionId id w :
  exists new,
    events (snd (connect_one E sessionId id w)) = events w ++ new /\
    (forall key c, Map_get (registry w) key = Some c ->
                   Map_get (registry (snd (connect_one E sessionId id w))) key = Some c) /\
    (fst (connect_one E sessionId id w) = Connected \/
     fst (connect_one E sessionId id w) = AlreadyConnected ->
     Map_has (registry (snd (connect_one E sessionId id w))) (keyOf sessionId id) = true) /\
    (forall key, Map_has (registry (snd (connect_one E sessionId id w))) key = true ->
                 Map_has (registry w) key = true \/
                 (key = keyOf sessionId id /\ fst (connect_one E sessionId id w) = Connected)) /\
    (forall id', Spawned id' ∈ new ->
                 id' = id /\ launchable E id /\ Map_has (registry w) (keyOf sessionId id) = false) /\
    Forall (fun ev => exists id', ev = Spawned id') new.
Proof.
  unfold connect_one.
  destruct (Map_has (registry w) (keyOf sessionId id)) eqn:Hhas.
  { exists []. simpl. rewrite app_nil_r. repeat split; auto;
      try (intros [H|H]; discriminate);
      try match goal with H : _ ∈ [] |- _ => inversion H end;
      try constructor. }
  destruct (fetchMCPServerDetails E id) as [server|] eqn:Hfetch.
  2:{ exists []. simpl. rewrite app_nil_r. repeat split; auto;
      try (intros [H|H]; discriminate);
      try match goal with H : _ ∈ [] |- _ => inversion H end;
      try constructor. }
  destruct (String.eqb (cfg_command server) EmptyString) eqn:Hcmd.
  { exists []. simpl. rewrite app_nil_r. repeat split; auto;
      try (intros [H|H]; discriminate);
      try match goal with H : _ ∈ [] |- _ => inversion H end;
      try constructor. }
  assert (Hsp : forall id', Spawned id' ∈ [Spawned id] ->
                 id' = id /\ launchable E id /\ false = false).
  { intros id' Hin. apply list_elem_of_singleton in Hin. injection Hin as ->.
    repeat split. exists server. split; [exact Hfetch|exact Hcmd]. }
  destruct (client_connect E server) as [c|e]; exists [Spawned id]; cbn [fst snd registry events].
  - split; [reflexivity|]. split; [|split; [|split; [|split]]].
    + intros key c0 Hget. rewrite Map_get_set_ne; [exact Hget|].
      intros <-. apply Map_has_false in Hhas. congruence.
    + intros _. apply Map_has_true. exists c. apply Map_get_set_eq.
    + intros key Hkey. destruct (String.eqb_spec (keyOf sessionId id) key) as [<-|Hne].
      * right. split; reflexivity.
      * left. apply Map_has_true in Hkey. destruct Hkey as [c0 Hc0].
        rewrite Map_get_set_ne in Hc0 by exact Hne. apply Map_has_true. eauto.
    + exact Hsp.
    + repeat constructor. eauto.
  - split; [reflexivity|]. split; [|split; [|split; [|split]]].
    + auto.
    + intros [H|H]; discriminate.
    + auto.
    + exact Hsp.
    + repeat constructor. eauto.
Qed.

(** X5.  /api/mcp/connect never answers with an error for a well-formed
    body: it reports one status per requested id, in order; it keeps
    every entry the registry had; afterwards the registry holds an entry
    for every id reported connected or already connected, and no new
    key except those of the ids reported connected. *)
Theorem connect_reports_every_id (E : Env) (sessionId : string) (ids : list string) (w : World) :
  sessionId <> EmptyString ->
  exists results w',
    api_mcp_connect E sessionId (Some ids) w = (Ok results, w') /\
    map fst results = ids /\
    (forall key c, Map_get (registry w) key = Some c -> Map_get (registry w') key = Some c) /\
    (forall id, (id, Connected) ∈ results \/ (id, AlreadyConnected) ∈ results ->
                Map_has (registry w') (keyOf sessionId id) = true) /\
    (forall key, Map_has (registry w') key = true ->
                 Map_has (registry w) key = true \/
                 exists id, key = keyOf sessionId id /\ (id, Connected) ∈ results).
Proof.
  intros Hs. unfold api_mcp_connect.
  destruct (String.eqb_spec sessionId EmptyString) as [|_]; [contradiction|].
  unfold handle.
  assert (Hloop : exists results w',
    connect_loop E sessionId ids w = (Done results, w') /\
    map fst results = ids /\
    (forall key c, Map_get (registry w) key = Some c -> Map_get (registry w') key = Some c) /\
    (forall id, (id, Connected) ∈ results \/ (id, AlreadyConnected) ∈ results ->
                Map_has (registry w') (keyOf sessionId id) = true) /\
    (forall key, Map_has (registry w') key = true ->
                 Map_has (registry w) key = true \/
                 exists id, key = keyOf sessionId id /\ (id, Connected) ∈ results)).
  { clear Hs. revert w. induction ids as [|id ids IH]; intros w.
    - exists [], w. simpl. repeat split; auto.
      intros id [H|H]; inversion H.
    - rewrite connect_loop_cons.
      destruct (connect_one_spec E sessionId id w) as (new & _ & Hkeep & Hin & Honly & _).
      destruct (connect_one E sessionId id w) as [r w1]. cbn [fst snd] in *.
      destruct (IH w1) as (rs & w2 & -> & Hfst & Hkeep2 & Hin2 & Honly2).
      exists ((id, r) :: rs), w2. split; [reflexivity|].
      split; [simpl; now rewrite Hfst|].
      split; [intros key c H; apply Hkeep2, Hkeep, H|].
      split.
      + intros id' Hid'.
        assert (Hcase : (id' = id /\ (r = Connected \/ r = AlreadyConnected)) \/
                        ((id', Connected) ∈ rs \/ (id', AlreadyConnected) ∈ rs)).
        { destruct Hid' as [H|H]; apply elem_of_cons in H; destruct H as [H|H].
          - injection H as -> <-. left; auto.
          - right; left; exact H.
          - injection H as -> <-. left; auto.
          - right; right; exact H. }
        destruct Hcase as [[-> Hr]|Hrs]; [|apply Hin2, Hrs].
        specialize (Hin Hr). apply Map_has_true in Hin. destruct Hin as [c Hc].
        apply Map_has_true. exists c. apply Hkeep2, Hc.
      + intros key Hkey. destruct (Honly2 key Hkey) as [H1|(id' & -> & Hid')].
        * destruct (Honly key H1) as [H0|[-> ->]]; [left; exact H0|].
          right. exists id. split; [reflexivity|]. apply elem_of_cons. left; reflexivity.
        * right. exists id'. split; [reflexivity|]. apply elem_of_cons. right; exact Hid'. }
  destruct Hloop as (results & w' & -> & H). exists results, w'. split; [reflexivity|exact H].
Qed.

Lemma connect_reports_every_id_witness :
  "s1" <> EmptyString /\
  exists results w',
    api_mcp_connect (sample_env no_model) "s1" (Some ["filesystem"; "nowhere"]) empty_world
      = (Ok results, w') /\
    map fst results = ["filesystem"; "nowhere"] /\
    (forall key c, Map_get (registry empty_world) key = Some c -> Map_get (registry w') key = Some c) /\
    (forall id, (id, Connected) ∈ results \/ (id, AlreadyConnected) ∈ results ->
                Map_has (registry w') (keyOf "s1" id) = true) /\
    (forall key, Map_has (registry w') key = true ->
                 Map_has (registry empty_world) key = true \/
                 exists id, key = keyOf "s1" id /\ (id, Connected) ∈ results).
Proof.
  split; [discriminate|].
  apply (connect_reports_every_id (sample_env no_model) "s1" ["filesystem"; "nowhere"] empty_world).
  discriminate.
Defined.

Lemma connect_one_status E sessionId id w :
  match fst (connect_one E sessionId id w) with
  | AlreadyConnected => Map_has (registry w) (keyOf sessionId id) = true
  | Connected =>
      exists server c,
        fetchMCPServerDetails E id = Some server /\
        client_connect E server = Done c /\
        Map_get (registry (snd (connect_one E sessionId id w))) (keyOf sessionId id) = Some c
  | Failed e =>
      (fetchMCPServerDetails E id = None /\ e = "MCP server " +:+ id +:+ " not found") \/
      exists server,
        fetchMCPServerDetails E id = Some server /\
        (cfg_command server = EmptyString \/ client_connect E server = Thrown e)
  end.
Proof.
  unfold connect_one.
  destruct (Map_has (registry w) (keyOf sessionId id)) eqn:Hhas; [reflexivity|].
  destruct (fetchMCPServerDetails E id) as [server|]; [|left; split; reflexivity].
  destruct (String.eqb_spec (cfg_command server) EmptyString) as [Hcmd|Hcmd].
  { right. exists server. split; [reflexivity|left; exact Hcmd]. }
  destruct (client_connect E server) as [c|e] eqn:Hconn; cbn [fst snd registry].
  - exists server, c. split; [reflexivity|split; [exact Hconn|apply Map_get_set_eq]].
  - right. exists server. split; [reflexivity|right; exact Hconn].
Qed.

(** X6.  Every status of /api/mcp/connect has its reason: a failure is an
    unknown id, a catalogue entry without command, or a handshake that
    threw (and then its message is the one reported); a success put the
    client the handshake returned under the key of the id.  The only
    processes spawned are those of requested ids that the catalogue can
    launch. *)
Theorem connect_statuses_explained (E : Env) (sessionId : string) (ids : list string) (w : World) :
  sessionId <> EmptyString ->
  exists results w' new,
    api_mcp_connect E sessionId (Some ids) w = (Ok results, w') /\
    events w' = events w ++ new /\
    (forall id e, (id, Failed e) ∈ results ->
       (fetchMCPServerDetails E id = None /\ e = "MCP server " +:+ id +:+ " not found") \/
       exists server,
         fetchMCPServerDetails E id = Some server /\
         (cfg_command server = EmptyString \/ client_connect E server = Thrown e)) /\
    (forall id, (id, Connected) ∈ results ->
       exists server c,
         fetchMCPServerDetails E id = Some server /\
         client_connect E server = Done c /\
         Map_get (registry w') (keyOf sessionId id) = Some c) /\
    (forall ev, ev ∈ new -> exists id, ev = Spawned id /\ id ∈ ids /\ launchable E id).
Proof.
  intros Hs. unfold api_mcp_connect.
  destruct (String.eqb_spec sessionId EmptyString) as [|_]; [contradiction|].
  unfold handle.
  assert (Hloop : exists results w' new,
    connect_loop E sessionId ids w = (Done results, w') /\
    events w' = events w ++ new /\
    (forall key c, Map_get (registry w) key = Some c -> Map_get (registry w') key = Some c) /\
    (forall id e, (id, Failed e) ∈ results ->
       (fetchMCPServerDetails E id = None /\ e = "MCP server " +:+ id +:+ " not found") \/
       exists server,
         fetchMCPServerDetails E id = Some server /\
         (cfg_command server = EmptyString \/ client_connect E server = Thrown e)) /\
    (forall id, (id, Connected) ∈ results ->
       exists server c,
         fetchMCPServerDetails E id = Some server /\
         client_connect E server = Done c /\
         Map_get (registry w') (keyOf sessionId id) = Some c) /\
    (forall ev, ev ∈ new -> exists id, ev = Spawned id /\ id ∈ ids /\ launchable E id)).
  { clear Hs. revert w. induction ids as [|id ids IH]; intros w.
    - exists [], w, []. simpl. rewrite app_nil_r. repeat split; auto.
      all: intros; match goal with H : _ ∈ [] |- _ => inversion H end.
    - rewrite connect_loop_cons.
      destruct (connect_one_spec E sessionId id w) as (new1 & Hev1 & Hkeep1 & _ & _ & Hsp1 & Hall1).
      pose proof (connect_one_status E sessionId id w) as Hstatus.
      destruct (connect_one E sessionId id w) as [r w1]. cbn [fst snd] in *.
      destruct (IH w1) as (rs & w2 & new2 & -> & Hev2 & Hkeep2 & Hfail2 & Hconn2 & Hsp2).
      exists ((id, r) :: rs), w2, (new1 ++ new2). split; [reflexivity|].
      split; [rewrite Hev2, Hev1; symmetry; apply List.app_assoc|].
      split; [intros key c H; apply Hkeep2, Hkeep1, H|].
      split; [|split].
      + intros id' e Hin. apply elem_of_cons in Hin. destruct Hin as [Hin|Hin].
        * injection Hin as -> <-. exact Hstatus.
        * exact (Hfail2 id' e Hin).
      + intros id' Hin. apply elem_of_cons in Hin. destruct Hin as [Hin|Hin].
        * injection Hin as -> <-. destruct Hstatus as (server & c & Hf & Hc & Hget).
          exists server, c. repeat split; auto.
        * exact (Hconn2 id' Hin).
      + intros ev Hin. apply elem_of_app in Hin. destruct Hin as [Hin|Hin].
        * eapply Forall_forall in Hall1; [|exact Hin]. destruct Hall1 as [id' ->].
          destruct (Hsp1 id' Hin) as (-> & Hl & _).
          exists id. repeat split; [apply elem_of_cons; left; reflexivity|exact Hl].
        * destruct (Hsp2 ev Hin) as (id' & -> & Hid' & Hl).
          exists id'. repeat split; [apply elem_of_cons; right; exact Hid'|exact Hl]. }
  destruct Hloop as (results & w' & new & -> & Hev & _ & H).
  exists results, w', new. split; [reflexivity|]. split; [exact Hev|exact H].
Qed.

Lemma connect_statuses_explained_witness :
  "s1" <> EmptyString /\
  exists results w' new,
    api_mcp_connect (sample_env no_model) "s1" (Some ["filesystem"; "nowhere"]) empty_world
      = (Ok results, w') /\
    events w' = events empty_world ++ new /\
    (forall id e, (id, Failed e) ∈ results ->
       (fetchMCPServerDetails (sample_env no_model) id = None /\
        e = "MCP server " +:+ id +:+ " not found") \/
       exists server,
         fetchMCPServerDetails (sample_env no_model) id = Some server /\
         (cfg_command server = EmptyString \/
          client_connect (sample_env no_model) server = Thrown e)) /\
    (forall id, (id, Connected) ∈ results ->
       exists server c,
         fetchMCPServerDetails (sample_env no_model) id = Some server /\
         client_connect (sample_env no_model) server = Done c /\
         Map_get (registry w') (keyOf "s1" id) = Some c) /\
    (forall ev, ev ∈ new ->
       exists id, ev = Spawned id /\ id ∈ ["filesystem"; "nowhere"] /\
                  launchable (sample_env no_model) id).
Proof.
  split; [discriminate|].
  apply (connect_statuses_explained (sample_env no_model) "s1" ["filesystem"; "nowhere"] empty_world).
  discriminate.
Defined.

(** ** Disconnecting the ids of a request *)

Lemma keyOf_inj_id sessionId id id' : keyOf sessionId id = keyOf sessionId id' -> id = id'.
Proof.
  intros H. pose proof (extractServerId_keyOf sessionId id) as H1.
  rewrite H, extractServerId_keyOf in H1. congruence.
Qed.

Lemma key_of_id_Some sessionId id : key_of_id sessionId (Some id) = keyOf sessionId id.
Proof. reflexivity. Qed.

Lemma disconnect_loop_reported E sessionId :
  (forall c, client_close E c = Done tt) ->
  forall ids w disconnected w',
    disconnect_loop E sessionId (map Some ids) w = (Done disconnected, w') ->
    forall id, Some id ∈ disconnected <->
               id ∈ ids /\ Map_has (registry w) (keyOf sessionId id) = true.
Proof.
  intros Hclose. induction ids as [|id0 ids IH]; intros w disconnected w'.
  - simpl. intros [= <- <-] id. split; [intros H; inversion H|intros [H _]; inversion H].
  - rewrite map_cons, disconnect_loop_cons, !key_of_id_Some.
    destruct (Map_get (registry w) (keyOf sessionId id0)) as [c|] eqn:Hget.
    + rewrite Hclose.
      destruct (disconnect_loop E sessionId (map Some ids) _) as [[more|e] w2] eqn:Hrest;
        [|discriminate].
      intros [= <- <-] id. specialize (IH _ _ _ Hrest id). cbn [registry] in IH.
      rewrite elem_of_cons, IH, elem_of_cons. split.
      * intros [[= ->]|[Hin Hhas]].
        -- split; [left; reflexivity|]. apply Map_has_true. eauto.
        -- split; [right; exact Hin|]. apply Map_has_true in Hhas. destruct Hhas as [c' Hc'].
           destruct (String.eqb_spec (keyOf sessionId id0) (keyOf sessionId id)) as [Heq|Hne].
           ++ rewrite <- Heq, Map_get_delete_eq in Hc'. discriminate.
           ++ rewrite Map_get_delete_ne in Hc' by exact Hne. apply Map_has_true. eauto.
      * intros [[->|Hin] Hhas]; [left; reflexivity|].
        destruct (String.eqb_spec id id0) as [->|Hne]; [left; reflexivity|].
        right. split; [exact Hin|]. apply Map_has_true in Hhas. destruct Hhas as [c' Hc'].
        apply Map_has_true. exists c'. rewrite Map_get_delete_ne; [exact Hc'|].
        intros Heq. apply keyOf_inj_id in Heq. congruence.
    + intros Hrest id. rewrite (IH _ _ _ Hrest id), elem_of_cons. split.
      * intros [Hin Hhas]. split; [right; exact Hin|exact Hhas].
      * intros [[->|Hin] Hhas]; [|split; assumption].
        apply Map_has_true in Hhas. destruct Hhas as [c' Hc']. congruence.
Qed.

(** X7.  /api/mcp/disconnect with a list of ids, when the clients close:
    afterwards none of the listed ids has an entry, whatever characters
    the ids hold; the client of every listed id that was connected has
    been closed; the entries of all other keys are as before; and the
    answer names exactly the listed ids that were connected. *)
Theorem disconnect_listed (E : Env) (sessionId : string) (ids : list string) (w : World) :
  sessionId <> EmptyString ->
  (forall c, client_close E c = Done tt) ->
  exists disconnected w' new,
    api_mcp_disconnect E sessionId (Some ids) w = (Ok disconnected, w') /\
    events w' = events w ++ new /\
    (forall id, id ∈ ids -> Map_get (registry w') (keyOf sessionId id) = None) /\
    (forall key, key ∉ map (keyOf sessionId) ids ->
                 Map_get (registry w') key = Map_get (registry w) key) /\
    (forall id c, id ∈ ids -> Map_get (registry w) (keyOf sessionId id) = Some c ->
                  Closed c ∈ new) /\
    (forall id, Some id ∈ disconnected <->
                id ∈ ids /\ Map_has (registry w) (keyOf sessionId id) = true).
Proof.
  intros Hs Hclose. unfold api_mcp_disconnect.
  destruct (String.eqb_spec sessionId EmptyString) as [|_]; [contradiction|].
  unfold handle, disconnect_ids.
  destruct (disconnect_loop_spec E sessionId (map Some ids) Hclose w)
    as (disconnected & w' & new & Hrun & Hev & Hgone & Hkept & Hclosed).
  assert (Hkeys : map (key_of_id sessionId) (map Some ids) = map (keyOf sessionId) ids).
  { rewrite List.map_map. reflexivity. }
  rewrite Hkeys in *.
  exists disconnected, w', new. rewrite Hrun. split; [reflexivity|].
  split; [exact Hev|].
  split; [intros id Hid; apply Hgone, list_elem_of_fmap_2, Hid|].
  split; [exact Hkept|].
  split; [intros id c Hid Hget; eapply Hclosed; [apply list_elem_of_fmap_2, Hid|exact Hget]|].
  apply (disconnect_loop_reported E sessionId Hclose ids w disconnected w' Hrun).
Qed.

Lemma disconnect_listed_witness :
  "s1" <> EmptyString /\
  (forall c, client_close (sample_env no_model) c = Done tt) /\
  exists disconnected w' new,
    api_mcp_disconnect (sample_env no_model) "s1" (Some ["brave-search"; "filesystem"])
                       connected_world = (Ok disconnected, w') /\
    events w' = events connected_world ++ new /\
    (forall id, id ∈ ["brave-search"; "filesystem"] ->
                Map_get (registry w') (keyOf "s1" id) = None) /\
    (forall key, key ∉ map (keyOf "s1") ["brave-search"; "filesystem"] ->
                 Map_get (registry w') key = Map_get (registry connected_world) key) /\
    (forall id c, id ∈ ["brave-search"; "filesystem"] ->
                  Map_get (registry connected_world) (keyOf "s1" id) = Some c ->
                  Closed c ∈ new) /\
    (forall id, Some id ∈ disconnected <->
                id ∈ ["brave-search"; "filesystem"] /\
                Map_has (registry connected_world) (keyOf "s1" id) = true).
Proof.
  split; [discriminate|]. split; [reflexivity|].
  apply (disconnect_listed (sample_env no_model) "s1" ["brave-search"; "filesystem"] connected_world).
  - discriminate.
  - reflexivity.
Defined.

(** ** Connecting, then disconnecting *)

(** X8.  A successful connect followed by the disconnect of the same id
    brings the registry back to what it was; in between the key of the
    id maps to the client of the handshake; the only effects are the
    spawn and the close of that client. *)
Theorem connect_disconnect_roundtrip (E : Env) (sessionId id : string) (w : World)
    (server : MCPServerConfig) (c : Client) :
  sessionId <> EmptyString ->
  Map_get (registry w) (keyOf sessionId id) = None ->
  fetchMCPServerDetails E id = Some server ->
  cfg_command server <> EmptyString ->
  client_connect E server = Done c ->
  client_close E c = Done tt ->
  exists w1,
    api_mcp_connect E sessionId (Some [id]) w = (Ok [(id, Connected)], w1) /\
    Map_get (registry w1) (keyOf sessionId id) = Some c /\
    api_mcp_disconnect E sessionId (Some [id]) w1
      = (Ok [Some id],
         {| registry := registry w; events := events w ++ [Spawned id; Closed c] |}).
Proof.
  intros Hs Hnone Hfetch Hcmd Hconn Hclose.
  unfold api_mcp_connect, api_mcp_disconnect.
  destruct (String.eqb_spec sessionId EmptyString) as [|_]; [contradiction|].
  unfold handle, disconnect_ids.
  rewrite connect_loop_cons. unfold connect_one.
  apply Map_has_false in Hnone. rewrite Hnone, Hfetch.
  destruct (String.eqb_spec (cfg_command server) EmptyString) as [|_]; [contradiction|].
  rewrite Hconn. cbn [fst snd connect_loop ret].
  eexists. split; [reflexivity|]. cbn [registry]. split; [apply Map_get_set_eq|].
  rewrite map_cons, disconnect_loop_cons, key_of_id_Some. cbn [registry events].
  rewrite Map_get_set_eq, Hclose. cbn [map disconnect_loop ret].
  rewrite Map_delete_set by (apply Map_has_false, Hnone).
  rewrite <- List.app_assoc. reflexivity.
Qed.

Lemma connect_disconnect_roundtrip_witness :
  "s1" <> EmptyString /\
  Map_get (registry empty_world) (keyOf "s1" "filesystem") = None /\
  fetchMCPServerDetails (sample_env no_model) "filesystem"
    = Some {| cfg_id := "filesystem"; cfg_command := "npx";
              cfg_args := ["-y"; "@modelcontextprotocol/server-filesystem"] |} /\
  cfg_command {| cfg_id := "filesystem"; cfg_command := "npx";
                 cfg_args := ["-y"; "@modelcontextprotocol/server-filesystem"] |} <> EmptyString /\
  client_connect (sample_env no_model)
    {| cfg_id := "filesystem"; cfg_command := "npx";
       cfg_args := ["-y"; "@modelcontextprotocol/server-filesystem"] |} = Done 10%nat /\
  client_close (sample_env no_model) 10%nat = Done tt /\
  exists w1,
    api_mcp_connect (sample_env no_model) "s1" (Some ["filesystem"]) empty_world
      = (Ok [("filesystem", Connected)], w1) /\
    Map_get (registry w1) (keyOf "s1" "filesystem") = Some 10%nat /\
    api_mcp_disconnect (sample_env no_model) "s1" (Some ["filesystem"]) w1
      = (Ok [Some "filesystem"],
         {| registry := registry empty_world;
            events := events empty_world ++ [Spawned "filesystem"; Closed 10%nat] |}).
Proof.
  split; [discriminate|]. split; [reflexivity|]. split; [reflexivity|].
  split; [discriminate|]. split; [reflexivity|]. split; [reflexivity|].
  apply (connect_disconnect_roundtrip (sample_env no_model) "s1" "filesystem" empty_world
           {| cfg_id := "filesystem"; cfg_command := "npx";
              cfg_args := ["-y"; "@modelcontextprotocol/server-filesystem"] |} 10%nat);
    try reflexivity; discriminate.
Defined.

(** ** A client that does not close *)

Lemma disconnect_loop_thrown E sessionId ids :
  forall w e w',
    disconnect_loop E sessionId ids w = (Thrown e, w') ->
    exists id c new,
      id ∈ ids /\
      Map_get (registry w') (key_of_id sessionId id) = Some c /\
      client_close E c = Thrown e /\
      events w' = events w ++ new ++ [Closed c].
Proof.
  induction ids as [|id ids IH]; intros w e w'; [discriminate|].
  rewrite disconnect_loop_cons.
  destruct (Map_get (registry w) (key_of_id sessionId id)) as [client|] eqn:Hget.
  - destruct (client_close E client) as [u|e0] eqn:Hclose.
    + destruct (disconnect_loop E sessionId ids _) as [[more|e1] w2] eqn:Hrest; [discriminate|].
      intros [= <- <-]. destruct (IH _ _ _ Hrest) as (id' & c & new & Hin & Hc & He & Hev).
      exists id', c, (Closed client :: new). split; [apply elem_of_cons; right; exact Hin|].
      split; [exact Hc|]. split; [exact He|].
      rewrite Hev. cbn [events]. rewrite <- List.app_assoc. reflexivity.
    + intros [= <- <-]. exists id, client, []. split; [apply elem_of_cons; left; reflexivity|].
      split; [exact Hget|]. split; [exact Hclose|reflexivity].
  - intros Hrest. destruct (IH _ _ _ Hrest) as (id' & c & new & Hin & Hc & He & Hev).
    exists id', c, new. split; [apply elem_of_cons; right; exact Hin|]. auto.
Qed.

(** X9.  When /api/mcp/disconnect answers 500, a client refused to close:
    its entry is still in the registry, the close attempt on it is the
    last thing the server did, and the ids after it were not handled. *)
Theorem disconnect_failure_keeps_entry (E : Env) (sessionId : string)
    (serverIds : option (list string)) (w w' : World) :
  api_mcp_disconnect E sessionId serverIds w = (ServerError, w') ->
  exists id c e new,
    id ∈ disconnect_ids sessionId serverIds (registry w) /\
    Map_get (registry w') (key_of_id sessionId id) = Some c /\
    client_close E c = Thrown e /\
    events w' = events w ++ new ++ [Closed c].
Proof.
  unfold api_mcp_disconnect.
  destruct (String.eqb sessionId EmptyString); [discriminate|].
  unfold handle.
  destruct (disconnect_loop E sessionId _ w) as [[d|e] w2] eqn:Hrun; [discriminate|].
  intros [= <-]. destruct (disconnect_loop_thrown _ _ _ _ _ _ Hrun) as (id & c & new & H).
  exists id, c, e, new. exact H.
Qed.

Lemma disconnect_failure_keeps_entry_witness :
  api_mcp_disconnect stuck_env "s1" (Some ["filesystem"]) connected_world
    = (ServerError, {| registry := registry connected_world;
                       events := events connected_world ++ [Closed 10%nat] |}) /\
  exists id c e new,
    id ∈ disconnect_ids "s1" (Some ["filesystem"]) (registry connected_world) /\
    Map_get (registry {| registry := registry connected_world;
                         events := events connected_world ++ [Closed 10%nat] |})
            (key_of_id "s1" id) = Some c /\
    client_close stuck_env c = Thrown e /\
    events {| registry := registry connected_world;
              events := events connected_world ++ [Closed 10%nat] |}
      = events connected_world ++ new ++ [Closed c].
Proof.
  split; [reflexivity|].
  apply (disconnect_failure_keeps_entry stuck_env "s1" (Some ["filesystem"]) connected_world).
  reflexivity.
Defined.

(** ** The two listings of tools *)

Lemma tools_loop_cons E sessionId key client rest w :
  tools_loop E sessionId ((key, client) :: rest) w =
  if negb (startsWith key sessionId) then tools_loop E sessionId rest w
  else match extractServerId key sessionId with
       | Done serverId =>
           match client_listTools E client with
           | Done svTools =>
               match tools_loop E sessionId rest
                       {| registry := registry w; events := events w ++ [ListedTools client] |} with
               | (Done more, w') =>
                   (Done (map (fun t => {| lt_serverId := serverId; lt_name := td_name t;
                                           lt_description := td_description t;
                                           lt_inputSchema := schema_or_empty (td_inputSchema t) |})
                              svTools ++ more), w')
               | (Thrown e, w') => (Thrown e, w')
               end
           | Thrown e => (Thrown e, {| registry := registry w; events := events w ++ [ListedTools client] |})
           end
       | Thrown e => (Thrown e, w)
       end.
Proof.
  cbn [tools_loop]. destruct (negb (startsWith key sessionId)); [reflexivity|].
  unfold bind at 1, lift at 1. destruct (extractServerId key sessionId); [|reflexivity].
  unfold bind at 1, do_listTools, bind at 1, emit, modify, lift.
  destruct (client_listTools E client); [|reflexivity].
  unfold bind at 1. cbn [registry events].
  destruct (tools_loop E sessionId rest _) as [[more|e] w']; reflexivity.
Qed.

Lemma prefix_weaken (p t key : string) :
  String.prefix (p +:+ t) key = true -> String.prefix p key = true.
Proof.
  revert key; induction p as [|c p IH]; intros key; [destruct key; reflexivity|].
  rewrite append_cons. destruct key as [|d key]; simpl; [discriminate|].
  destruct (ascii_dec c d); [apply IH|discriminate].
Qed.

Lemma startsWith_weaken key p t : startsWith key (p +:+ t) = true -> startsWith key p = true.
Proof. apply prefix_weaken. Qed.

Lemma chat_tool_listed serverId t :
  chat_tool serverId t
  = to_chat_tool {| lt_serverId := serverId; lt_name := td_name t;
                    lt_description := td_description t;
                    lt_inputSchema := schema_or_empty (td_inputSchema t) |}.
Proof.
  unfold chat_tool, to_chat_tool, schema_or_empty. cbn [lt_serverId lt_name lt_description lt_inputSchema].
  f_equal. destruct (td_inputSchema t) as [j|]; [|reflexivity].
  destruct (truthy j); [|reflexivity]. cbn [andb]. reflexivity.
Qed.

Lemma tools_loop_agrees E sessionId entries :
  forall w tools w',
    tools_loop E sessionId entries w = (Done tools, w') ->
    toolsList_loop E sessionId entries w = (Done (map to_chat_tool tools), w').
Proof.
  induction entries as [|[key client] rest IH]; intros w tools w'.
  - intros [= <- <-]. reflexivity.
  - rewrite tools_loop_cons, toolsList_loop_cons.
    destruct (startsWith key sessionId) eqn:Hs; cbn [negb].
    + unfold extractServerId.
      destruct (startsWith key (sessionId +:+ "-")) eqn:Hp; [|discriminate]. cbn [negb].
      destruct (client_listTools E client) as [svTools|e]; [|discriminate].
      destruct (tools_loop E sessionId rest _) as [[more|e] w2] eqn:Hrest; [|discriminate].
      intros [= <- <-]. rewrite (IH _ _ _ Hrest).
      rewrite map_app, List.map_map. do 3 f_equal.
      apply map_ext. intros t. apply chat_tool_listed.
    + destruct (startsWith key (sessionId +:+ "-")) eqn:Hp.
      * apply startsWith_weaken in Hp. congruence.
      * cbn [negb]. apply IH.
Qed.

(** X10.  When /api/mcp/tools answers, the tools the chat endpoint offers to
    the model for the same session are the same tools in the same
    order, each under its namespaced name, and both endpoints list the
    same clients. *)
Theorem tools_answer_is_chat_catalog (E : Env) (sessionId : string) (w w' : World)
    (tools : list ListedTool) :
  api_mcp_tools E sessionId w = (Ok tools, w') ->
  toolsList_loop E sessionId (registry w) w = (Done (map to_chat_tool tools), w') /\
  map ct_name (map to_chat_tool tools) = map (fun t => encode (lt_serverId t) (lt_name t)) tools.
Proof.
  unfold api_mcp_tools. destruct (String.eqb sessionId EmptyString); [discriminate|].
  unfold handle.
  destruct (tools_loop E sessionId (registry w) w) as [[ts|e] w2] eqn:Hrun; [|discriminate].
  intros [= <- <-]. split; [apply tools_loop_agrees, Hrun|].
  rewrite List.map_map. reflexivity.
Qed.

Lemma tools_answer_is_chat_catalog_witness :
  api_mcp_tools (sample_env no_model) "s1" connected_world
    = (Ok [ {| lt_serverId := "filesystem"; lt_name := "read_file";
               lt_description := Some "Read a file"; lt_inputSchema := JObj [] |} ],
       add_events connected_world [ListedTools 10%nat]) /\
  toolsList_loop (sample_env no_model) "s1" (registry connected_world) connected_world
    = (Done (map to_chat_tool
               [ {| lt_serverId := "filesystem"; lt_name := "read_file";
                    lt_description := Some "Read a file"; lt_inputSchema := JObj [] |} ]),
       add_events connected_world [ListedTools 10%nat]) /\
  map ct_name (map to_chat_tool
                 [ {| lt_serverId := "filesystem"; lt_name := "read_file";
                      lt_description := Some "Read a file"; lt_inputSchema := JObj [] |} ])
  = map (fun t => encode (lt_serverId t) (lt_name t))
        [ {| lt_serverId := "filesystem"; lt_name := "read_file";
             lt_description := Some "Read a file"; lt_inputSchema := JObj [] |} ].
Proof.
  split; [reflexivity|].
  apply (tools_answer_is_chat_catalog (sample_env no_model) "s1" connected_world).
  reflexivity.
Defined.

Lemma extractServerId_thrown key sessionId :
  (exists e, extractServerId key sessionId = Thrown e)
  <-> startsWith key (sessionId +:+ "-") = false.
Proof.
  unfold extractServerId. destruct (startsWith key (sessionId +:+ "-")); split; eauto.
  - intros [e H]. discriminate.
  - discriminate.
Qed.

Lemma tools_loop_thrown E sessionId entries :
  forall w,
    (exists e, fst (tools_loop E sessionId entries w) = Thrown e) <->
    exists key c, (key, c) ∈ entries /\ startsWith key sessionId = true /\
                  (startsWith key (sessionId +:+ "-") = false \/
                   exists e, client_listTools E c = Thrown e).
Proof.
  induction entries as [|[key client] rest IH]; intros w.
  - simpl. split; [intros [e H]; discriminate|intros (k & c & H & _); inversion H].
  - rewrite tools_loop_cons.
    destruct (startsWith key sessionId) eqn:Hs; cbn [negb].
    + unfold extractServerId. destruct (startsWith key (sessionId +:+ "-")) eqn:Hp.
      * destruct (client_listTools E client) as [svTools|e] eqn:Hlist.
        -- specialize (IH {| registry := registry w; events := events w ++ [ListedTools client] |}).
           destruct (tools_loop E sessionId rest _) as [[more|e] w2]; cbn [fst] in *.
           ++ split; [intros [e H]; discriminate|].
              intros (k & c & Hin & Hk & Hbad). apply elem_of_cons in Hin.
              destruct Hin as [[= -> ->]|Hin].
              ** destruct Hbad as [Hbad|[e Hbad]]; congruence.
              ** destruct (proj2 IH) as [e He]; [exists k, c; auto|discriminate].
           ++ split; [|eauto]. intros _.
              destruct (proj1 IH) as (k & c & Hin & Hk); [eauto|].
              exists k, c. split; [apply elem_of_cons; right; exact Hin|exact Hk].
        -- cbn [fst]. split; [|eauto]. intros _. exists key, client.
           split; [apply elem_of_cons; left; reflexivity|]. split; [exact Hs|right; eauto].
      * cbn [fst]. split; [|eauto]. intros _. exists key, client.
        split; [apply elem_of_cons; left; reflexivity|]. split; [exact Hs|left; exact Hp].
    + rewrite IH. split.
      * intros (k & c & Hin & Hk). exists k, c. split; [apply elem_of_cons; right; exact Hin|exact Hk].
      * intros (k & c & Hin & Hk & Hbad). apply elem_of_cons in Hin.
        destruct Hin as [[= -> ->]|Hin]; [congruence|]. exists k, c. auto.
Qed.

(** X11.  /api/mcp/tools answers 500 exactly when the registry holds a key
    that starts with the session id and either belongs to another
    session (it does not continue with the dash) or belongs to a client
    whose listing throws. *)
Theorem tools_endpoint_fails_iff (E : Env) (sessionId : string) (w : World) :
  sessionId <> EmptyString ->
  (fst (api_mcp_tools E sessionId w) = ServerError <->
   exists key c, (key, c) ∈ registry w /\ startsWith key sessionId = true /\
                 (startsWith key (sessionId +:+ "-") = false \/
                  exists e, client_listTools E c = Thrown e)).
Proof.
  intros Hs. rewrite <- (tools_loop_thrown E sessionId (registry w) w).
  unfold api_mcp_tools. destruct (String.eqb_spec sessionId EmptyString) as [|_]; [contradiction|].
  unfold handle. destruct (tools_loop E sessionId (registry w) w) as [[ts|e] w2]; cbn [fst].
  - split; [discriminate|intros [e H]; discriminate].
  - split; eauto.
Qed.

Lemma tools_endpoint_fails_iff_witness :
  "s1" <> EmptyString /\
  (fst (api_mcp_tools (sample_env no_model) "s1"
          {| registry := [(keyOf "s10" "filesystem", 3%nat)]; events := [] |}) = ServerError <->
   exists key c, (key, c) ∈ registry {| registry := [(keyOf "s10" "filesystem", 3%nat)]; events := [] |} /\
                 startsWith key "s1" = true /\
                 (startsWith key ("s1" +:+ "-") = false \/
                  exists e, client_listTools (sample_env no_model) c = Thrown e)).
Proof.
  split; [discriminate|].
  apply (tools_endpoint_fails_iff (sample_env no_model) "s1"). discriminate.
Defined.

End RegistryLaws.

(* ================================================================== *)
(** * Further properties of the chat endpoint *)
(* ================================================================== *)

Module ChatLaws.
Import JS Budget Eff Naming Server Notions Samples Observations BudgetFacts ServerFacts.

(** ** What a chat request does to the world *)

Lemma run_tool_frame E sessionId f w :
  exists new, snd (run_tool E sessionId f w) = add_events w new /\
              Forall (fun ev => is_tool_call ev = true) new.
Proof.
  unfold run_tool. unfold bind at 1. unfold lift at 1.
  destruct (parse_args E (fn_arguments f)) as [args|e].
  2:{ exists []. rewrite add_events_nil. split; [reflexivity|constructor]. }
  destruct (decode (fn_name f)) as [serverId fnName].
  unfold bind at 1. unfold get.
  destruct (Map_get (registry w) (keyOf sessionId serverId)) as [client|].
  - unfold try_catch, bind, emit, modify, lift, ret. cbn [fst snd].
    exists [CalledTool client fnName args].
    split; [|repeat constructor].
    destruct (client_callTool E client fnName args); reflexivity.
  - exists []. rewrite add_events_nil. split; [reflexivity|constructor].
Qed.

Lemma dispatch_all_frame E sessionId calls :
  forall w, exists new,
    snd (dispatch_all E sessionId calls w) = add_events w new /\
    Forall (fun ev => is_tool_call ev = true) new.
Proof.
  induction calls as [|call calls IH]; intros w.
  - exists []. rewrite add_events_nil. split; [reflexivity|constructor].
  - cbn [dispatch_all]. unfold bind at 1. unfold dispatch_call.
    destruct (call_function call) as [f|].
    + unfold bind at 1.
      destruct (run_tool_frame E sessionId f w) as (new1 & Hw1 & Hall1).
      destruct (run_tool E sessionId f w) as [[r|e] w1]; cbn [snd] in Hw1; subst w1.
      * unfold ret at 1.
        destruct (IH (add_events w new1)) as (new2 & Hw2 & Hall2).
        unfold bind at 1.
        destruct (dispatch_all E sessionId calls (add_events w new1)) as [[more|e] w2];
          cbn [snd] in Hw2; subst w2; unfold ret; cbn [snd];
          exists (new1 ++ new2); rewrite add_events_app;
          (split; [reflexivity|apply Forall_app; split; assumption]).
      * exists new1. split; [reflexivity|exact Hall1].
    + unfold ret at 1. destruct (IH w) as (new2 & Hw2 & Hall2).
      unfold bind at 1.
      destruct (dispatch_all E sessionId calls w) as [[more|e] w2];
        cbn [snd] in Hw2; subst w2; unfold ret; cbn [snd];
        exists new2; (split; [reflexivity|assumption]).
Qed.

Lemma toolsList_loop_frame E sessionId entries :
  forall w, exists new,
    snd (toolsList_loop E sessionId entries w) = add_events w new /\
    Forall (fun ev => is_listing ev = true) new.
Proof.
  induction entries as [|[key client] entries IH]; intros w.
  - exists []. rewrite add_events_nil. split; [reflexivity|constructor].
  - rewrite toolsList_loop_cons.
    destruct (negb (startsWith key (sessionId +:+ "-"))); [apply IH|].
    destruct (extractServerId key sessionId) as [serverId|e].
    2:{ exists []. rewrite add_events_nil. split; [reflexivity|constructor]. }
    fold (add_events w [ListedTools client]).
    destruct (client_listTools E client) as [svTools|e].
    2:{ exists [ListedTools client]. split; [reflexivity|repeat constructor]. }
    destruct (IH (add_events w [ListedTools client])) as (new & Hw & Hall).
    destruct (toolsList_loop E sessionId entries _) as [[more|e] w2];
      cbn [snd] in *; subst w2; exists (ListedTools client :: new);
      rewrite add_events_app; (split; [reflexivity|constructor; [reflexivity|assumption]]).
Qed.

Lemma requests_in_app new new' :
  requests_in (new ++ new') = (requests_in new + requests_in new')%nat.
Proof. unfold requests_in. now rewrite List.filter_app, length_app. Qed.

Lemma requests_in_quiet new :
  Forall (fun ev => is_request ev = false) new -> requests_in new = 0%nat.
Proof.
  unfold requests_in. induction 1 as [|ev new Hev _ IH]; [reflexivity|].
  cbn [List.filter]. now rewrite Hev.
Qed.

Lemma chat_loop_frame E sessionId tools :
  forall n turn st w, exists new,
    snd (chat_loop E sessionId tools n turn st w) = add_events w new /\
    (requests_in new <= n)%nat /\
    Forall (fun ev => is_lifecycle ev = false) new.
Proof.
  induction n as [|n IH]; intros turn st w.
  - exists []. rewrite add_events_nil. repeat split; [unfold requests_in; simpl; lia|constructor].
  - rewrite chat_loop_S.
    destruct (prune (convo st)) as [pruned|e].
    2:{ exists []. rewrite add_events_nil. repeat split; [unfold requests_in; simpl; lia|constructor]. }
    cbv zeta.
    assert (Hone : exists new, add_events w [Requested turn pruned tools] = add_events w new /\
                               (requests_in new <= S n)%nat /\
                               Forall (fun ev => is_lifecycle ev = false) new).
    { exists [Requested turn pruned tools]. repeat split; [unfold requests_in; simpl; lia|repeat constructor]. }
    destruct (completions_create E turn) as [assistant|e]; [|exact Hone].
    destruct (a_tool_calls assistant) as [[|c cs]|]; [exact Hone| |exact Hone].
    destruct (dispatch_all_frame E sessionId (c :: cs) (add_events w [Requested turn pruned tools]))
      as (new1 & Hw1 & Hall1).
    assert (Hq1 : Forall (fun ev => is_request ev = false /\ is_lifecycle ev = false) new1).
    { eapply Forall_impl; [exact Hall1|]. intros [] H; try discriminate. split; reflexivity. }
    destruct (dispatch_all E sessionId (c :: cs) _) as [[results|e] w1];
      cbn [snd] in Hw1; subst w1.
    + match goal with |- context [chat_loop _ _ _ n (S turn) ?st1 ?w1] =>
        destruct (IH (S turn) st1 w1) as (new2 & Hw2 & Hcount & Hall2) end.
      exists ((Requested turn pruned tools :: new1) ++ new2).
      rewrite Hw2, !add_events_app. split; [reflexivity|]. split.
      * rewrite requests_in_app. change (Requested turn pruned tools :: new1)
          with ([Requested turn pruned tools] ++ new1).
        rewrite requests_in_app, (requests_in_quiet new1).
        -- change (requests_in [Requested turn pruned tools]) with 1%nat. lia.
        -- eapply Forall_impl; [exact Hq1|]. intros ev [H _]. exact H.
      * apply Forall_app. split; [|exact Hall2]. constructor; [reflexivity|].
        eapply Forall_impl; [exact Hq1|]. intros ev [_ H]. exact H.
    + exists (Requested turn pruned tools :: new1). cbn [snd]. rewrite add_events_app.
      split; [reflexivity|]. split.
      * change (Requested turn pruned tools :: new1) with ([Requested turn pruned tools] ++ new1).
        rewrite requests_in_app, (requests_in_quiet new1).
        -- change (requests_in [Requested turn pruned tools]) with 1%nat. lia.
        -- eapply Forall_impl; [exact Hq1|]. intros ev [H _]. exact H.
      * constructor; [reflexivity|].
        eapply Forall_impl; [exact Hq1|]. intros ev [_ H]. exact H.
Qed.

(** X12.  Whatever the model, the tools and the clients do, and whether the
    request ends with an answer or with an error, /api/chat leaves the
    registry as it was, spawns and closes no provider, and sends at most
    [maxTurns] requests to the model. *)
Theorem chat_leaves_registry (E : Env) (req : ChatRequest) (w : World) :
  exists new,
    snd (api_chat E req w) = add_events w new /\
    (requests_in new <= req_maxTurns req)%nat /\
    Forall (fun ev => is_lifecycle ev = false) new.
Proof.
  unfold api_chat.
  destruct (String.eqb (req_sessionId req) EmptyString).
  { exists []. rewrite add_events_nil. repeat split; [unfold requests_in; simpl; lia|constructor]. }
  unfold handle. unfold bind at 1.
  assert (Htools : exists new,
            snd ((if req_useMCP req then toolsList_loop E (req_sessionId req) (registry w)
                  else ret []) w) = add_events w new /\
            Forall (fun ev => is_listing ev = true) new).
  { destruct (req_useMCP req).
    - apply toolsList_loop_frame.
    - exists []. rewrite add_events_nil. split; [reflexivity|constructor]. }
  destruct Htools as (new1 & Hw1 & Hall1).
  assert (Hq1 : Forall (fun ev => is_request ev = false /\ is_lifecycle ev = false) new1).
  { eapply Forall_impl; [exact Hall1|]. intros [] H; try discriminate. split; reflexivity. }
  destruct ((if req_useMCP req then toolsList_loop E (req_sessionId req) (registry w)
             else ret []) w) as [[tools|e] w1]; cbn [snd] in Hw1; subst w1.
  - unfold bind at 1.
    match goal with |- context [chat_loop _ _ _ _ O ?st1 ?w1] =>
      destruct (chat_loop_frame E (req_sessionId req) tools (req_maxTurns req) O st1 w1)
        as (new2 & Hw2 & Hcount & Hall2) end.
    destruct (chat_loop E (req_sessionId req) tools (req_maxTurns req) 0 _ _) as [[st'|e] w2];
      cbn [snd] in Hw2; subst w2; unfold ret; cbn [snd];
      exists (new1 ++ new2); rewrite add_events_app;
      (split; [reflexivity|]);
      (split; [rewrite requests_in_app, (requests_in_quiet new1);
               [lia|eapply Forall_impl; [exact Hq1|]; intros ev [H _]; exact H]|]);
      (apply Forall_app; split; [eapply Forall_impl; [exact Hq1|]; intros ev [_ H]; exact H|exact Hall2]).
  - exists new1. cbn [snd]. split; [reflexivity|]. split.
    + rewrite (requests_in_quiet new1); [lia|].
      eapply Forall_impl; [exact Hq1|]. intros ev [H _]. exact H.
    + eapply Forall_impl; [exact Hq1|]. intros ev [_ H]. exact H.
Qed.

(** ** The turn at which the loop stops *)

Lemma chat_loop_prefix E sessionId tools :
  tools_answer E ->
  forall k m turn st w,
    Forall (fun m => content m <> None) (convo st) ->
    requests_tools E turn k ->
    exists st' new,
      chat_loop E sessionId tools (k + m) turn st w
        = chat_loop E sessionId tools m (turn + k) st' (add_events w new) /\
      Forall (fun m => content m <> None) (convo st') /\
      lastAssistantMsg st' = lastAssistantMsg st /\
      allToolCalls st' = allToolCalls st ++ flat_map (calls_at E) (seq turn k) /\
      allToolResults st' = allToolResults st ++
        flat_map (fun t => expected_msgs E sessionId (registry w) (calls_at E t)) (seq turn k) /\
      requests_in new = k.
Proof.
  intros Hans. induction k as [|k IH]; intros m turn st w Hdef Hreq.
  - exists st, []. rewrite add_events_nil, !app_nil_r, Nat.add_0_r. repeat split; auto.
  - destruct (Hreq turn ltac:(lia)) as [(a & c & cs & Hmodel & Hcalls) Hparse].
    assert (Hat : calls_at E turn = c :: cs) by (unfold calls_at; now rewrite Hmodel, Hcalls).
    rewrite Hat in Hparse.
    destruct (prune_defined _ Hdef) as (pruned & Hprune & Hpdef).
    assert (Hframe : exists new,
      dispatch_all E sessionId (c :: cs) (add_events w [Requested turn pruned tools])
        = (Done (expected_msgs E sessionId (registry w) (c :: cs)),
           add_events w (Requested turn pruned tools :: new)) /\
      requests_in new = 0%nat).
    { destruct (dispatch_all_spec E sessionId (c :: cs) Hparse
                  (add_events w [Requested turn pruned tools])) as [new Hrun].
      destruct (dispatch_all_frame E sessionId (c :: cs)
                  (add_events w [Requested turn pruned tools])) as (new' & Hsnd & Hall).
      rewrite Hrun in Hsnd. cbn [snd] in Hsnd.
      assert (Hsame : new = new').
      { unfold add_events in Hsnd. cbn [events registry] in Hsnd.
        injection Hsnd as Hev. apply app_inv_head in Hev. exact Hev. }
      subst new'. exists new. rewrite Hrun, add_events_app. split; [reflexivity|].
      apply requests_in_quiet. eapply Forall_impl; [exact Hall|].
      intros [] H; try discriminate; reflexivity. }
    destruct Hframe as (new1 & Hrun1 & Hq1).
    change (S k + m)%nat with (S (k + m)). rewrite chat_loop_S, Hprune. cbv zeta.
    rewrite Hmodel, Hcalls, Hrun1.
    match goal with |- context [chat_loop _ _ _ (k + m) (S turn) ?st1 ?w1] =>
      destruct (IH m (S turn) st1 w1) as (st' & new2 & Hrun & Hdef' & Hlast & Hcs & Hrs & Hq2) end.
    { cbn [convo]. apply Forall_app. split; [exact Hpdef|].
      apply Forall_app. split; [repeat constructor; discriminate|].
      apply expected_msgs_defined, Hans. }
    { intros t Ht. apply Hreq. lia. }
    exists st', ((Requested turn pruned tools :: new1) ++ new2).
    rewrite Hrun, add_events_app. replace (S turn + k)%nat with (turn + S k)%nat by lia.
    split; [reflexivity|]. split; [exact Hdef'|]. split; [exact Hlast|].
    cbn [allToolCalls allToolResults registry add_events] in Hcs, Hrs.
    cbn [seq flat_map]. rewrite Hat.
    split; [rewrite Hcs, <- List.app_assoc; reflexivity|].
    split; [rewrite Hrs, <- List.app_assoc; reflexivity|].
    rewrite requests_in_app.
    change (Requested turn pruned tools :: new1) with ([Requested turn pruned tools] ++ new1).
    rewrite requests_in_app, Hq1, Hq2. reflexivity.
Qed.

Lemma listing_is_quiet E req w :
  (forall c, exists ts, client_listTools E c = Done ts) ->
  exists tools new,
    (if req_useMCP req then toolsList_loop E (req_sessionId req) (registry w)
     else ret []) w = (Done tools, add_events w new) /\
    requests_in new = 0%nat.
Proof.
  intros Hlist. destruct (req_useMCP req).
  - destruct (toolsList_loop_total E (req_sessionId req) (registry w) Hlist w)
      as (tools & new & Hrun).
    destruct (toolsList_loop_frame E (req_sessionId req) (registry w) w)
      as (new' & Hsnd & Hall).
    rewrite Hrun in Hsnd. cbn [snd] in Hsnd.
    assert (Hsame : new = new').
    { unfold add_events in Hsnd. injection Hsnd as Hev. apply app_inv_head in Hev. exact Hev. }
    subst new'. exists tools, new. split; [exact Hrun|].
    apply requests_in_quiet. eapply Forall_impl; [exact Hall|].
    intros [] H; try discriminate; reflexivity.
  - exists [], []. rewrite add_events_nil. split; reflexivity.
Qed.

(** X13.  Provided the session id is not empty, every message of the request
    has a content, listing tools succeeds, no tool answers without a
    content, and the model asks at each of the turns 0..k-1 for at
    least one tool, with arguments that all parse: if its reply at turn
    k, before [maxTurns] is reached, asks for no tool, the loop stops
    there.  /api/chat answers with that reply as message, with the tool
    calls of the turns before it and with the tool messages of those
    calls, and the model was asked k+1 times. *)
Theorem chat_final_answer (E : Env) (req : ChatRequest) (w : World) (k : nat) (a : Assistant) :
  req_sessionId req <> EmptyString ->
  Forall (fun m => content m <> None) (req_messages req) ->
  (forall c, exists ts, client_listTools E c = Done ts) ->
  tools_answer E ->
  requests_tools E 0 k ->
  (k < req_maxTurns req)%nat ->
  completions_create E k = Done a ->
  final_reply a = true ->
  exists body new,
    api_chat E req w = (Ok body, add_events w new) /\
    message body = Some a /\
    toolCalls body = flat_map (calls_at E) (seq 0 k) /\
    toolResults body =
      flat_map (fun t => expected_msgs E (req_sessionId req) (registry w) (calls_at E t))
               (seq 0 k) /\
    requests_in new = S k.
Proof.
  intros Hs Hdef Hlist Hans Hreq Hlt Hmodel Hfinal.
  destruct (listing_is_quiet E req w Hlist) as (tools & new1 & Htools & Hq1).
  destruct (req_maxTurns req) as [|n] eqn:Hmax; [lia|].
  assert (Hsplit : S n = (k + S (n - k))%nat) by lia.
  destruct (chat_loop_prefix E (req_sessionId req) tools Hans k (S (n - k)) 0
              {| convo := req_messages req; allToolCalls := [];
                 allToolResults := []; lastAssistantMsg := None |}
              (add_events w new1) Hdef Hreq)
    as (st' & new2 & Hrun & Hdef' & _ & Hcs & Hrs & Hq2).
  cbn [allToolCalls allToolResults registry add_events app] in Hcs, Hrs.
  destruct (prune_defined _ Hdef') as (pruned & Hprune & _).
  rewrite chat_loop_S, Hprune in Hrun. cbv zeta in Hrun.
  rewrite Nat.add_0_l, Hmodel in Hrun.
  assert (Hstop : chat_loop E (req_sessionId req) tools (k + S (n - k)) 0
              {| convo := req_messages req; allToolCalls := [];
                 allToolResults := []; lastAssistantMsg := None |} (add_events w new1)
            = (Done {| convo := pruned; allToolCalls := allToolCalls st';
                       allToolResults := allToolResults st'; lastAssistantMsg := Some a |},
               add_events (add_events (add_events w new1) new2) [Requested k pruned tools])).
  { rewrite Hrun. unfold final_reply in Hfinal.
    destruct (a_tool_calls a) as [[|c cs]|]; [reflexivity|discriminate|reflexivity]. }
  exists {| message := Some a; toolCalls := allToolCalls st'; toolResults := allToolResults st' |},
         ((new1 ++ new2) ++ [Requested k pruned tools]).
  split.
  { unfold api_chat, handle.
    destruct (String.eqb_spec (req_sessionId req) EmptyString); [contradiction|].
    unfold bind at 1. rewrite Htools. unfold bind at 1. rewrite Hmax, Hsplit, Hstop.
    unfold ret. cbn [lastAssistantMsg allToolCalls allToolResults].
    rewrite !add_events_app, List.app_assoc. reflexivity. }
  split; [reflexivity|]. split; [exact Hcs|]. split; [exact Hrs|].
  rewrite !requests_in_app, Hq1, Hq2. unfold requests_in. simpl. lia.
Qed.

Lemma chat_final_answer_witness :
  req_sessionId (chat_request 6) <> EmptyString /\
  Forall (fun m => content m <> None) (req_messages (chat_request 6)) /\
  (forall c, exists ts, client_listTools (sample_env scenario_model) c = Done ts) /\
  tools_answer (sample_env scenario_model) /\
  requests_tools (sample_env scenario_model) 0 1 /\
  (1 < req_maxTurns (chat_request 6))%nat /\
  completions_create (sample_env scenario_model) 1 = Done final_answer /\
  final_reply final_answer = true /\
  exists body new,
    api_chat (sample_env scenario_model) (chat_request 6) connected_world
      = (Ok body, add_events connected_world new) /\
    message body = Some final_answer /\
    toolCalls body = flat_map (calls_at (sample_env scenario_model)) (seq 0 1) /\
    toolResults body =
      flat_map (fun t => expected_msgs (sample_env scenario_model) (req_sessionId (chat_request 6))
                           (registry connected_world) (calls_at (sample_env scenario_model) t))
               (seq 0 1) /\
    requests_in new = 2%nat.
Proof.
  assert (H1 : req_sessionId (chat_request 6) <> EmptyString) by discriminate.
  assert (H2 : Forall (fun m => content m <> None) (req_messages (chat_request 6)))
    by (repeat constructor; discriminate).
  assert (H3 : forall c, exists ts, client_listTools (sample_env scenario_model) c = Done ts)
    by (intros c; eexists; reflexivity).
  assert (H4 : tools_answer (sample_env scenario_model)).
  { intros client name args. simpl. destruct (String.eqb name "fail"); discriminate. }
  assert (H5 : requests_tools (sample_env scenario_model) 0 1).
  { intros t Ht. assert (t = 0%nat) as -> by lia. split.
    - eexists _, _, _. split; reflexivity.
    - apply args_parse_named; [reflexivity|]. repeat constructor; eexists _, _; reflexivity. }
  assert (H6 : (1 < req_maxTurns (chat_request 6))%nat) by (simpl; lia).
  split; [exact H1|]. split; [exact H2|]. split; [exact H3|]. split; [exact H4|].
  split; [exact H5|]. split; [exact H6|]. split; [reflexivity|]. split; [reflexivity|].
  apply (chat_final_answer (sample_env scenario_model) (chat_request 6) connected_world 1
           final_answer H1 H2 H3 H4 H5 H6 eq_refl eq_refl).
Defined.

(** ** Requests that end with an error *)



End ChatLaws.

(* ================================================================== *)
(** * Properties of the chat store *)
(* ================================================================== *)

Module ChatStoreFacts.
Import JS Budget ChatStore StoreNotions BudgetFacts.

Lemma findIndex_app {A} (p : A -> bool) l l' :
  findIndex p (l ++ l') =
  match findIndex p l with
  | Some i => Some i
  | None => option_map (fun j => (length l + j)%nat) (findIndex p l')
  end.
Proof.
  induction l as [|x l IH]; simpl.
  - destruct (findIndex p l'); reflexivity.
  - destruct (p x); [reflexivity|]. rewrite IH.
    destruct (findIndex p l); [reflexivity|]. destruct (findIndex p l'); reflexivity.
Qed.

(** ** Creating and finding *)

Lemma getChat_createChat uuid mcpId chatStore id :
  getChat id (createChat uuid mcpId chatStore) =
  match getChat id chatStore with
  | Some i => Some i
  | None => if String.eqb uuid id then Some (length chatStore) else None
  end.
Proof.
  unfold getChat, createChat. rewrite findIndex_app.
  destruct (findIndex _ chatStore); [reflexivity|].
  cbn [findIndex chat_id]. destruct (String.eqb uuid id); [|reflexivity].
  simpl. now rewrite Nat.add_0_r.
Qed.

(** Creating a chat and looking it up: the chat created is the last of
    the store, with the id drawn for it, the next title, the given
    server and no history; every id that was found before is still
    found at the same place; the new id is found at the new chat unless
    an older chat already has it. *)
Lemma createChat_getChat (uuid : string) (mcpId : option string) (chatStore : list Chat) :
  createChat uuid mcpId chatStore !! length chatStore
    = Some {| chat_id := uuid; chat_title := "Chat " +:+ decimal (length chatStore + 1);
              chat_mcpId := mcpId; chat_history := [] |} /\
  (forall i, (i < length chatStore)%nat ->
             createChat uuid mcpId chatStore !! i = chatStore !! i) /\
  (forall id i, getChat id chatStore = Some i ->
                getChat id (createChat uuid mcpId chatStore) = Some i) /\
  (getChat uuid chatStore = None ->
   getChat uuid (createChat uuid mcpId chatStore) = Some (length chatStore)) /\
  (forall id, id <> uuid -> getChat id chatStore = None ->
              getChat id (createChat uuid mcpId chatStore) = None).
Proof.
  split; [|split; [|split; [|split]]].
  - unfold createChat. rewrite lookup_app_r by lia. now rewrite Nat.sub_diag.
  - intros i Hi. unfold createChat. now rewrite lookup_app_l.
  - intros id i Hi. now rewrite getChat_createChat, Hi.
  - intros Hnone. now rewrite getChat_createChat, Hnone, String.eqb_refl.
  - intros id Hne Hnone. rewrite getChat_createChat, Hnone.
    destruct (String.eqb_spec uuid id); [congruence|reflexivity].
Qed.

(** ** Writing to a chat *)

Lemma map_alter_same {A B} (g : A -> B) (f : A -> A) i l :
  (forall x, g (f x) = g x) -> map g (alter f i l) = map g l.
Proof.
  intros Hg. revert i; induction l as [|x l IH]; intros [|i]; simpl; try reflexivity.
  - now rewrite Hg.
  - f_equal. apply IH.
Qed.

Lemma findIndex_ext {A} (p : A -> bool) l l' :
  map p l = map p l' -> findIndex p l = findIndex p l'.
Proof.
  revert l'; induction l as [|x l IH]; intros [|y l']; simpl; try discriminate; [reflexivity|].
  intros [= Hxy Hrest]. rewrite Hxy, (IH l' Hrest). reflexivity.
Qed.

Lemma getChat_alter f i chatStore id :
  (forall chat, chat_id (f chat) = chat_id chat) ->
  getChat id (alter f i chatStore) = getChat id chatStore.
Proof.
  intros Hf. unfold getChat. apply findIndex_ext.
  apply (map_alter_same (fun chat => String.eqb (chat_id chat) id)).
  intros chat. now rewrite Hf.
Qed.

Lemma getChat_Some id chatStore i :
  getChat id chatStore = Some i ->
  exists chat, chatStore !! i = Some chat /\ chat_id chat = id.
Proof.
  intros H. apply findIndex_Some in H. destruct H as (chat & Hi & Hid & _).
  exists chat. split; [exact Hi|]. apply String.eqb_eq. exact Hid.
Qed.

(** X15.  [addMessageToChat] appends the message to the history of the first
    chat that has the id and changes nothing else; for an id no chat
    has, it does nothing.  The list of chats and every later lookup by
    id are as before. *)
Theorem addMessageToChat_appends (chatId : string) (message : ChatMessage)
    (chatStore : list Chat) :
  (getChat chatId chatStore = None ->
   addMessageToChat chatId message chatStore = chatStore) /\
  (forall i, getChat chatId chatStore = Some i ->
     exists chat,
       chatStore !! i = Some chat /\ chat_id chat = chatId /\
       addMessageToChat chatId message chatStore !! i = Some (push_message message chat) /\
       forall j, j <> i -> addMessageToChat chatId message chatStore !! j = chatStore !! j) /\
  getChatsList (addMessageToChat chatId message chatStore) = getChatsList chatStore /\
  (forall id, getChat id (addMessageToChat chatId message chatStore) = getChat id chatStore).
Proof.
  unfold addMessageToChat. split; [intros ->; reflexivity|]. split; [|split].
  - intros i Hi. rewrite Hi. destruct (getChat_Some _ _ _ Hi) as (chat & Hchat & Hid).
    exists chat. split; [exact Hchat|]. split; [exact Hid|]. split.
    + rewrite list_lookup_alter_eq, Hchat. reflexivity.
    + intros j Hj. apply list_lookup_alter_ne. congruence.
  - destruct (getChat chatId chatStore); [|reflexivity].
    unfold getChatsList. apply map_alter_same. reflexivity.
  - intros id. destruct (getChat chatId chatStore); [|reflexivity].
    apply getChat_alter. reflexivity.
Qed.

(** ** Asking for a chat by id *)

(** X16.  A chat id the store does not know is not honoured: [getOrCreateChat]
    creates a chat under a fresh id, so the requested id is still
    unknown afterwards, and asking for it again creates one more chat. *)
Theorem getOrCreateChat_unknown_id (uuid1 uuid2 chatId : string) (mcpId : option string)
    (chatStore : list Chat) :
  getChat chatId chatStore = None ->
  uuid1 <> chatId ->
  let first := getOrCreateChat uuid1 (Some chatId) mcpId chatStore in
  let second := getOrCreateChat uuid2 (Some chatId) mcpId (snd first) in
  snd first = createChat uuid1 mcpId chatStore /\
  fst first = length chatStore /\
  getChat chatId (snd first) = None /\
  fst second = S (length chatStore) /\
  length (snd second) = S (S (length chatStore)).
Proof.
  intros Hnone Hne. cbv zeta.
  assert (Hfirst : getOrCreateChat uuid1 (Some chatId) mcpId chatStore
                   = (length chatStore, createChat uuid1 mcpId chatStore)).
  { unfold getOrCreateChat. rewrite Hnone. destruct (String.eqb chatId EmptyString); reflexivity. }
  rewrite Hfirst. cbn [fst snd].
  assert (Hstill : getChat chatId (createChat uuid1 mcpId chatStore) = None).
  { rewrite getChat_createChat, Hnone.
    destruct (String.eqb_spec uuid1 chatId); [contradiction|reflexivity]. }
  split; [reflexivity|]. split; [reflexivity|]. split; [exact Hstill|].
  unfold getOrCreateChat. rewrite Hstill.
  assert (Hlen : length (createChat uuid1 mcpId chatStore) = S (length chatStore)).
  { unfold createChat. rewrite length_app. simpl. lia. }
  destruct (String.eqb chatId EmptyString); cbn [fst snd]; (split; [exact Hlen|]);
    unfold createChat at 1; rewrite length_app, Hlen; simpl; lia.
Qed.

Lemma getOrCreateChat_unknown_id_witness :
  getChat "chat-from-the-client" a_store = None /\
  "91ab" <> "chat-from-the-client" /\
  let first := getOrCreateChat "91ab" (Some "chat-from-the-client") (Some "filesystem") a_store in
  let second := getOrCreateChat "c3f0" (Some "chat-from-the-client") (Some "filesystem")
                                (snd first) in
  snd first = createChat "91ab" (Some "filesystem") a_store /\
  fst first = length a_store /\
  getChat "chat-from-the-client" (snd first) = None /\
  fst second = S (length a_store) /\
  length (snd second) = S (S (length a_store)).
Proof.
  split; [reflexivity|]. split; [discriminate|].
  apply (getOrCreateChat_unknown_id "91ab" "c3f0" "chat-from-the-client" (Some "filesystem") a_store).
  - reflexivity.
  - discriminate.
Defined.

(** X17.  For an id the store knows, [getOrCreateChat] returns the first chat
    with that id and creates nothing; it sets [mcpId] when one is given
    and leaves it otherwise; ids, titles and histories are untouched,
    and a second call with the same arguments changes nothing more. *)
Theorem getOrCreateChat_existing (uuid chatId : string) (mcpId : option string)
    (chatStore : list Chat) (i : nat) :
  chatId <> EmptyString ->
  getChat chatId chatStore = Some i ->
  let result := getOrCreateChat uuid (Some chatId) mcpId chatStore in
  fst result = i /\
  map chat_id (snd result) = map chat_id chatStore /\
  map chat_title (snd result) = map chat_title chatStore /\
  map chat_history (snd result) = map chat_history chatStore /\
  (exists chat,
     chatStore !! i = Some chat /\
     snd result !! i = Some (set_mcpId (match mcpId with
                                        | Some m => Some m
                                        | None => chat_mcpId chat
                                        end) chat)) /\
  (forall j, j <> i -> snd result !! j = chatStore !! j) /\
  getOrCreateChat uuid (Some chatId) mcpId (snd result) = result.
Proof.
  intros Hne Hi. cbv zeta. unfold getOrCreateChat.
  destruct (String.eqb_spec chatId EmptyString) as [|_]; [contradiction|].
  rewrite Hi. cbn [fst snd].
  destruct (getChat_Some _ _ _ Hi) as (chat & Hchat & Hid).
  destruct mcpId as [m|].
  - split; [reflexivity|].
    split; [apply map_alter_same; reflexivity|].
    split; [apply map_alter_same; reflexivity|].
    split; [apply map_alter_same; reflexivity|].
    split; [exists chat; split; [exact Hchat|]; rewrite list_lookup_alter_eq, Hchat; reflexivity|].
    split; [intros j Hj; apply list_lookup_alter_ne; congruence|].
    rewrite getChat_alter by reflexivity. rewrite Hi. f_equal.
    apply list_eq. intros j. destruct (decide (i = j)) as [<-|Hj].
    + rewrite !list_lookup_alter_eq, Hchat. reflexivity.
    + rewrite !list_lookup_alter_ne by exact Hj. reflexivity.
  - split; [reflexivity|]. split; [reflexivity|]. split; [reflexivity|]. split; [reflexivity|].
    split; [exists chat; split; [exact Hchat|]; rewrite Hchat; destruct chat; reflexivity|].
    split; [reflexivity|]. rewrite Hi. reflexivity.
Qed.

Lemma getOrCreateChat_existing_witness :
  "7d0c" <> EmptyString /\
  getChat "7d0c" a_store = Some 0%nat /\
  let result := getOrCreateChat "91ab" (Some "7d0c") (Some "filesystem") a_store in
  fst result = 0%nat /\
  map chat_id (snd result) = map chat_id a_store /\
  map chat_title (snd result) = map chat_title a_store /\
  map chat_history (snd result) = map chat_history a_store /\
  (exists chat,
     a_store !! 0%nat = Some chat /\
     snd result !! 0%nat = Some (set_mcpId (match Some "filesystem" with
                                            | Some m => Some m
                                            | None => chat_mcpId chat
                                            end) chat)) /\
  (forall j, j <> 0%nat -> snd result !! j = a_store !! j) /\
  getOrCreateChat "91ab" (Some "7d0c") (Some "filesystem") (snd result) = result.
Proof.
  split; [discriminate|]. split; [reflexivity|].
  apply (getOrCreateChat_existing "91ab" "7d0c" (Some "filesystem") a_store 0).
  - discriminate.
  - reflexivity.
Defined.

(** ** What the store keeps *)

Lemma after_call_keeps chatStore call i chat :
  chatStore !! i = Some chat ->
  exists chat',
    after_call chatStore call !! i = Some chat' /\
    chat_id chat' = chat_id chat /\
    chat_title chat' = chat_title chat /\
    chat_history chat `prefix_of` chat_history chat'.
Proof.
  intros Hchat.
  assert (Hsame : exists chat', chatStore !! i = Some chat' /\ chat_id chat' = chat_id chat /\
                    chat_title chat' = chat_title chat /\
                    chat_history chat `prefix_of` chat_history chat').
  { exists chat. repeat split; auto. }
  assert (Halter : forall f k,
            (forall c, chat_id (f c) = chat_id c /\ chat_title (f c) = chat_title c /\
                       chat_history c `prefix_of` chat_history (f c)) ->
            exists chat', alter f k chatStore !! i = Some chat' /\ chat_id chat' = chat_id chat /\
                    chat_title chat' = chat_title chat /\
                    chat_history chat `prefix_of` chat_history chat').
  { intros f k Hf. destruct (decide (k = i)) as [->|Hk].
    - exists (f chat). rewrite list_lookup_alter_eq, Hchat. split; [reflexivity|apply Hf].
    - rewrite list_lookup_alter_ne by exact Hk. exact Hsame. }
  assert (Happ : forall new, exists chat', (chatStore ++ new) !! i = Some chat' /\
                    chat_id chat' = chat_id chat /\ chat_title chat' = chat_title chat /\
                    chat_history chat `prefix_of` chat_history chat').
  { intros new. exists chat. rewrite lookup_app_l by (eapply lookup_lt_Some; eauto).
    repeat split; auto. }
  destruct call as [uuid mcpId|chatId message|uuid chatId mcpId|chatId]; cbn [after_call].
  - apply Happ.
  - unfold addMessageToChat. destruct (getChat chatId chatStore); [|exact Hsame].
    apply Halter. intros c. repeat split. cbn [push_message chat_history]. apply prefix_app_r.
    reflexivity.
  - unfold getOrCreateChat.
    destruct (match chatId with
              | Some id => if String.eqb id EmptyString then None else getChat id chatStore
              | None => None
              end); cbn [snd]; [|apply Happ].
    destruct mcpId; [|exact Hsame]. apply Halter. intros c. repeat split. reflexivity.
  - destruct (getChat chatId chatStore); [|exact Hsame].
    apply Halter. intros c. repeat split. reflexivity.
Qed.

(** X18.  The store never forgets: whatever the routes call, a chat stays at
    its place with its id and its title, and its history only grows at
    the end. *)
Theorem store_never_forgets (chatStore : list Chat) (calls : list StoreCall)
    (i : nat) (chat : Chat) :
  chatStore !! i = Some chat ->
  exists chat',
    fold_left after_call calls chatStore !! i = Some chat' /\
    chat_id chat' = chat_id chat /\
    chat_title chat' = chat_title chat /\
    chat_history chat `prefix_of` chat_history chat'.
Proof.
  revert chatStore chat. induction calls as [|call calls IH]; intros chatStore chat Hchat.
  - exists chat. repeat split; auto.
  - cbn [fold_left].
    destruct (after_call_keeps chatStore call i chat Hchat) as (c1 & H1 & Hid1 & Ht1 & Hh1).
    destruct (IH _ _ H1) as (c2 & H2 & Hid2 & Ht2 & Hh2).
    exists c2. split; [exact H2|]. split; [congruence|]. split; [congruence|].
    etransitivity; eassumption.
Qed.

Lemma store_never_forgets_witness :
  a_store !! 0%nat = Some {| chat_id := "7d0c"; chat_title := "Chat 1";
                             chat_mcpId := None; chat_history := [] |} /\
  exists chat',
    fold_left after_call [CallAddMessage "7d0c" a_message; CallCreate "91ab" None] a_store !! 0%nat
      = Some chat' /\
    chat_id chat' = chat_id {| chat_id := "7d0c"; chat_title := "Chat 1";
                               chat_mcpId := None; chat_history := [] |} /\
    chat_title chat' = chat_title {| chat_id := "7d0c"; chat_title := "Chat 1";
                                     chat_mcpId := None; chat_history := [] |} /\
    chat_history {| chat_id := "7d0c"; chat_title := "Chat 1";
                    chat_mcpId := None; chat_history := [] |} `prefix_of` chat_history chat'.
Proof.
  split; [reflexivity|].
  apply (store_never_forgets a_store [CallAddMessage "7d0c" a_message; CallCreate "91ab" None] 0).
  reflexivity.
Defined.

(** ** Titles *)

Lemma decimal_inj n m : decimal n = decimal m -> n = m.
Proof.
  unfold decimal. intros H.
  assert (Hu : Some (Nat.to_uint n) = Some (Nat.to_uint m)).
  { rewrite <- !NilEmpty.usu. now rewrite H. }
  injection Hu as Hu. apply DecimalNat.Unsigned.to_uint_inj. exact Hu.
Qed.

Lemma after_call_titles chatStore call :
  (forall i chat, chatStore !! i = Some chat -> chat_title chat = "Chat " +:+ decimal (i + 1)) ->
  forall i chat, after_call chatStore call !! i = Some chat ->
                 chat_title chat = "Chat " +:+ decimal (i + 1).
Proof.
  intros Hinv.
  assert (Halter : forall f k,
            (forall c, chat_title (f c) = chat_title c) ->
            forall i chat, alter f k chatStore !! i = Some chat ->
                           chat_title chat = "Chat " +:+ decimal (i + 1)).
  { intros f k Hf i chat. destruct (decide (k = i)) as [->|Hk].
    - rewrite list_lookup_alter_eq. destruct (chatStore !! i) as [c|] eqn:Hc; [|discriminate].
      intros [= <-]. rewrite Hf. apply Hinv, Hc.
    - rewrite list_lookup_alter_ne by exact Hk. apply Hinv. }
  assert (Hcreate : forall uuid mcpId i chat,
            createChat uuid mcpId chatStore !! i = Some chat ->
            chat_title chat = "Chat " +:+ decimal (i + 1)).
  { intros uuid mcpId i chat. unfold createChat. intros Hi.
    apply lookup_app_Some in Hi. destruct Hi as [Hi|[Hge Hi]]; [apply Hinv, Hi|].
    destruct (i - length chatStore)%nat as [|k] eqn:Hk; [|destruct k; discriminate].
    injection Hi as <-. cbn [chat_title]. unfold generateChatTitle.
    replace i with (length chatStore) by lia. reflexivity. }
  destruct call as [uuid mcpId|chatId message|uuid chatId mcpId|chatId]; cbn [after_call].
  - apply Hcreate.
  - unfold addMessageToChat. destruct (getChat chatId chatStore); [|exact Hinv].
    apply Halter. reflexivity.
  - unfold getOrCreateChat.
    destruct (match chatId with
              | Some id => if String.eqb id EmptyString then None else getChat id chatStore
              | None => None
              end); cbn [snd]; [|apply Hcreate].
    destruct mcpId; [|exact Hinv]. apply Halter. reflexivity.
  - destruct (getChat chatId chatStore); [|exact Hinv]. apply Halter. reflexivity.
Qed.

(** X19.  In a store that started empty, the chat at position [i] is titled
    "Chat i+1", whatever was called since: titles number the chats in
    the order of their creation, and no two chats share a title. *)
Theorem titles_in_creation_order (calls : list StoreCall) :
  (forall i chat, after_calls calls !! i = Some chat ->
                  chat_title chat = "Chat " +:+ decimal (i + 1)) /\
  (forall i j chat chat', after_calls calls !! i = Some chat ->
                          after_calls calls !! j = Some chat' ->
                          chat_title chat = chat_title chat' -> i = j).
Proof.
  assert (Hinv : forall i chat, after_calls calls !! i = Some chat ->
                                chat_title chat = "Chat " +:+ decimal (i + 1)).
  { unfold after_calls.
    assert (Hgen : forall chatStore,
              (forall i chat, chatStore !! i = Some chat ->
                              chat_title chat = "Chat " +:+ decimal (i + 1)) ->
              forall i chat, fold_left after_call calls chatStore !! i = Some chat ->
                             chat_title chat = "Chat " +:+ decimal (i + 1)).
    { induction calls as [|call calls IH]; intros chatStore Hs; [exact Hs|].
      cbn [fold_left]. apply IH. apply after_call_titles. exact Hs. }
    apply Hgen. intros i chat Hi. rewrite lookup_nil in Hi. discriminate. }
  split; [exact Hinv|].
  intros i j chat chat' Hi Hj Heq.
  rewrite (Hinv _ _ Hi), (Hinv _ _ Hj) in Heq.
  assert (Hdec : decimal (i + 1) = decimal (j + 1)).
  { unfold append in Heq. simpl in Heq. congruence. }
  apply decimal_inj in Hdec. lia.
Qed.

End ChatStoreFacts.

(* ================================================================== *)
(** * Properties of the agent backend *)
(* ================================================================== *)

Module AgentFacts.
Import Eff ChatStore Agent StoreNotions AgentNotions Samples.

(** ** Failures of [connectToServer] *)

(** X20.  When [connectToServer] throws, the cache is as before; for an
    unknown id, or for Brave Search without its key, nothing was
    launched; otherwise the launch of the server was started and the
    handshake or the discovery of the tools threw, and the connection
    stays unregistered. *)
Theorem connectToServer_failure (E : Bee.Env) (i : string) (w w' : Bee.World) (e : string) :
  Bee.connectToServer E i w = (Thrown e, w') ->
  Bee.ACTIVE w' = Bee.ACTIVE w /\
  Bee.ACTIVE w !! i = None /\
  ((Bee.spawned w' = Bee.spawned w /\
    (List.find (fun s => String.eqb (Bee.id s) i) (Bee.CATALOGUE E) = None \/
     (i = "brave-search" /\ Bee.BRAVE_API_KEY E = false)))
   \/
   (Bee.spawned w' = Bee.spawned w ++ [i] /\
    exists spec,
      List.find (fun s => String.eqb (Bee.id s) i) (Bee.CATALOGUE E) = Some spec /\
      (Bee.client_connect E spec = Thrown e \/
       exists c, Bee.client_connect E spec = Done c /\
                 Bee.MCPTool_fromClient E c = Thrown e))).
Proof.
  unfold Bee.connectToServer, bind at 1, get, Bee.ACTIVE_truthy.
  destruct (Bee.ACTIVE w !! i) as [conn|] eqn:Hact; [discriminate|].
  destruct (existsb (String.eqb i) Bee.inherited_keys); [discriminate|].
  destruct (List.find _ (Bee.CATALOGUE E)) as [spec|] eqn:Hfind.
  2:{ intros [= <- <-]. repeat split; auto. }
  assert (Hid : Bee.id spec = i).
  { apply List.find_some in Hfind. destruct Hfind as [_ Hid]. apply String.eqb_eq. exact Hid. }
  destruct (String.eqb (Bee.id spec) "brave-search" && negb (Bee.BRAVE_API_KEY E)) eqn:Hkey.
  { intros [= <- <-]. apply andb_true_iff in Hkey. destruct Hkey as [Hb Hk].
    apply String.eqb_eq in Hb. apply negb_true_iff in Hk.
    repeat split; auto. left. split; [reflexivity|]. right. split; congruence. }
  unfold bind, modify, lift. cbn [Bee.ACTIVE Bee.spawned].
  destruct (Bee.client_connect E spec) as [c|e1] eqn:Hconn.
  - destruct (Bee.MCPTool_fromClient E c) as [tools|e2] eqn:Htools; [discriminate|].
    intros [= <- <-]. cbn [Bee.ACTIVE Bee.spawned]. repeat split; auto.
    right. split; [reflexivity|]. exists spec. split; [reflexivity|]. right.
    exists c. split; [exact Hconn|exact Htools].
  - intros [= <- <-]. cbn [Bee.ACTIVE Bee.spawned]. repeat split; auto.
    right. split; [reflexivity|]. exists spec. split; [reflexivity|]. left. exact Hconn.
Qed.

Lemma connectToServer_failure_witness :
  Bee.connectToServer bee_env "nowhere" {| Bee.ACTIVE := ∅; Bee.spawned := [] |}
    = (Thrown "Unknown server 'nowhere'", {| Bee.ACTIVE := ∅; Bee.spawned := [] |}) /\
  Bee.ACTIVE {| Bee.ACTIVE := ∅; Bee.spawned := [] |}
    = Bee.ACTIVE {| Bee.ACTIVE := ∅; Bee.spawned := [] |} /\
  Bee.ACTIVE {| Bee.ACTIVE := ∅; Bee.spawned := [] |} !! "nowhere" = None /\
  ((Bee.spawned {| Bee.ACTIVE := ∅; Bee.spawned := [] |}
      = Bee.spawned {| Bee.ACTIVE := ∅; Bee.spawned := [] |} /\
    (List.find (fun s => String.eqb (Bee.id s) "nowhere") (Bee.CATALOGUE bee_env) = None \/
     ("nowhere" = "brave-search" /\ Bee.BRAVE_API_KEY bee_env = false)))
   \/
   (Bee.spawned {| Bee.ACTIVE := ∅; Bee.spawned := [] |}
      = Bee.spawned {| Bee.ACTIVE := ∅; Bee.spawned := [] |} ++ ["nowhere"] /\
    exists spec,
      List.find (fun s => String.eqb (Bee.id s) "nowhere") (Bee.CATALOGUE bee_env) = Some spec /\
      (Bee.client_connect bee_env spec = Thrown "Unknown server 'nowhere'" \/
       exists c, Bee.client_connect bee_env spec = Done c /\
                 Bee.MCPTool_fromClient bee_env c = Thrown "Unknown server 'nowhere'"))).
Proof.
  split; [reflexivity|].
  apply (connectToServer_failure bee_env "nowhere" {| Bee.ACTIVE := ∅; Bee.spawned := [] |}
           {| Bee.ACTIVE := ∅; Bee.spawned := [] |} "Unknown server 'nowhere'").
  reflexivity.
Defined.

(** ** Connecting, then disconnecting *)

Lemma connectToServer_success E i s s1 :
  Bee.ACTIVE_truthy s i = false ->
  Bee.connectToServer E i s = (Done tt, s1) ->
  exists spec c tools,
    List.find (fun x => String.eqb (Bee.id x) i) (Bee.CATALOGUE E) = Some spec /\
    Bee.client_connect E spec = Done c /\
    Bee.MCPTool_fromClient E c = Done tools /\
    s1 = {| Bee.ACTIVE := <[i := {| Bee.client := c; Bee.agent_tools := tools |}]> (Bee.ACTIVE s);
            Bee.spawned := Bee.spawned s ++ [i] |}.
Proof.
  intros Hfalse. unfold Bee.connectToServer, bind at 1, get. rewrite Hfalse.
  destruct (List.find _ (Bee.CATALOGUE E)) as [spec|]; [|discriminate].
  destruct (String.eqb (Bee.id spec) "brave-search" && negb (Bee.BRAVE_API_KEY E)); [discriminate|].
  unfold bind, modify, lift. cbn [Bee.ACTIVE Bee.spawned].
  destruct (Bee.client_connect E spec) as [c|e1] eqn:Hconn; [|discriminate].
  destruct (Bee.MCPTool_fromClient E c) as [tools|e2] eqn:Htools; [|discriminate].
  intros [= <-]. exists spec, c, tools.
  split; [reflexivity|]. split; [exact Hconn|]. split; [exact Htools|reflexivity].
Qed.

Lemma ACTIVE_truthy_false s i :
  Bee.ACTIVE_truthy s i = false ->
  Bee.ACTIVE s !! i = None /\ existsb (String.eqb i) Bee.inherited_keys = false.
Proof.
  unfold Bee.ACTIVE_truthy. destruct (Bee.ACTIVE s !! i); [discriminate|]. auto.
Qed.

(** ** Ids that every object knows *)

(** X21.  For an id that names a property of [Object.prototype] and is not in
    the cache: /connect answers "connected" although [connectToServer]
    looked nothing up and spawned nothing; the cache and the clients
    closed are as before, and the only state the route changes is the
    chat store, through [getOrCreateChat(chatId, id)], when a chat id
    is given.  [disconnectFromServer] throws the TypeError before it
    changes anything, and /disconnect does not catch it: under express
    4 the process ends without an answer, under express 5 the answer
    is status 500 and the state is as before. *)
Theorem inherited_id_quirk (E : Bee.Env) (client_close : nat -> Outcome unit)
    (express : Framework) (uuid i : string) (chatId : option string) (w : Agent.World) :
  i ∈ Bee.inherited_keys ->
  Bee.ACTIVE (service w) !! i = None ->
  (let (reply, w') := post_connect E uuid i chatId w in
   (exists id, reply = ConnectedAs id) /\
   service w' = service w /\
   closed w' = closed w /\
   chats w' = match chatId with
              | Some cid =>
                  if String.eqb cid EmptyString then chats w
                  else snd (getOrCreateChat uuid (Some cid) (Some i) (chats w))
              | None => chats w
              end) /\
  post_connect E uuid i None w = (ConnectedAs "1", w) /\
  disconnectFromServer client_close i w = (Thrown undefined_close, w) /\
  post_disconnect client_close express i chatId w =
    match express with
    | Express4 => (ProcessExits undefined_close, None)
    | Express5 => (InternalError undefined_close, Some w)
    end.
Proof.
  intros Hin Hnone.
  assert (Hex : existsb (String.eqb i) Bee.inherited_keys = true).
  { apply existsb_exists. exists i. split; [apply list_elem_of_In, Hin|apply String.eqb_refl]. }
  assert (Hconnect : on_service (Bee.connectToServer E i) w = (Done tt, w)).
  { unfold on_service, Bee.connectToServer, bind, get, Bee.ACTIVE_truthy.
    rewrite Hnone, Hex. unfold ret. destruct w; reflexivity. }
  assert (Hthrow : disconnectFromServer client_close i w = (Thrown undefined_close, w)).
  { unfold disconnectFromServer, bind, get. rewrite Hnone, Hex. reflexivity. }
  split; [|split; [|split]].
  - unfold post_connect. rewrite Hconnect. destruct chatId as [cid|].
    + destruct (String.eqb cid EmptyString).
      * split; [eexists; reflexivity|]. repeat split.
      * destruct (getOrCreateChat uuid (Some cid) (Some i) (chats w)) as [chat chats'].
        split; [eexists; reflexivity|]. repeat split.
    + split; [eexists; reflexivity|]. repeat split.
  - unfold post_connect. rewrite Hconnect. reflexivity.
  - exact Hthrow.
  - unfold post_disconnect. rewrite Hthrow. reflexivity.
Qed.

Lemma inherited_id_quirk_witness :
  "constructor" ∈ Bee.inherited_keys /\
  Bee.ACTIVE (service connected_backend) !! "constructor" = None /\
  (let (reply, w') := post_connect bee_env "91ab" "constructor" (Some "7d0c") connected_backend in
   (exists id, reply = ConnectedAs id) /\
   service w' = service connected_backend /\
   closed w' = closed connected_backend /\
   chats w' = match Some "7d0c" with
              | Some cid =>
                  if String.eqb cid EmptyString then chats connected_backend
                  else snd (getOrCreateChat "91ab" (Some cid) (Some "constructor")
                                            (chats connected_backend))
              | None => chats connected_backend
              end) /\
  post_connect bee_env "91ab" "constructor" None connected_backend
    = (ConnectedAs "1", connected_backend) /\
  disconnectFromServer closes "constructor" connected_backend
    = (Thrown undefined_close, connected_backend) /\
  post_disconnect closes Express4 "constructor" (Some "7d0c") connected_backend
    = (ProcessExits undefined_close, None).
Proof.
  assert (Hin : "constructor" ∈ Bee.inherited_keys).
  { unfold Bee.inherited_keys. apply elem_of_cons. left. reflexivity. }
  assert (Hnone : Bee.ACTIVE (service connected_backend) !! "constructor" = None).
  { unfold connected_backend, bee_world. cbn [service Bee.ACTIVE].
    apply lookup_singleton_ne. discriminate. }
  split; [exact Hin|]. split; [exact Hnone|].
  apply (inherited_id_quirk bee_env closes Express4 "91ab" "constructor" (Some "7d0c")
           connected_backend Hin Hnone).
Defined.

(** ** The route /disconnect *)

Lemma disconnect_done client_close i w conn :
  Bee.ACTIVE (service w) !! i = Some conn ->
  client_close (Bee.client conn) = Done tt ->
  disconnectFromServer client_close i w =
  (Done tt, {| service := {| Bee.ACTIVE := delete i (Bee.ACTIVE (service w));
                             Bee.spawned := Bee.spawned (service w) |};
               closed := closed w ++ [Bee.client conn];
               chats := chats w |}).
Proof.
  intros Hconn Hclose. unfold disconnectFromServer, bind at 1, get. rewrite Hconn.
  unfold bind, modify, lift. rewrite Hclose. reflexivity.
Qed.

Lemma disconnect_thrown client_close i w conn e :
  Bee.ACTIVE (service w) !! i = Some conn ->
  client_close (Bee.client conn) = Thrown e ->
  disconnectFromServer client_close i w =
  (Thrown e, {| service := service w; closed := closed w ++ [Bee.client conn];
                chats := chats w |}).
Proof.
  intros Hconn Hclose. unfold disconnectFromServer, bind at 1, get. rewrite Hconn.
  unfold bind, modify, lift. rewrite Hclose. reflexivity.
Qed.

(** X22.  /disconnect for a connected id calls [close] on its client.  If
    the client closes, the route answers, the entry is removed, the
    first chat with the given chat id no longer names a server, and no
    id or history changes.  If the client refuses,
    [disconnectFromServer] throws before the [delete], with the entry
    still in the cache and no chat touched, and the route does not
    catch it: under express 4 the process ends and no answer is sent,
    under express 5 the answer is status 500 and the entry stays. *)
Theorem post_disconnect_outcomes (client_close : nat -> Outcome unit) (express : Framework)
    (i : string) (chatId : option string) (w : Agent.World) (conn : Bee.ActiveConnection) :
  Bee.ACTIVE (service w) !! i = Some conn ->
  match client_close (Bee.client conn) with
  | Done _ =>
      exists w',
        post_disconnect client_close express i chatId w = (DisconnectedFrom i, Some w') /\
        closed w' = closed w ++ [Bee.client conn] /\
        Bee.ACTIVE (service w') = delete i (Bee.ACTIVE (service w)) /\
        map chat_id (chats w') = map chat_id (chats w) /\
        map chat_history (chats w') = map chat_history (chats w) /\
        (forall cid k, chatId = Some cid -> cid <> EmptyString ->
                       getChat cid (chats w) = Some k ->
                       chat_mcpId <$> chats w' !! k = Some None)
  | Thrown e =>
      exists w1,
        disconnectFromServer client_close i w = (Thrown e, w1) /\
        closed w1 = closed w ++ [Bee.client conn] /\
        Bee.ACTIVE (service w1) = Bee.ACTIVE (service w) /\
        chats w1 = chats w /\
        post_disconnect client_close express i chatId w =
          match express with
          | Express4 => (ProcessExits e, None)
          | Express5 => (InternalError e, Some w1)
          end
  end.
Proof.
  intros Hconn.
  destruct (client_close (Bee.client conn)) as [[]|e] eqn:Hclose.
  2:{ pose proof (disconnect_thrown client_close i w conn e Hconn Hclose) as Hthrow.
      eexists. split; [exact Hthrow|]. split; [reflexivity|]. split; [reflexivity|].
      split; [reflexivity|]. unfold post_disconnect. rewrite Hthrow. reflexivity. }
  pose proof (disconnect_done client_close i w conn Hconn Hclose) as Hdone.
  unfold post_disconnect. rewrite Hdone. cbn [service closed chats Bee.ACTIVE].
  assert (Hplain : forall w1 : Agent.World,
            closed w1 = closed w ++ [Bee.client conn] ->
            Bee.ACTIVE (service w1) = delete i (Bee.ACTIVE (service w)) ->
            chats w1 = chats w ->
            (forall cid k, chatId = Some cid -> cid <> EmptyString ->
                           getChat cid (chats w) = Some k -> False) ->
            closed w1 = closed w ++ [Bee.client conn] /\
            Bee.ACTIVE (service w1) = delete i (Bee.ACTIVE (service w)) /\
            map chat_id (chats w1) = map chat_id (chats w) /\
            map chat_history (chats w1) = map chat_history (chats w) /\
            (forall cid k, chatId = Some cid -> cid <> EmptyString ->
                           getChat cid (chats w) = Some k ->
                           chat_mcpId <$> chats w1 !! k = Some None)).
  { intros w1 H1 H2 H3 H4. rewrite H3. repeat split; auto.
    intros cid k Hc Hne Hk. exfalso. eapply H4; eauto. }
  eexists. split; [reflexivity|].
  destruct chatId as [cid|].
  2:{ apply Hplain; try reflexivity. intros cid k Hc. discriminate. }
  destruct (String.eqb_spec cid EmptyString) as [Hempty|Hne].
  { apply Hplain; try reflexivity. intros cid' k [= <-] Hne. contradiction. }
  destruct (getChat cid (chats w)) as [k|] eqn:Hk.
  2:{ apply Hplain; try reflexivity. intros cid' k [= <-] _ Hk'. congruence. }
  cbn [service closed chats Bee.ACTIVE]. split; [reflexivity|]. split; [reflexivity|].
  split; [apply ChatStoreFacts.map_alter_same; reflexivity|].
  split; [apply ChatStoreFacts.map_alter_same; reflexivity|].
  intros cid' k' [= <-] _ Hk'. rewrite Hk in Hk'. injection Hk' as <-.
  rewrite list_lookup_alter_eq.
  destruct (ChatStoreFacts.getChat_Some _ _ _ Hk) as (chat & -> & _). reflexivity.
Qed.

Lemma post_disconnect_outcomes_witness :
  Bee.ACTIVE (service connected_backend) !! "filesystem" = Some bee_connection /\
  match refuses (Bee.client bee_connection) with
  | Done _ =>
      exists w',
        post_disconnect refuses Express5 "filesystem" (Some "7d0c") connected_backend
          = (DisconnectedFrom "filesystem", Some w') /\
        closed w' = closed connected_backend ++ [Bee.client bee_connection] /\
        Bee.ACTIVE (service w') = delete "filesystem" (Bee.ACTIVE (service connected_backend)) /\
        map chat_id (chats w') = map chat_id (chats connected_backend) /\
        map chat_history (chats w') = map chat_history (chats connected_backend) /\
        (forall cid k, Some "7d0c" = Some cid -> cid <> EmptyString ->
                       getChat cid (chats connected_backend) = Some k ->
                       chat_mcpId <$> chats w' !! k = Some None)
  | Thrown e =>
      exists w1,
        disconnectFromServer refuses "filesystem" connected_backend = (Thrown e, w1) /\
        closed w1 = closed connected_backend ++ [Bee.client bee_connection] /\
        Bee.ACTIVE (service w1) = Bee.ACTIVE (service connected_backend) /\
        chats w1 = chats connected_backend /\
        post_disconnect refuses Express5 "filesystem" (Some "7d0c") connected_backend
          = (InternalError e, Some w1)
  end.
Proof.
  assert (H : Bee.ACTIVE (service connected_backend) !! "filesystem" = Some bee_connection).
  { unfold connected_backend, bee_world. cbn [service Bee.ACTIVE]. apply lookup_singleton_eq. }
  split; [exact H|].
  apply (post_disconnect_outcomes refuses Express5 "filesystem" (Some "7d0c") connected_backend
           bee_connection H).
Defined.

(** ** Chats and connections *)

Lemma post_connect_done E uuid i cid w w1 :
  cid <> EmptyString ->
  on_service (Bee.connectToServer E i) w = (Done tt, w1) ->
  post_connect E uuid i (Some cid) w =
  (ConnectedAs (reply_id (snd (getOrCreateChat uuid (Some cid) (Some i) (chats w))
                          !! fst (getOrCreateChat uuid (Some cid) (Some i) (chats w)))),
   {| service := service w1; closed := closed w;
      chats := snd (getOrCreateChat uuid (Some cid) (Some i) (chats w)) |}).
Proof.
  intros Hne Hrun. unfold post_connect. rewrite Hrun.
  destruct (String.eqb_spec cid EmptyString) as [|_]; [contradiction|].
  assert (Hsame : chats w1 = chats w /\ closed w1 = closed w).
  { unfold on_service in Hrun. destruct (Bee.connectToServer E i (service w)).
    injection Hrun as _ <-. split; reflexivity. }
  destruct Hsame as [-> ->].
  destruct (getOrCreateChat uuid (Some cid) (Some i) (chats w)) as [k chats']. reflexivity.
Qed.

(** X23.  For a non-empty chat id the store knows and a server id that is
    not the name of a property of [Object.prototype], when
    [connectToServer] succeeds and clients close: /connect writes the
    server into the chat and answers with the id of the chat;
    /disconnect with the same ids answers, clears the server of the
    chat again and leaves the number of chats as it was.  Afterwards
    the cache is the cache before the connect without an entry for the
    server: as it was when the server was not connected before, and
    without the entry that was there when it was. *)
Theorem known_chat_follows_connection (E : Bee.Env) (client_close : nat -> Outcome unit)
    (express : Framework) (uuid i cid : string) (w w1 : Agent.World) (k : nat) :
  cid <> EmptyString ->
  i ∉ Bee.inherited_keys ->
  on_service (Bee.connectToServer E i) w = (Done tt, w1) ->
  (forall c, client_close c = Done tt) ->
  getChat cid (chats w) = Some k ->
  let (reply, w2) := post_connect E uuid i (Some cid) w in
  let (reply', after) := post_disconnect client_close express i (Some cid) w2 in
  reply = ConnectedAs cid /\
  chat_mcpId <$> chats w2 !! k = Some (Some i) /\
  reply' = DisconnectedFrom i /\
  exists w3,
    after = Some w3 /\
    chat_mcpId <$> chats w3 !! k = Some None /\
    length (chats w3) = length (chats w) /\
    Bee.ACTIVE (service w3) = delete i (Bee.ACTIVE (service w)) /\
    (Bee.ACTIVE (service w) !! i = None ->
     Bee.ACTIVE (service w3) = Bee.ACTIVE (service w)).
Proof.
  intros Hne Hown Hrun Hclose Hk.
  rewrite (post_connect_done E uuid i cid w w1 Hne Hrun).
  destruct (ChatStoreFacts.getChat_Some _ _ _ Hk) as (chat & Hchat & Hid).
  assert (Hget : getOrCreateChat uuid (Some cid) (Some i) (chats w)
                 = (k, alter (set_mcpId (Some i)) k (chats w))).
  { unfold getOrCreateChat. destruct (String.eqb_spec cid EmptyString) as [|_]; [contradiction|].
    now rewrite Hk. }
  rewrite Hget. cbn [fst snd].
  assert (Hconn : exists conn, Bee.ACTIVE (service w1) !! i = Some conn /\
                               delete i (Bee.ACTIVE (service w1))
                               = delete i (Bee.ACTIVE (service w))).
  { unfold on_service in Hrun.
    destruct (Bee.connectToServer E i (service w)) as [[[]|e] s1] eqn:Hc; [|discriminate].
    injection Hrun as <-. cbn [service].
    destruct (Bee.ACTIVE_truthy (service w) i) eqn:Htruthy.
    - unfold Bee.connectToServer, bind, get in Hc. rewrite Htruthy in Hc.
      injection Hc as <-. unfold Bee.ACTIVE_truthy in Htruthy.
      destruct (Bee.ACTIVE (service w) !! i) as [conn|] eqn:Hentry.
      + exists conn. split; reflexivity.
      + exfalso. apply Hown. apply existsb_exists in Htruthy.
        destruct Htruthy as (j & Hj & Heq). apply String.eqb_eq in Heq. subst j.
        apply list_elem_of_In, Hj.
    - destruct (connectToServer_success E i _ _ Htruthy Hc) as (spec & c & tools & _ & _ & _ & ->).
      eexists. cbn [Bee.ACTIVE]. split; [apply lookup_insert_eq|apply delete_insert_eq]. }
  destruct Hconn as (conn & Hconn & Hdel).
  unfold post_disconnect.
  rewrite (disconnect_done client_close i _ conn) by (cbn [service]; auto).
  destruct (String.eqb_spec cid EmptyString) as [|_]; [contradiction|].
  cbn [service closed chats].
  rewrite ChatStoreFacts.getChat_alter by reflexivity. rewrite Hk.
  split.
  { rewrite list_lookup_alter_eq, Hchat. cbn [fmap option_fmap option_map].
    unfold reply_id. cbn [set_mcpId chat_id]. rewrite Hid.
    destruct (String.eqb_spec cid EmptyString) as [|_]; [contradiction|reflexivity]. }
  split.
  { rewrite list_lookup_alter_eq, Hchat. reflexivity. }
  split; [reflexivity|].
  eexists. split; [reflexivity|]. cbn [service closed chats Bee.ACTIVE].
  split.
  { rewrite !list_lookup_alter_eq, Hchat. reflexivity. }
  split; [now rewrite !length_alter|].
  split; [exact Hdel|].
  intros Hnone. rewrite Hdel. apply delete_id, Hnone.
Qed.

Lemma known_chat_follows_connection_witness :
  "7d0c" <> EmptyString /\
  ("filesystem" ∉ Bee.inherited_keys) /\
  on_service (Bee.connectToServer bee_env "filesystem") connected_backend
    = (Done tt, connected_backend) /\
  (forall c, closes c = Done tt) /\
  getChat "7d0c" (chats connected_backend) = Some 0%nat /\
  let (reply, w2) := post_connect bee_env "91ab" "filesystem" (Some "7d0c") connected_backend in
  let (reply', after) := post_disconnect closes Express4 "filesystem" (Some "7d0c") w2 in
  reply = ConnectedAs "7d0c" /\
  chat_mcpId <$> chats w2 !! 0%nat = Some (Some "filesystem") /\
  reply' = DisconnectedFrom "filesystem" /\
  exists w3,
    after = Some w3 /\
    chat_mcpId <$> chats w3 !! 0%nat = Some None /\
    length (chats w3) = length (chats connected_backend) /\
    Bee.ACTIVE (service w3) = delete "filesystem" (Bee.ACTIVE (service connected_backend)) /\
    (Bee.ACTIVE (service connected_backend) !! "filesystem" = None ->
     Bee.ACTIVE (service w3) = Bee.ACTIVE (service connected_backend)).
Proof.
  assert (Hown : "filesystem" ∉ Bee.inherited_keys).
  { unfold Bee.inherited_keys. intros Hin.
    repeat (apply elem_of_cons in Hin; destruct Hin as [Hin|Hin]; [discriminate|]).
    inversion Hin. }
  assert (H : on_service (Bee.connectToServer bee_env "filesystem") connected_backend
              = (Done tt, connected_backend)).
  { unfold on_service, connected_backend, bee_world. cbn [service closed chats].
    unfold Bee.connectToServer, bind, get, Bee.ACTIVE_truthy.
    cbn [Bee.ACTIVE]. rewrite lookup_singleton_eq. reflexivity. }
  split; [discriminate|]. split; [exact Hown|]. split; [exact H|]. split; [reflexivity|].
  split; [reflexivity|].
  refine (known_chat_follows_connection bee_env closes Express4 "91ab" "filesystem" "7d0c"
            connected_backend connected_backend 0 _ Hown H (fun _ => eq_refl) eq_refl).
  discriminate.
Defined.



End AgentFacts.

(* ================================================================== *)
(** * Properties of the catalogue search *)
(* ================================================================== *)

Module CatalogueFacts.
Import JS Eff Catalogue CatalogueNotions.

(** ** Strings *)

Lemma lower_unit_idempotent c : lower_unit (lower_unit c) = lower_unit c.
Proof. destruct c as [[] [] [] [] [] [] [] []]; reflexivity. Qed.

Lemma toLowerCase_idempotent s : toLowerCase (toLowerCase s) = toLowerCase s.
Proof. induction s as [|c s IH]; simpl; [reflexivity|]. now rewrite lower_unit_idempotent, IH. Qed.

Lemma toLowerCase_empty s : String.eqb (toLowerCase s) EmptyString = String.eqb s EmptyString.
Proof. destruct s; reflexivity. Qed.

Lemma includes_empty s : includes s EmptyString = true.
Proof. destruct s; reflexivity. Qed.

(** ** [fetchMCPServers] *)

Lemma slice_front_sublist {A} (arr : list A) n : slice_front arr n `sublist_of` arr.
Proof. unfold slice_front. destruct (0 <=? n); apply sublist_take. Qed.

Lemma slice_front_length {A} (arr : list A) n :
  0 < n -> Z.of_nat (length (slice_front arr n)) <= n.
Proof.
  intros Hn. unfold slice_front. destruct (Z.leb_spec 0 n); [|lia].
  rewrite length_take. lia.
Qed.

Lemma filter_sublist {A} (p : A -> bool) l : List.filter p l `sublist_of` l.
Proof.
  induction l as [|x l IH]; simpl; [constructor|].
  destruct (p x); [apply sublist_skip|apply sublist_cons]; exact IH.
Qed.

Lemma fetch_unlimited catalogue params :
  fetchMCPServers catalogue {| p_query := p_query params; p_category := p_category params;
                               p_limit := None |}
  = List.filter (passes params) catalogue.
Proof.
  unfold fetchMCPServers, passes. cbn [p_query p_category p_limit].
  destruct (given (p_category params)) as [c|]; destruct (given (p_query params)) as [q|].
  - induction catalogue as [|s l IH]; [reflexivity|]. cbn [List.filter].
    destruct (includes (toLowerCase (l_category s)) (toLowerCase c)); cbn [List.filter andb].
    + destruct (includes (searchText s) (toLowerCase q)); now rewrite IH.
    + exact IH.
  - apply List.filter_ext. intros s. now rewrite andb_true_r.
  - reflexivity.
  - induction catalogue as [|s l IH]; [reflexivity|]. simpl. f_equal. exact IH.
Qed.

Lemma fetch_limited catalogue params :
  fetchMCPServers catalogue params =
  match p_limit params with
  | Some limit =>
      if limit =? 0 then List.filter (passes params) catalogue
      else slice_front (List.filter (passes params) catalogue) limit
  | None => List.filter (passes params) catalogue
  end.
Proof.
  rewrite <- fetch_unlimited. unfold fetchMCPServers. cbn [p_query p_category p_limit].
  destruct (p_limit params) as [limit|]; reflexivity.
Qed.

(** X25.  What a search returns: servers of the catalogue, in the order of the
    catalogue, each passing the filters that were given; at most
    [limit] of them for a positive limit; all of them when the limit is
    absent or zero.  GET /api/mcp/servers without a limit returns at
    most twenty. *)
Theorem fetchMCPServers_search (catalogue : list Listing) (params : SearchParams) :
  fetchMCPServers catalogue params `sublist_of` catalogue /\
  (forall s, s ∈ fetchMCPServers catalogue params -> passes params s = true) /\
  (forall limit, p_limit params = Some limit -> 0 < limit ->
                 Z.of_nat (length (fetchMCPServers catalogue params)) <= limit) /\
  (p_limit params = None \/ p_limit params = Some 0 ->
   forall s, s ∈ catalogue -> passes params s = true -> s ∈ fetchMCPServers catalogue params) /\
  (snd (api_mcp_servers catalogue (p_category params) None) <= 20)%nat.
Proof.
  assert (Htwenty : (snd (api_mcp_servers catalogue (p_category params) None) <= 20)%nat).
  { unfold api_mcp_servers. cbn [snd]. rewrite fetch_limited. cbn [p_limit].
    pose proof (slice_front_length
                  (List.filter (passes {| p_query := None; p_category := p_category params;
                                          p_limit := Some 20 |}) catalogue) 20 ltac:(lia)) as H.
    cbn [Z.eqb]. lia. }
  rewrite fetch_limited.
  assert (Hall : forall s, s ∈ List.filter (passes params) catalogue -> passes params s = true).
  { intros s Hs. apply list_elem_of_In, List.filter_In in Hs. apply Hs. }
  split; [|split; [|split; [|split; [|exact Htwenty]]]].
  - destruct (p_limit params) as [limit|]; [destruct (limit =? 0)|]; try apply filter_sublist.
    etransitivity; [apply slice_front_sublist|apply filter_sublist].
  - intros s Hs. apply Hall.
    destruct (p_limit params) as [limit|]; [destruct (limit =? 0)|]; try exact Hs.
    eapply elem_of_sublist; [exact Hs|apply slice_front_sublist].
  - intros limit -> Hpos. destruct (Z.eqb_spec limit 0); [lia|].
    apply slice_front_length, Hpos.
  - intros Hlimit s Hs Hpass.
    assert (Hin : s ∈ List.filter (passes params) catalogue).
    { apply list_elem_of_In, List.filter_In. split; [apply list_elem_of_In, Hs|exact Hpass]. }
    destruct Hlimit as [->| ->]; exact Hin.
Qed.

(** X26.  The search does not depend on the case of the query or of the
    category: two searches whose queries and categories have the same
    lower-case form return the same servers. *)
Theorem fetchMCPServers_ignores_case (catalogue : list Listing)
    (query query' category category' : string) (limit : option Z) :
  toLowerCase query = toLowerCase query' ->
  toLowerCase category = toLowerCase category' ->
  fetchMCPServers catalogue {| p_query := Some query; p_category := Some category;
                               p_limit := limit |}
  = fetchMCPServers catalogue {| p_query := Some query'; p_category := Some category';
                                 p_limit := limit |}.
Proof.
  intros Hq Hc. rewrite !fetch_limited. cbn [p_limit].
  assert (Hsame : forall s,
            passes {| p_query := Some query; p_category := Some category; p_limit := limit |} s
            = passes {| p_query := Some query'; p_category := Some category'; p_limit := limit |} s).
  { intros s. unfold passes, given. cbn [p_query p_category].
    rewrite <- (toLowerCase_empty query), <- (toLowerCase_empty category), Hq, Hc,
            !toLowerCase_empty.
    destruct (String.eqb category' EmptyString), (String.eqb query' EmptyString);
      rewrite ?Hq, ?Hc; reflexivity. }
  rewrite (List.filter_ext _ _ Hsame). reflexivity.
Qed.

Lemma fetchMCPServers_ignores_case_witness :
  toLowerCase "GitHub" = toLowerCase "github" /\
  toLowerCase "TOOLS" = toLowerCase "tools" /\
  fetchMCPServers three_servers {| p_query := Some "GitHub"; p_category := Some "TOOLS";
                                   p_limit := Some 3 |}
  = fetchMCPServers three_servers {| p_query := Some "github"; p_category := Some "tools";
                                     p_limit := Some 3 |}.
Proof.
  split; [reflexivity|]. split; [reflexivity|].
  apply (fetchMCPServers_ignores_case three_servers "GitHub" "github" "TOOLS" "tools" (Some 3));
    reflexivity.
Defined.

(** ** Keyword recommendations *)

Lemma insert_by_score_perm item sorted :
  insert_by_score item sorted ≡ₚ item :: sorted.
Proof.
  induction sorted as [|other rest IH]; simpl; [reflexivity|].
  destruct (snd other <=? snd item); [reflexivity|].
  rewrite IH. apply Permutation_swap.
Qed.

Lemma sort_by_score_perm scores : sort_by_score scores ≡ₚ scores.
Proof.
  induction scores as [|item rest IH]; simpl; [reflexivity|].
  rewrite insert_by_score_perm, IH. reflexivity.
Qed.

Lemma descending_nil : descending [].
Proof.
  intros front back H a b Ha. symmetry in H. apply app_eq_nil in H.
  destruct H as [-> _]. inversion Ha.
Qed.

Lemma descending_cons x l :
  (forall b, b ∈ l -> snd b <= snd x) -> descending l -> descending (x :: l).
Proof.
  intros Hx Hl front back H a b Ha Hb. destruct front as [|y front].
  - inversion Ha.
  - injection H as <- H. apply elem_of_cons in Ha. destruct Ha as [->|Ha].
    + apply Hx. rewrite H. apply elem_of_app. right; exact Hb.
    + eapply Hl; eauto.
Qed.

Lemma descending_inv x l :
  descending (x :: l) -> (forall b, b ∈ l -> snd b <= snd x) /\ descending l.
Proof.
  intros H. split.
  - intros b Hb. apply (H [x] l eq_refl x b); [apply elem_of_cons; left; reflexivity|exact Hb].
  - intros front back Hl a b Ha Hb.
    apply (H (x :: front) back); [now rewrite Hl| |exact Hb].
    apply elem_of_cons. right; exact Ha.
Qed.

Lemma insert_by_score_descending item sorted :
  descending sorted -> descending (insert_by_score item sorted).
Proof.
  induction sorted as [|other rest IH]; intros Hs; simpl.
  - apply descending_cons; [intros b Hb; inversion Hb|apply descending_nil].
  - destruct (descending_inv _ _ Hs) as [Hother Hrest].
    destruct (Z.leb_spec (snd other) (snd item)) as [Hle|Hlt].
    + apply descending_cons; [|exact Hs].
      intros b Hb. apply elem_of_cons in Hb. destruct Hb as [->|Hb]; [exact Hle|].
      specialize (Hother b Hb). lia.
    + apply descending_cons; [|apply IH, Hrest].
      intros b Hb. rewrite insert_by_score_perm in Hb.
      apply elem_of_cons in Hb. destruct Hb as [->|Hb]; [lia|apply Hother, Hb].
Qed.

Lemma sort_by_score_descending scores : descending (sort_by_score scores).
Proof.
  induction scores as [|item rest IH]; simpl; [apply descending_nil|].
  apply insert_by_score_descending, IH.
Qed.

Lemma scored_items catalogue query item :
  item ∈ sort_by_score (map (fun server => (server, score query server)) catalogue) ->
  fst item ∈ catalogue /\ snd item = score query (fst item).
Proof.
  rewrite sort_by_score_perm. intros H. apply list_elem_of_fmap in H.
  destruct H as (server & -> & Hs). split; [exact Hs|reflexivity].
Qed.

Lemma filter_all {A} (p : A -> bool) l :
  (forall x, x ∈ l -> p x = true) -> List.filter p l = l.
Proof.
  induction l as [|x l IH]; intros H; simpl; [reflexivity|].
  rewrite (H x) by (apply elem_of_cons; left; reflexivity).
  f_equal. apply IH. intros y Hy. apply H. apply elem_of_cons. right; exact Hy.
Qed.

(** X27.  The keyword recommendation returns at most three ids, each the id
    of a server of the catalogue that scores above zero; and it returns
    the best: a server that scores above zero is among them, unless
    three servers that score at least as much are returned. *)
Theorem keywords_best_three (catalogue : list Listing) (query : string) :
  (length (recommendMCPServersByKeywords catalogue query) <= 3)%nat /\
  (forall id, id ∈ recommendMCPServersByKeywords catalogue query ->
     exists s, s ∈ catalogue /\ l_id s = id /\ 0 < score query s) /\
  (forall s, s ∈ catalogue -> 0 < score query s ->
     l_id s ∈ recommendMCPServersByKeywords catalogue query \/
     (length (recommendMCPServersByKeywords catalogue query) = 3%nat /\
      forall id, id ∈ recommendMCPServersByKeywords catalogue query ->
        exists r, r ∈ catalogue /\ l_id r = id /\ score query s <= score query r)).
Proof.
  unfold recommendMCPServersByKeywords, fetchMCPServers, no_params.
  cbn [given p_category p_query p_limit].
  set (sorted := sort_by_score (map (fun server => (server, score query server)) catalogue)).
  assert (Hitems : forall item, item ∈ sorted ->
                     fst item ∈ catalogue /\ snd item = score query (fst item)).
  { intros item. apply scored_items. }
  assert (Hdesc : descending sorted) by apply sort_by_score_descending.
  split; [|split].
  - rewrite length_map.
    etransitivity; [apply sublist_length, filter_sublist|]. rewrite length_take. lia.
  - intros id Hid. apply list_elem_of_fmap in Hid. destruct Hid as (item & -> & Hitem).
    apply list_elem_of_In, List.filter_In in Hitem. destruct Hitem as [Hin Hpos].
    apply list_elem_of_In in Hin.
    assert (Hs : item ∈ sorted) by (eapply elem_of_sublist; [exact Hin|apply sublist_take]).
    destruct (Hitems item Hs) as [Hcat Hscore].
    exists (fst item). split; [exact Hcat|]. split; [reflexivity|].
    rewrite <- Hscore. apply Z.ltb_lt. exact Hpos.
  - intros s Hs Hpos.
    assert (Hin : (s, score query s) ∈ sorted).
    { unfold sorted. rewrite sort_by_score_perm. apply list_elem_of_fmap.
      exists s. split; [reflexivity|exact Hs]. }
    rewrite <- (take_drop 3 sorted) in Hin. apply elem_of_app in Hin.
    destruct Hin as [Hfront|Hback].
    + left. apply list_elem_of_fmap. exists (s, score query s). split; [reflexivity|].
      apply list_elem_of_In, List.filter_In. split; [apply list_elem_of_In, Hfront|].
      apply Z.ltb_lt. exact Hpos.
    + right.
      assert (Hge : forall a, a ∈ take 3 sorted -> score query s <= snd a).
      { intros a Ha.
        apply (Hdesc (take 3 sorted) (drop 3 sorted) (eq_sym (take_drop 3 sorted))
                     a (s, score query s) Ha Hback). }
      rewrite filter_all.
      2:{ intros a Ha. apply Z.ltb_lt. specialize (Hge a Ha). lia. }
      split.
      * rewrite length_map, length_take.
        assert (Hlong : (3 < length sorted)%nat).
        { destruct (le_lt_dec (length sorted) 3) as [Hshort|]; [|assumption].
          rewrite drop_ge in Hback by exact Hshort. inversion Hback. }
        lia.
      * intros id Hid. apply list_elem_of_fmap in Hid. destruct Hid as (item & -> & Hitem).
        assert (Hsorted : item ∈ sorted) by (eapply elem_of_sublist; [exact Hitem|apply sublist_take]).
        destruct (Hitems item Hsorted) as [Hcat Hscore].
        exists (fst item). split; [exact Hcat|]. split; [reflexivity|].
        rewrite <- Hscore. apply Hge, Hitem.
Qed.

(** X28.  A query with a blank keyword (an empty query, a leading or trailing
    space, two spaces in a row) matches everything: every server scores
    at least one, so the first three servers of the sorted catalogue
    are recommended whatever the other words are. *)
Theorem blank_keyword_matches_all (catalogue : list Listing) (query : string) :
  EmptyString ∈ split " " (toLowerCase query) ->
  (forall s, 1 <= score query s) /\
  length (recommendMCPServersByKeywords catalogue query) = Nat.min 3 (length catalogue).
Proof.
  intros Hblank.
  assert (Hscore : forall s, 1 <= score query s).
  { intros s. unfold score.
    assert (Hone : (1 <= length (List.filter (fun keyword => includes (searchText s) keyword)
                                             (split " " (toLowerCase query))))%nat).
    { assert (Hin : EmptyString ∈ List.filter (fun keyword => includes (searchText s) keyword)
                                  (split " " (toLowerCase query))).
      { apply list_elem_of_In, List.filter_In. split; [apply list_elem_of_In, Hblank|].
        apply includes_empty. }
      destruct (List.filter _ _); [inversion Hin|simpl; lia]. }
    destruct (includes (toLowerCase query) "code" && String.eqb (l_category s) "Developer Tools");
    destruct (includes (toLowerCase query) "search"
              && String.eqb (l_category s) "Internet & Research");
    destruct (includes (toLowerCase query) "data" && String.eqb (l_category s) "Data"); lia. }
  split; [exact Hscore|].
  unfold recommendMCPServersByKeywords, fetchMCPServers, no_params.
  cbn [given p_category p_query p_limit].
  rewrite filter_all.
  - rewrite length_map, length_take.
    rewrite (Permutation_length (sort_by_score_perm _)), length_map. reflexivity.
  - intros item Hitem.
    assert (Hs : item ∈ sort_by_score (map (fun server => (server, score query server)) catalogue))
      by (eapply elem_of_sublist; [exact Hitem|apply sublist_take]).
    destruct (scored_items _ _ _ Hs) as [_ ->]. apply Z.ltb_lt. specialize (Hscore (fst item)). lia.
Qed.

Lemma blank_keyword_matches_all_witness :
  EmptyString ∈ split " " (toLowerCase "kubernetes ") /\
  (forall s, 1 <= score "kubernetes " s) /\
  length (recommendMCPServersByKeywords three_servers "kubernetes ")
    = Nat.min 3 (length three_servers).
Proof.
  assert (H : EmptyString ∈ split " " (toLowerCase "kubernetes ")).
  { apply elem_of_cons. right. apply elem_of_cons. left. reflexivity. }
  split; [exact H|].
  apply (blank_keyword_matches_all three_servers "kubernetes " H).
Defined.

(** ** The endpoint /api/mcp/recommend *)

Lemma find_details catalogue id s :
  fetchMCPServerDetails catalogue id = Some s -> s ∈ catalogue /\ l_id s = id.
Proof.
  unfold fetchMCPServerDetails. intros H. apply List.find_some in H. destruct H as [Hin Hid].
  split; [apply list_elem_of_In, Hin|apply String.eqb_eq, Hid].
Qed.

Lemma omap_details catalogue (ids : list string) s :
  s ∈ omap (fetchMCPServerDetails catalogue) ids -> s ∈ catalogue /\ l_id s ∈ ids.
Proof.
  intros H. apply list_elem_of_omap in H. destruct H as (id & Hid & Hfind).
  apply find_details in Hfind. destruct Hfind as [Hin <-]. split; assumption.
Qed.

Lemma find_own_entry catalogue s :
  NoDup (map l_id catalogue) -> s ∈ catalogue ->
  fetchMCPServerDetails catalogue (l_id s) = Some s.
Proof.
  unfold fetchMCPServerDetails. induction catalogue as [|x l IH]; intros Hnd Hs; [inversion Hs|].
  simpl in *. apply NoDup_cons in Hnd. destruct Hnd as [Hx Hnd].
  apply elem_of_cons in Hs. destruct Hs as [->|Hs]; [now rewrite String.eqb_refl|].
  destruct (String.eqb_spec (l_id x) (l_id s)) as [Heq|_]; [|apply IH; assumption].
  exfalso. apply Hx. rewrite Heq. apply list_elem_of_fmap. exists s. split; [reflexivity|exact Hs].
Qed.

Lemma omap_own_entries catalogue servers :
  NoDup (map l_id catalogue) -> servers `sublist_of` catalogue ->
  omap (fetchMCPServerDetails catalogue) (map l_id servers) = servers.
Proof.
  intros Hnd Hsub.
  assert (Hall : forall s, s ∈ servers -> s ∈ catalogue).
  { intros s Hs. eapply elem_of_sublist; eauto. }
  clear Hsub. induction servers as [|s l IH]; [reflexivity|].
  cbn [map omap list_omap].
  rewrite (find_own_entry catalogue s Hnd) by (apply Hall, elem_of_cons; left; reflexivity).
  f_equal. apply IH. intros y Hy. apply Hall, elem_of_cons. right; exact Hy.
Qed.

(** X29.  Whatever the model answers, /api/mcp/recommend answers a query with
    servers of the catalogue only: ids the model invents are dropped.
    Without the model, and with ids that are unique in the catalogue,
    the recommendations are the first three servers whose text holds
    the query. *)
Theorem recommend_only_catalogue (catalogue : list Listing)
    (ai : string -> Outcome (option (list string))) (query : string) (useAI : bool) :
  query <> EmptyString ->
  exists recs,
    api_mcp_recommend catalogue ai query useAI
      = Some (recs, if useAI then "ai" else "search") /\
    (forall s, s ∈ recs -> s ∈ catalogue) /\
    (useAI = false -> NoDup (map l_id catalogue) ->
     recs = take 3 (List.filter (fun s => includes (searchText s) (toLowerCase query)) catalogue)).
Proof.
  intros Hq. unfold api_mcp_recommend.
  destruct (String.eqb_spec query EmptyString) as [|_]; [contradiction|].
  eexists. split; [reflexivity|]. split.
  - intros s Hs. apply omap_details in Hs. apply Hs.
  - intros -> Hnd.
    assert (Hfetch : fetchMCPServers catalogue {| p_query := Some query; p_category := None;
                                                  p_limit := Some 3 |}
                     = take 3 (List.filter (fun s => includes (searchText s) (toLowerCase query))
                                           catalogue)).
    { unfold fetchMCPServers, given. cbn [p_query p_category p_limit].
      destruct (String.eqb_spec query EmptyString) as [|_]; [contradiction|]. reflexivity. }
    rewrite Hfetch. apply omap_own_entries; [exact Hnd|].
    etransitivity; [apply sublist_take|apply filter_sublist].
Qed.

Lemma recommend_only_catalogue_witness :
  "repositories" <> EmptyString /\
  exists recs,
    api_mcp_recommend three_servers inventive_model "repositories" true
      = Some (recs, if true then "ai" else "search") /\
    (forall s, s ∈ recs -> s ∈ three_servers) /\
    (true = false -> NoDup (map l_id three_servers) ->
     recs = take 3 (List.filter (fun s => includes (searchText s) (toLowerCase "repositories"))
                                three_servers)).
Proof.
  split; [discriminate|].
  apply (recommend_only_catalogue three_servers inventive_model "repositories" true).
  discriminate.
Defined.

End CatalogueFacts.

(* ================================================================== *)
(** * Properties of the recommendations of the agent backend *)
(* ================================================================== *)

Module AgentCatalogueFacts.
Import JS Eff Catalogue AgentCatalogue CatalogueNotions CatalogueFacts.

(** X30.  Whatever the model answers, [getRecommendedServers] returns servers
    of the catalogue in the order of the catalogue; a query of white
    space only returns the whole catalogue; the ids a usable answer of
    the model names are returned when the catalogue has them and
    ignored otherwise; without a usable answer at most three servers
    are returned, each matching a word of the query. *)
Theorem getRecommendedServers_from_catalogue (catalogue : list Listing)
    (ai : string -> Outcome (option (list string))) (query : string) :
  getRecommendedServers catalogue ai query `sublist_of` catalogue /\
  (blank query = true -> getRecommendedServers catalogue ai query = catalogue) /\
  (blank query = false ->
   forall servers, ai query = Done (Some servers) ->
     forall s, s ∈ getRecommendedServers catalogue ai query <->
               s ∈ catalogue /\ l_id s ∈ servers) /\
  (blank query = false ->
   (ai query = Done None \/ exists e, ai query = Thrown e) ->
   (length (getRecommendedServers catalogue ai query) <= 3)%nat /\
   forall s, s ∈ getRecommendedServers catalogue ai query ->
             matches_terms (words (toLowerCase query)) s = true).
Proof.
  unfold getRecommendedServers.
  assert (Hfb : fallbackToKeywordSearch catalogue query `sublist_of` catalogue).
  { unfold fallbackToKeywordSearch. etransitivity; [apply sublist_take|apply filter_sublist]. }
  assert (Hfb3 : (length (fallbackToKeywordSearch catalogue query) <= 3)%nat /\
                 forall s, s ∈ fallbackToKeywordSearch catalogue query ->
                           matches_terms (words (toLowerCase query)) s = true).
  { unfold fallbackToKeywordSearch. split; [rewrite length_take; lia|].
    intros s Hs.
    assert (Hin : s ∈ List.filter (matches_terms (words (toLowerCase query))) catalogue)
      by (eapply elem_of_sublist; [exact Hs|apply sublist_take]).
    apply list_elem_of_In, List.filter_In in Hin. apply Hin. }
  destruct (blank query).
  { split; [reflexivity|]. split; [reflexivity|]. split; discriminate. }
  split; [|split; [discriminate|split]].
  - destruct (ai query) as [[servers|]|e]; try exact Hfb. apply filter_sublist.
  - intros _ servers ->. intros s. rewrite list_elem_of_In, List.filter_In, <- list_elem_of_In.
    split; intros [Hs Hid]; (split; [exact Hs|]).
    + apply existsb_exists in Hid. destruct Hid as (id & Hin & Heq).
      apply String.eqb_eq in Heq. subst id. apply list_elem_of_In, Hin.
    + apply existsb_exists. exists (l_id s). split; [apply list_elem_of_In, Hid|apply String.eqb_refl].
  - intros _ [-> | [e ->]]; exact Hfb3.
Qed.

End AgentCatalogueFacts.
